(** * AI_Job_Agent: job extraction, deduplication and two-stage matching

    A shallow embedding of the Python sources
      src/nodes/job_parser.py, src/nodes/filter.py,
      src/nodes/jd_extractor.py, src/nodes/matcher.py
    and the properties of them that the specification states.

    Conventions of the embedding.
    - A Python [str] is a Rocq [string]; a character is a code point below
      256 (so the middle dot U+00B7 is the single character "183").  Code
      points from 256 on are outside the model.
    - A Python value that came out of [json.loads] is a [Json.value].
    - A raised exception is [Raise msg], where [msg] is [str(e)]: every
      handler in the sources is [except Exception], so the message is all
      that can be observed of an exception.
    - Objects that are mutated in place ([JobFilter.history], the history
      file, a job dict) are threaded explicitly through the functions.
    - A language model is an oracle: what its call gives ([Py.Reply]) is
      an input of the function that makes the call, so the prompt
      builders and the [print] calls are left out.
    - BeautifulSoup and the [re] engine are libraries: a parsed document
      is the text [str(soup)] with the job cards found in it, and each
      regular expression of the sources is written out as the scanner it
      denotes. *)

From Stdlib Require Import ZArith String Ascii List Lia Bool.
From Stdlib Require Import Floats.SpecFloat DecimalString.
From stdpp Require Import base gmap sets list strings.

Set Warnings "-register-all,-clear-no-such-hyp".
Open Scope string_scope.
Open Scope list_scope.
Open Scope Z_scope.

(** stdpp keeps [String.append] folded; the proofs below unfold it on a
    constructor. *)
Arguments String.append !_ _ / : simpl nomatch.

(* ===================================================================== *)
(** ** Python [str] operations *)
(* ===================================================================== *)

Module Str.

(** [c.isspace()] for a code point below 256: the ASCII blanks TAB..CR,
    the separators FS..US, the space, NEL (0x85) and NBSP (0xA0). *)
Definition is_space (c : ascii) : bool :=
  let n := N_of_ascii c in
  ((9 <=? n) && (n <=? 13) || (28 <=? n) && (n <=? 32)
   || (n =? 133) || (n =? 160))%N.

(** [c.lower()] for a code point below 256: A-Z, and the Latin-1 capitals
    U+00C0..U+00DE except the multiplication sign U+00D7. *)
Definition lower_char (c : ascii) : ascii :=
  let n := N_of_ascii c in
  if ((65 <=? n) && (n <=? 90)
      || (192 <=? n) && (n <=? 222) && negb (n =? 215))%N
  then ascii_of_N (n + 32) else c.

Fixpoint lower (s : string) : string :=
  match s with
  | EmptyString => EmptyString
  | String c t => String (lower_char c) (lower t)
  end.

Fixpoint lstrip (s : string) : string :=
  match s with
  | EmptyString => EmptyString
  | String c t => if is_space c then lstrip t else s
  end.

(** [rstrip] keeps a character when it is no blank or when something
    that is kept follows it. *)
Fixpoint rstrip (s : string) : string :=
  match s with
  | EmptyString => EmptyString
  | String c t =>
      match rstrip t with
      | EmptyString => if is_space c then EmptyString else String c EmptyString
      | t' => String c t'
      end
  end.

Definition strip (s : string) : string := rstrip (lstrip s).

(** [s.startswith(p)] *)
Definition startswith (s p : string) : bool := String.prefix p s.

(** [needle in hay] for two strings: substring test. *)
Fixpoint contains (needle hay : string) : bool :=
  if String.prefix needle hay then true
  else match hay with
       | EmptyString => false
       | String _ t => contains needle t
       end.

(** [s.split(sep)] for a one-character separator: never the empty list. *)
Fixpoint split (sep : ascii) (s : string) : list string :=
  match s with
  | EmptyString => [EmptyString]
  | String c t =>
      if Ascii.eqb c sep then EmptyString :: split sep t
      else match split sep t with
           | [] => [String c EmptyString]
           | w :: ws => String c w :: ws
           end
  end.

(** [sep.join(parts)] *)
Definition join (sep : string) (parts : list string) : string :=
  String.concat sep parts.

(** [l[start:stop]] with Python's treatment of negative and
    out-of-range bounds. *)
Definition clamp_index {A} (l : list A) (i : Z) : nat :=
  let n := Z.of_nat (length l) in
  Z.to_nat (Z.min n (Z.max 0 (if i <? 0 then i + n else i))).

Definition slice {A} (l : list A) (start stop : Z) : list A :=
  let a := clamp_index l start in
  let b := clamp_index l stop in
  take (b - a)%nat (drop a l).

Definition newline : ascii := "010"%char.
Definition quote : string := String "034"%char EmptyString.
Definition fence : string := "```".

End Str.

(* ===================================================================== *)
(** ** Values produced by [json.loads] *)
(* ===================================================================== *)

Module Json.

(** The Python values a JSON document decodes to.  A [Dict] lists the
    items of the dict; lookup takes the first binding of a key. *)
Inductive value :=
| Null
| Bool (b : bool)
| Int (z : Z)
| Float (f : spec_float)
| Str (s : string)
| List (l : list value)
| Dict (items : list (string * value)).

Fixpoint assoc (k : string) (items : list (string * value)) : option value :=
  match items with
  | [] => None
  | (k', v) :: rest => if String.eqb k k' then Some v else assoc k rest
  end.

End Json.

(* ===================================================================== *)
(** ** Exceptions and the built-in conversions *)
(* ===================================================================== *)

Module Py.

(** The outcome of a Python expression: a value, or a raised exception
    with its message [str(e)]. *)
Inductive res (A : Type) :=
| Ok (a : A)
| Raise (msg : string).
Arguments Ok {A} a.
Arguments Raise {A} msg.

Definition bind {A B} (m : res A) (k : A → res B) : res B :=
  match m with
  | Ok a => k a
  | Raise msg => Raise msg
  end.

(** [try: body  except Exception as e: handler(e)] *)
Definition try_except {A} (body : res A) (handler : string → res A) : res A :=
  match body with
  | Ok a => Ok a
  | Raise msg => handler msg
  end.

(** The library functions the sources call on text that comes from the
    model: [json.loads], [int(str)] and [float(str)].  [None] stands for
    the exception each raises on text it rejects. *)
Record Runtime := mkRuntime {
  json_loads : string → option Json.value;
  int_of_str : string → option Z;
  float_of_str : string → option spec_float
}.

(** [json.loads(s)]; the message of its [JSONDecodeError] is cut short,
    no handler in the sources reads it. *)
Definition loads (rt : Runtime) (s : string) : res Json.value :=
  match json_loads rt s with
  | Some v => Ok v
  | None => Raise "Expecting value"
  end.

(** [content.strip()] on the content of a response *)
Definition strip (content : option string) : res string :=
  match content with
  | Some response => Ok (Str.strip response)
  | None => Raise "object has no attribute 'strip'"
  end.

(** IEEE 754 binary64, the format of a Python [float]. *)
Definition prec : Z := 53.
Definition emax : Z := 1024.

(** [float(z)] for an int: round to nearest even, [OverflowError] when
    the result is not finite. *)
Definition float_of_Z (z : Z) : res spec_float :=
  match binary_normalize prec emax z 0 false with
  | S754_infinity _ => Raise "int too large to convert to float"
  | f => Ok f
  end.

(** [int(f)] for a float: truncation towards zero. *)
Definition int_of_float (f : spec_float) : res Z :=
  match f with
  | S754_zero _ => Ok 0
  | S754_infinity _ => Raise "cannot convert float infinity to integer"
  | S754_nan => Raise "cannot convert float NaN to integer"
  | S754_finite s m e =>
      let a := if 0 <=? e then Z.pos m * 2 ^ e else Z.pos m / 2 ^ (- e) in
      Ok (if s then - a else a)
  end.

Definition float_100 : spec_float := binary_normalize prec emax 100 0 false.

(** [type(v).__name__] *)
Definition type_name (v : Json.value) : string :=
  match v with
  | Json.Null => "NoneType"
  | Json.Bool _ => "bool"
  | Json.Int _ => "int"
  | Json.Float _ => "float"
  | Json.Str _ => "str"
  | Json.List _ => "list"
  | Json.Dict _ => "dict"
  end.

(** [int(v)].  For a string that is no int literal Python's message goes
    on with a colon and the [repr] of the string; the model keeps the
    part before the colon.  A call of [int] on a string in the sources
    stands inside a [try] whose handler drops the message, or in the
    reading of the configuration at the start of the program; no
    statement below reads the message. *)
Definition int (rt : Runtime) (v : Json.value) : res Z :=
  match v with
  | Json.Int z => Ok z
  | Json.Bool b => Ok (if b then 1 else 0)
  | Json.Float f => int_of_float f
  | Json.Str s =>
      match int_of_str rt s with
      | Some z => Ok z
      | None => Raise "invalid literal for int() with base 10"
      end
  | _ => Raise ("int() argument must be a string, a bytes-like object or a real number, not '"
                +:+ type_name v +:+ "'")
  end.

(** [float(v)].  As for [int], the message for a string that is no
    float literal is kept up to the colon. *)
Definition float (rt : Runtime) (v : Json.value) : res spec_float :=
  match v with
  | Json.Float f => Ok f
  | Json.Int z => float_of_Z z
  | Json.Bool b => float_of_Z (if b then 1 else 0)
  | Json.Str s =>
      match float_of_str rt s with
      | Some f => Ok f
      | None => Raise "could not convert string to float"
      end
  | _ => Raise ("float() argument must be a string or a real number, not '"
                +:+ type_name v +:+ "'")
  end.

(** [len(v)] *)
Definition len (v : Json.value) : res Z :=
  match v with
  | Json.List l => Ok (Z.of_nat (length l))
  | Json.Str s => Ok (Z.of_nat (String.length s))
  | Json.Dict items => Ok (Z.of_nat (length items))
  | _ => Raise ("object of type '" +:+ type_name v +:+ "' has no len()")
  end.

(** [key in v] for a string [key] *)
Definition contains (key : string) (v : Json.value) : res bool :=
  match v with
  | Json.Dict items => Ok (bool_decide (is_Some (Json.assoc key items)))
  | Json.List l =>
      Ok (existsb (λ x, match x with Json.Str s => String.eqb key s | _ => false end) l)
  | Json.Str s => Ok (Str.contains key s)
  | _ => Raise ("argument of type '" +:+ type_name v +:+ "' is not iterable")
  end.

(** [v[key]] for a string [key] *)
Definition getitem (key : string) (v : Json.value) : res Json.value :=
  match v with
  | Json.Dict items =>
      match Json.assoc key items with
      | Some x => Ok x
      | None => Raise ("'" +:+ key +:+ "'")
      end
  | Json.List _ => Raise "list indices must be integers or slices, not str"
  | Json.Str _ => Raise "string indices must be integers, not 'str'"
  | _ => Raise ("'" +:+ type_name v +:+ "' object is not subscriptable")
  end.

(** [v.get(key, dflt)]: only a dict has the method. *)
Definition get (key : string) (dflt : Json.value) (v : Json.value) : res Json.value :=
  match v with
  | Json.Dict items => Ok (default dflt (Json.assoc key items))
  | _ => Raise ("'" +:+ type_name v +:+ "' object has no attribute 'get'")
  end.

(** [str(z)] for an int *)
Definition str_of_Z (z : Z) : string :=
  DecimalString.NilZero.string_of_int (Z.to_int z).

(** What a call of a language model gives: an exception, or a response
    whose [content] is a string ([None] when it is no [str], so that
    [content.strip()] raises). *)
Inductive Reply :=
| Fails (msg : string)
| Content (content : option string).

(** The call and the read of the content: [self.llm.invoke(prompt)] and
    [response.content] in stage A and in the legacy matcher,
    [self.client.chat.completions.create(...)] and
    [response.choices[0].message.content] in the enhanced matcher. *)
Definition call (reply : Reply) : res (option string) :=
  match reply with
  | Fails msg => Raise msg
  | Content content => Ok content
  end.

End Py.

(** [x ← m; k] runs [k] on the value of [m] and passes an exception on. *)
#[global] Instance res_bind : MBind Py.res := λ A B k m, Py.bind m k.

(* ===================================================================== *)
(** ** Jobs (state.py) *)
(* ===================================================================== *)

(** A key of the history set: [job["link"]], a string, or [None] when the
    card parser found an anchor without [href]. *)
Abbreviation Link := (option string).

(** [class Requirement(TypedDict)]: the values are what the model sent. *)
Record Requirement := mkRequirement {
  category : Json.value;
  item : Json.value;
  level : Json.value;
  priority : Json.value
}.

(** A Python number: [match_score] is a float on the parsed path and the
    int [0] on the fallback paths. *)
Inductive number :=
| NInt (z : Z)
| NFloat (f : spec_float).

(** [class EnhancedMatchResult(TypedDict)] *)
Record EnhancedMatchResult := mkEnhanced {
  match_score : number;
  strong_matches : Json.value;
  partial_matches : Json.value;
  gaps : Json.value;
  cv_suggestions : Json.value
}.

(** [class Job(TypedDict, total=False)].  The parser always sets the first
    five fields; [score], [reasons], [requirements] and [enhanced_result]
    are absent until a later node adds them. *)
Record Job := mkJob {
  title : string;
  company : string;
  location : string;
  link : Link;
  desc : string;
  score : option Z;
  reasons : option Json.value;
  requirements : option (list Requirement);
  enhanced_result : option EnhancedMatchResult
}.

(** [job.get("score", 0)] *)
Definition get_score (job : Job) : Z := default 0 (score job).

(* ===================================================================== *)
(** ** filter.py: the history store and the dedup/filter engine *)
(* ===================================================================== *)

Module JobFilter.

(** The file at [config.history_path], as [_load_history] can find it:
    missing, unreadable (anything on which [json.load], [data.get] or
    [set(...)] raises), or a JSON object whose ["sent_jobs"] array holds
    the given links (an object without that key is [Stored []]). *)
Inductive HistoryFile :=
| Missing
| Unreadable
| Stored (sent_jobs : list Link).

(** The file system: the history file and how often it was written. *)
Record Disk := mkDisk {
  file : HistoryFile;
  writes : nat
}.

(** A [JobFilter] object ([history_path] is the one file of [Disk]). *)
Record t := mkJobFilter {
  threshold : Z;
  history : gset Link
}.

Definition _load_history (d : Disk) : gset Link :=
  match file d with
  | Missing => ∅
  | Unreadable => ∅
  | Stored sent_jobs => list_to_set sent_jobs
  end.

(** [JobFilter.__init__] *)
Definition new (threshold : Z) (d : Disk) : t :=
  {| threshold := threshold; history := _load_history d |}.

(** [json.dump({"sent_jobs": list(self.history)}, f)]: the order of
    [list(set)] is unspecified, [elements] fixes one.  Creating the
    directory and opening the file are taken to succeed. *)
Definition _save_history (self : t) (d : Disk) : Disk :=
  {| file := Stored (elements (history self)); writes := S (writes d) |}.

Definition excluded_keywords : list string :=
  ["senior"; "lead"; "principal"; "architect"; "director"; "manager";
   "head of"].

(** The [for keyword in excluded_keywords] loop with its early return. *)
Fixpoint any_keyword_in (keywords : list string) (title_lower : string) : bool :=
  match keywords with
  | [] => false
  | keyword :: rest =>
      if Str.contains keyword title_lower then true
      else any_keyword_in rest title_lower
  end.

Definition _is_senior_role (title : string) : bool :=
  let title_lower := Str.lower title in
  any_keyword_in excluded_keywords title_lower.

(** The three local lists of [JobFilter.deduplicate_jobs]. *)
Record Split := mkSplit {
  new_jobs : list Job;
  duplicate_jobs : list Job;
  excluded_jobs : list Job
}.

(** One iteration of the loop of [deduplicate_jobs]. *)
Definition dedup_step (h : gset Link) (acc : Split) (job : Job) : Split :=
  if _is_senior_role (title job) then
    {| new_jobs := new_jobs acc; duplicate_jobs := duplicate_jobs acc;
       excluded_jobs := excluded_jobs acc ++ [job] |}
  else if decide (link job ∈ h) then
    {| new_jobs := new_jobs acc; duplicate_jobs := duplicate_jobs acc ++ [job];
       excluded_jobs := excluded_jobs acc |}
  else
    {| new_jobs := new_jobs acc ++ [job]; duplicate_jobs := duplicate_jobs acc;
       excluded_jobs := excluded_jobs acc |}.

Definition dedup_loop (h : gset Link) (jobs : list Job) : Split :=
  fold_left (dedup_step h) jobs (mkSplit [] [] []).

(** [JobFilter.deduplicate_jobs]: returns [(new_jobs, duplicate_jobs)];
    the object and the disk are passed through, as every method is. *)
Definition deduplicate_jobs (jobs : list Job) (self : t) (d : Disk)
  : (list Job * list Job) * t * Disk :=
  let r := dedup_loop (history self) jobs in
  ((new_jobs r, duplicate_jobs r), self, d).

(** One iteration of the loop of [JobFilter.filter_jobs]: the list
    [filtered] and the set [self.history] are the loop's state. *)
Definition filter_step (threshold : Z) (acc : list Job * gset Link) (job : Job)
  : list Job * gset Link :=
  let '(filtered, h) := acc in
  if get_score job <? threshold then acc
  else if decide (link job ∈ h) then acc
  else (filtered ++ [job], {[link job]} ∪ h).

Definition filter_loop (threshold : Z) (jobs : list Job) (h : gset Link)
  : list Job * gset Link :=
  fold_left (filter_step threshold) jobs ([], h).

(** [JobFilter.filter_jobs] *)
Definition filter_jobs (jobs : list Job) (self : t) (d : Disk)
  : list Job * t * Disk :=
  let '(filtered, h) := filter_loop (threshold self) jobs (history self) in
  let self' := {| threshold := threshold self; history := h |} in
  match filtered with
  | [] => (filtered, self', d)
  | _ :: _ => (filtered, self', _save_history self' d)
  end.

(** [class AgentState(TypedDict)], the fields the nodes below touch. *)
Record AgentState := mkAgentState {
  st_jobs : list Job;
  st_duplicate_jobs : list Job;
  st_filtered_jobs : list Job
}.

(** The node [deduplicate_jobs(state)]; [match_threshold] is
    [config.match_threshold].  The second component is the
    [excluded_count] the node prints. *)
Definition deduplicate_jobs_node (match_threshold : Z) (state : AgentState)
  (d : Disk) : AgentState * Z * Disk :=
  let job_filter := new match_threshold d in
  let all_jobs := st_jobs state in
  let '(new_jobs, duplicate_jobs, _, d') := deduplicate_jobs all_jobs job_filter d in
  let excluded_count :=
    Z.of_nat (length all_jobs) - Z.of_nat (length new_jobs)
    - Z.of_nat (length duplicate_jobs) in
  ({| st_jobs := new_jobs; st_duplicate_jobs := duplicate_jobs;
      st_filtered_jobs := st_filtered_jobs state |}, excluded_count, d').

(** The node [filter_jobs(state)]. *)
Definition filter_jobs_node (match_threshold : Z) (state : AgentState)
  (d : Disk) : AgentState * Disk :=
  let job_filter := new match_threshold d in
  let '(filtered, _, d') := filter_jobs (st_jobs state) job_filter d in
  ({| st_jobs := st_jobs state; st_duplicate_jobs := st_duplicate_jobs state;
      st_filtered_jobs := filtered |}, d').

(** [JobFilter._mark_jobs_as_processed]: the link of every job is added
    to the history, then the history is saved (also for an empty list of
    jobs). *)
Definition _mark_jobs_as_processed (jobs : list Job) (self : t) (d : Disk)
  : t * Disk :=
  let h := fold_left (λ h job, {[link job]} ∪ h) jobs (history self) in
  let self' := {| threshold := threshold self; history := h |} in
  (self', _save_history self' d).

End JobFilter.

(* ===================================================================== *)
(** ** job_parser.py: the HTML job extractor *)
(* ===================================================================== *)

Module JobParser.

Definition is_digit (c : ascii) : bool :=
  let n := N_of_ascii c in ((48 <=? n) && (n <=? 57))%N.

Definition is_not (c : ascii) (x : ascii) : bool := negb (Ascii.eqb x c).

(** [s] without its prefix [p], when [s] starts with [p]. *)
Fixpoint strip_prefix (p s : string) : option string :=
  match p, s with
  | EmptyString, _ => Some s
  | String a p', String b s' =>
      if Ascii.eqb a b then strip_prefix p' s' else None
  | String _ _, EmptyString => None
  end.

Fixpoint take_while (f : ascii → bool) (s : string) : string :=
  match s with
  | EmptyString => EmptyString
  | String c t => if f c then String c (take_while f t) else EmptyString
  end.

Fixpoint drop_while (f : ascii → bool) (s : string) : string :=
  match s with
  | EmptyString => EmptyString
  | String c t => if f c then drop_while f t else s
  end.

(** At most [n] leading characters that satisfy [f]: a greedy [{0,n}]. *)
Fixpoint take_upto (n : nat) (f : ascii → bool) (s : string) : string :=
  match n, s with
  | S k, String c t => if f c then String c (take_upto k f t) else EmptyString
  | _, _ => EmptyString
  end.

Definition job_view : string := "https://www.linkedin.com/comm/jobs/view/".

(** A match of [https://www\.linkedin\.com/comm/jobs/view/\d+] at the
    start of [s]: the matched text. *)
Definition match_job_view (s : string) : option string :=
  match strip_prefix job_view s with
  | Some rest =>
      match take_while is_digit rest with
      | EmptyString => None
      | digits => Some (job_view +:+ digits)
      end
  | None => None
  end.

(** [re.search(r"(https://www\.linkedin\.com/comm/jobs/view/\d+)", url)]:
    group 1 of the leftmost match. *)
Fixpoint search_job_view (url : string) : option string :=
  match match_job_view url with
  | Some m => Some m
  | None =>
      match url with
      | EmptyString => None
      | String _ t => search_job_view t
      end
  end.

(** [url.split("?")[0]] *)
Definition before_query (url : string) : string :=
  match Str.split "?" url with
  | p :: _ => p
  | [] => EmptyString
  end.

Definition _clean_linkedin_url (url : string) : string :=
  if String.eqb url "" then ""
  else
    match search_job_view url with
    | Some m => m
    | None =>
        if Str.startswith url "/comm/jobs/view/"
        then "https://www.linkedin.com" +:+ before_query url
        else if Str.contains "?" url then before_query url else url
    end.

(** One attempt of [job_pattern] at the start of [s].  The pattern reads,
    with Q for the double quote: the text href=Q, then group 1 (the job
    view address, one or more digits, any run of non-Q), then Q, any run
    of non-[>], a [>], group 2 (one or more non-[<]) and the closing tag
    of the anchor.  The result is the two groups and the text after the
    match.  Every repetition is closed by a character it excludes, so the
    greedy reading is the only one. *)
Definition match_job_anchor (s : string) : option (string * string * string) :=
  r0 ← strip_prefix ("href=" +:+ Str.quote) s;
  r1 ← strip_prefix job_view r0;
  match take_while is_digit r1 with
  | EmptyString => None
  | _ =>
      let url := job_view +:+ take_while (is_not "034") r1 in
      r2 ← strip_prefix Str.quote (drop_while (is_not "034") r1);
      r3 ← strip_prefix ">" (drop_while (is_not ">") r2);
      match take_while (is_not "<") r3 with
      | EmptyString => None
      | title =>
          r4 ← strip_prefix "</a>" (drop_while (is_not "<") r3);
          Some (url, title, r4)
      end
  end.

(** [re.findall(job_pattern, html_str)]: the matches from left to right,
    the search resuming where a match ended.  [skip] counts the
    characters of the last match that are still to be passed over. *)
Fixpoint findall_job_anchors (skip : nat) (s : string) : list (string * string) :=
  match s with
  | EmptyString => []
  | String _ t =>
      match skip with
      | S k => findall_job_anchors k t
      | O =>
          match match_job_anchor s with
          | Some (url, title, rest) =>
              (url, title)
              :: findall_job_anchors (String.length s - String.length rest - 1) t
          | None => findall_job_anchors 0 t
          end
      end
  end.

Definition middot : ascii := "183".

(** The leftmost match of [re.escape(title)] followed by any run of
    characters other than the middle dot, a middle dot, and at most 150
    characters other than [<]. *)
Fixpoint search_title_context (title s : string) : option string :=
  let here :=
    rest ← strip_prefix title s;
    after ← strip_prefix (String middot "") (drop_while (is_not middot) rest);
    Some (title +:+ take_while (is_not middot) rest +:+ String middot ""
          +:+ take_upto 150 (is_not "<") after) in
  match here with
  | Some m => Some m
  | None =>
      match s with
      | EmptyString => None
      | String _ t => search_title_context title t
      end
  end.

(** [s.replace(old, "")]: every occurrence of [old], from the left and
    without overlap, is removed. *)
Fixpoint remove_all_go (old : string) (skip : nat) (s : string) : string :=
  match s with
  | EmptyString => EmptyString
  | String c t =>
      match skip with
      | S k => remove_all_go old k t
      | O =>
          if String.prefix old s
          then remove_all_go old (String.length old - 1) t
          else String c (remove_all_go old 0 t)
      end
  end.

Definition remove_all (old s : string) : string :=
  if String.eqb old "" then s else remove_all_go old 0 s.

(** A character of the class in the company clean-up: a digit, a
    semicolon, a double quote, [>] or a blank. *)
Definition is_noise (c : ascii) : bool :=
  is_digit c || Ascii.eqb c ";" || Ascii.eqb c "034" || Ascii.eqb c ">"
  || Str.is_space c.

(** [re.sub] of that class, repeated, by a space: each maximal run of
    noise becomes one space. *)
Fixpoint collapse_noise (in_run : bool) (s : string) : string :=
  match s with
  | EmptyString => EmptyString
  | String c t =>
      if is_noise c
      then if in_run then collapse_noise true t
           else String " " (collapse_noise true t)
      else String c (collapse_noise false t)
  end.

(** [s.split()]: the maximal runs of non-blank characters. *)
Fixpoint words_go (cur : string) (s : string) : list string :=
  match s with
  | EmptyString => if String.eqb cur "" then [] else [cur]
  | String c t =>
      if Str.is_space c
      then if String.eqb cur "" then words_go "" t else cur :: words_go "" t
      else words_go (cur +:+ String c "") t
  end.

Definition words (s : string) : list string := words_go "" s.

(** [re.sub(r'<[^>]+>', '', s)] *)
Fixpoint strip_tags (skip : nat) (s : string) : string :=
  match s with
  | EmptyString => EmptyString
  | String c t =>
      match skip with
      | S k => strip_tags k t
      | O =>
          let inside := take_while (is_not ">") t in
          if Ascii.eqb c "<" && negb (String.eqb inside "")
             && String.prefix ">" (drop_while (is_not ">") t)
          then strip_tags (S (String.length inside)) t
          else String c (strip_tags 0 t)
      end
  end.

(** [s.split(sep)[0]] for a non-empty [sep]: the text before the first
    occurrence of [sep], all of [s] when there is none. *)
Fixpoint before (sep s : string) : string :=
  if String.prefix sep s then EmptyString
  else match s with
       | EmptyString => EmptyString
       | String c t => String c (before sep t)
       end.

Definition location_suffixes : list string :=
  ["Easy Apply"; "Save"; "See all jobs"; "Install"].

Definition cut_suffix (location suffix : string) : string :=
  if Str.contains suffix location then Str.strip (before suffix location)
  else location.

Definition _extract_company_location_from_html
  (html_str title job_url : string) : string * string :=
  match search_title_context title html_str with
  | None => ("", "")
  | Some match_text =>
      match Str.split middot match_text with
      | part0 :: part1 :: _ =>
          let company_part := Str.strip (remove_all title part0) in
          let company_part := collapse_noise false company_part in
          let company := Str.strip company_part in
          let company := default company (last (words company)) in
          let location := Str.strip part1 in
          let location := strip_tags 0 location in
          let location := Str.strip (before "<" location) in
          let location := fold_left cut_suffix location_suffixes location in
          let location := Str.join " " (words location) in
          (company, location)
      | _ => ("", "")
      end
  end.

(** The dict both strategies build for a posting. *)
Definition new_job (title company location : string) (link : Link) : Job :=
  {| title := title; company := company; location := location; link := link;
     desc := ""; score := None; reasons := None; requirements := None;
     enhanced_result := None |}.

(** One iteration of the loop of [_parse_table_format] over the matches:
    the list [jobs] and the set [seen_links] are the loop's state. *)
Definition table_step (html_str : string) (acc : list Job * gset string)
  (m : string * string) : list Job * gset string :=
  let '(jobs, seen_links) := acc in
  let '(url, title) := m in
  let clean_url := _clean_linkedin_url url in
  let title := Str.strip title in
  if String.eqb title "" || bool_decide (clean_url ∈ seen_links) then acc
  else
    let '(company, location) :=
      _extract_company_location_from_html html_str title clean_url in
    (jobs ++ [new_job title company location (Some clean_url)],
     {[clean_url]} ∪ seen_links).

(** What BeautifulSoup gives for one job card: the first anchor whose
    class matches [text-color-brand] (its stripped text and its [href]),
    and the stripped text of the first [p] whose class matches
    [text-system-gray]. *)
Record Card := mkCard {
  title_link : option (string * option string);
  company_elem : option string
}.

(** [BeautifulSoup(html, "lxml")], as the parser reads it: [str(soup)] and
    [soup.find_all(attrs={"data-test-id": "job-card"})]. *)
Record Soup := mkSoup {
  html_str : string;
  job_cards : list Card
}.

Definition _parse_table_format (soup : Soup) : list Job :=
  let html_str := html_str soup in
  let matches := findall_job_anchors 0 html_str in
  fst (fold_left (table_step html_str) matches ([], ∅)).

(** The separator of [_parse_company_location]: a middle dot between
    two spaces. *)
Definition sep_dot : string := String " " (String middot (String " " "")).

Fixpoint after (sep s : string) : string :=
  match strip_prefix sep s with
  | Some rest => rest
  | None =>
      match s with
      | EmptyString => EmptyString
      | String _ t => after sep t
      end
  end.

Definition _parse_company_location (text : string) : string * string :=
  if Str.contains sep_dot text
  then (Str.strip (before sep_dot text), Str.strip (after sep_dot text))
  else (Str.strip text, "").

Definition _extract_job_from_card (card : Card) : option Job :=
  match title_link card with
  | None => None
  | Some (title, href) =>
      let link := match href with
                  | Some l => if String.eqb l "" then Some l
                              else Some (_clean_linkedin_url l)
                  | None => None
                  end in
      let company_text := default "" (company_elem card) in
      let '(company, location) := _parse_company_location company_text in
      Some (new_job title company location link)
  end.

(** The first loop of [parse_html], over [table_jobs]. *)
Definition seen_step (acc : list Job * gset Link) (job : Job)
  : list Job * gset Link :=
  let '(jobs, seen_links) := acc in
  if decide (link job ∈ seen_links) then acc
  else (jobs ++ [job], {[link job]} ∪ seen_links).

(** The second loop of [parse_html], over [job_cards]. *)
Definition card_step (acc : list Job * gset Link) (card : Card)
  : list Job * gset Link :=
  match _extract_job_from_card card with
  | Some job => seen_step acc job
  | None => acc
  end.

Definition parse_html (soup : Soup) : list Job :=
  let table_jobs := _parse_table_format soup in
  let '(jobs, seen_links) := fold_left seen_step table_jobs ([], ∅) in
  match jobs with
  | [] => fst (fold_left card_step (job_cards soup) (jobs, seen_links))
  | _ :: _ => jobs
  end.

(** The postings a document offers, in document order, before any is
    dropped as a repetition: one for each anchor match whose text is not
    blank, and one for each card with a title link. *)
Definition table_candidate (html_str : string) (m : string * string) : option Job :=
  let '(url, title) := m in
  let clean_url := _clean_linkedin_url url in
  let title := Str.strip title in
  if String.eqb title "" then None
  else
    let '(company, location) :=
      _extract_company_location_from_html html_str title clean_url in
    Some (new_job title company location (Some clean_url)).

Definition table_candidates (soup : Soup) : list Job :=
  omap (table_candidate (html_str soup))
       (findall_job_anchors 0 (html_str soup)).

Definition card_candidates (soup : Soup) : list Job :=
  omap _extract_job_from_card (job_cards soup).

(** The node [parse_jobs(state)], on the parsed emails. *)
Definition parse_jobs (raw_emails : list Soup) : list Job :=
  concat (map parse_html raw_emails).

End JobParser.

(* ===================================================================== *)
(** ** Fenced code blocks around a model response *)
(* ===================================================================== *)

Module Fence.

Definition nl : string := String Str.newline "".

(** The loop [for i in range(len(lines) - 1, 0, -1)] that looks for the
    last line that is a closing fence: it tries [i], [i-1], ..., [1] and
    gives [-1] when none is one. *)
Fixpoint end_idx_from (i : nat) (lines : list string) : Z :=
  match i with
  | O => -1
  | S k =>
      match lines !! i with
      | Some line =>
          if String.eqb (Str.strip line) Str.fence then Z.of_nat i
          else end_idx_from k lines
      | None => end_idx_from k lines
      end
  end.

Definition end_idx (lines : list string) : Z :=
  end_idx_from (length lines - 1) lines.

(** The fence removal of [JDExtractor._parse_response] and of
    [EnhancedJobMatcher._parse_response] (the same code in both). *)
Definition remove_code_block (response : string) : string :=
  if Str.startswith response Str.fence then
    let lines := Str.split Str.newline response in
    Str.join nl (Str.slice lines 1 (end_idx lines))
  else response.

(** The fence removal of [JobMatcher._parse_response]:
    [lines[1:-1]] whatever the last line is. *)
Definition remove_code_block_legacy (response : string) : string :=
  if Str.startswith response Str.fence then
    let lines := Str.split Str.newline response in
    Str.join nl (Str.slice lines 1 (-1))
  else response.

End Fence.

(* ===================================================================== *)
(** ** jd_extractor.py: stage A *)
(* ===================================================================== *)

Module JDExtractor.

(** One iteration of the validation loop of [_parse_response]. *)
Definition validate_step (validated : list Requirement) (req : Json.value)
  : list Requirement :=
  match req with
  | Json.Dict fields =>
      match Json.assoc "item" fields with
      | Some it =>
          validated ++
          [{| category := default (Json.Str "other") (Json.assoc "category" fields);
              item := it;
              level := default (Json.Str "") (Json.assoc "level" fields);
              priority := default (Json.Str "must") (Json.assoc "priority" fields) |}]
      | None => validated
      end
  | _ => validated
  end.

(** The body of the [try] of [_parse_response]. *)
Definition parse_try (rt : Py.Runtime) (content : option string)
  : Py.res (list Requirement) :=
  response ← Py.strip content;
  let response := Fence.remove_code_block response in
  requirements ← Py.loads rt response;
  match requirements with
  | Json.List reqs => Py.Ok (fold_left validate_step reqs [])
  | _ => Py.Ok []
  end.

Definition _parse_response (rt : Py.Runtime) (content : option string)
  : Py.res (list Requirement) :=
  Py.try_except (parse_try rt content) (λ _, Py.Ok []).

(** What the specification says of one entry of the response array: an
    entry without [item] is dropped, a kept entry takes ["other"] for a
    missing [category], ["must"] for a missing [priority] (and [""] for a
    missing [level]). *)
Definition normalized (req : Json.value) : option Requirement :=
  match req with
  | Json.Dict fields =>
      it ← Json.assoc "item" fields;
      Some {| category := default (Json.Str "other") (Json.assoc "category" fields);
              item := it;
              level := default (Json.Str "") (Json.assoc "level" fields);
              priority := default (Json.Str "must") (Json.assoc "priority" fields) |}
  | _ => None
  end.

(** [extract_requirements(job)]; [reply] is what the model call gives for
    the prompt built from [job].  The fallback item is
    [job.get("title", "Unknown")]: a [Job] always has a title, so the
    default is never taken. *)
Definition extract_requirements (rt : Py.Runtime) (reply : Py.Reply) (job : Job)
  : Py.res (list Requirement) :=
  Py.try_except
    (content ← Py.call reply;
     requirements ← _parse_response rt content;
     Py.Ok requirements)
    (λ _, Py.Ok [{| category := Json.Str "role";
                    item := Json.Str (title job);
                    level := Json.Str "";
                    priority := Json.Str "must" |}]).

End JDExtractor.

(* ===================================================================== *)
(** ** matcher.py: stage B *)
(* ===================================================================== *)

(** [job["score"] = s; job["reasons"] = r] *)
Definition set_score_reasons (job : Job) (s : Z) (r : Json.value) : Job :=
  {| title := title job; company := company job; location := location job;
     link := link job; desc := desc job; score := Some s; reasons := Some r;
     requirements := requirements job; enhanced_result := enhanced_result job |}.

(** [job["enhanced_result"] = e] *)
Definition set_enhanced_result (job : Job) (e : EnhancedMatchResult) : Job :=
  {| title := title job; company := company job; location := location job;
     link := link job; desc := desc job; score := score job;
     reasons := reasons job; requirements := requirements job;
     enhanced_result := Some e |}.

Module JobMatcher.

(** The dict [{"score": ..., "reasons": ...}] of [_parse_response]. *)
Record Result := mkResult {
  r_score : Z;
  r_reasons : Json.value
}.

(** The body of the [try] of [_parse_response]. *)
Definition parse_try (rt : Py.Runtime) (content : option string)
  : Py.res Result :=
  response ← Py.strip content;
  let response := Fence.remove_code_block_legacy response in
  result ← Py.loads rt response;
  has_score ← Py.contains "score" result;
  has_reasons ← (if has_score then Py.contains "reasons" result
                 else Py.Ok false);
  if negb has_score || negb has_reasons
  then Py.Raise "Missing required fields"
  else
    raw ← Py.getitem "score" result;
    score ← Py.int rt raw;
    let score := if negb ((0 <=? score) && (score <=? 100))
                 then Z.max 0 (Z.min 100 score) else score in
    r ← Py.getitem "reasons" result;
    Py.Ok {| r_score := score; r_reasons := r |}.

Definition _parse_response (rt : Py.Runtime) (content : option string)
  : Py.res Result :=
  Py.try_except (parse_try rt content)
    (λ _, Py.Ok {| r_score := 0;
                   r_reasons := Json.Str "Failed to parse LLM response" |}).

(** The body of the [try] of [match_job]. *)
Definition match_try (rt : Py.Runtime) (reply : Py.Reply) (job : Job)
  : Py.res Job :=
  content ← Py.call reply;
  result ← _parse_response rt content;
  Py.Ok (set_score_reasons job (r_score result) (r_reasons result)).

Definition match_job (rt : Py.Runtime) (reply : Py.Reply) (job : Job)
  : Py.res Job :=
  Py.try_except (match_try rt reply job)
    (λ e, Py.Ok (set_score_reasons job 0
                   (Json.Str ("Error during matching: " +:+ e)))).

End JobMatcher.

Module EnhancedJobMatcher.

(** The result both fallbacks build: the int [0] and four empty lists. *)
Definition empty_result : EnhancedMatchResult :=
  {| match_score := NInt 0;
     strong_matches := Json.List [];
     partial_matches := Json.List [];
     gaps := Json.List [];
     cv_suggestions := Json.List [] |}.

(** The body of the [try] of [_parse_response]. *)
Definition parse_try (rt : Py.Runtime) (content : option string)
  : Py.res EnhancedMatchResult :=
  response ← Py.strip content;
  let response := Fence.remove_code_block response in
  result ← Py.loads rt response;
  raw ← Py.get "match_score" (Json.Int 0) result;
  ms ← Py.float rt raw;
  sm ← Py.get "strong_matches" (Json.List []) result;
  pm ← Py.get "partial_matches" (Json.List []) result;
  gs ← Py.get "gaps" (Json.List []) result;
  cs ← Py.get "cv_suggestions" (Json.List []) result;
  Py.Ok {| match_score := NFloat ms; strong_matches := sm;
           partial_matches := pm; gaps := gs; cv_suggestions := cs |}.

Definition _parse_response (rt : Py.Runtime) (content : option string)
  : Py.res EnhancedMatchResult :=
  Py.try_except (parse_try rt content) (λ _, Py.Ok empty_result).

(** [", ".join(parts) if parts else "No match info"], where [parts] has
    an entry for each count that is not zero. *)
Definition _generate_summary (result : EnhancedMatchResult) : Py.res string :=
  strong ← Py.len (strong_matches result);
  partial ← Py.len (partial_matches result);
  gaps ← Py.len (gaps result);
  let parts :=
    (if strong =? 0 then [] else [Py.str_of_Z strong +:+ " strong match(es)"])
    ++ (if partial =? 0 then [] else [Py.str_of_Z partial +:+ " partial match(es)"])
    ++ (if gaps =? 0 then [] else [Py.str_of_Z gaps +:+ " gap(s)"]) in
  match parts with
  | [] => Py.Ok "No match info"
  | _ :: _ => Py.Ok (Str.join ", " parts)
  end.

(** [int(x * 100)] for the number [x = result.get("match_score", 0)]. *)
Definition legacy_score (x : number) : Py.res Z :=
  match x with
  | NInt z => Py.Ok (z * 100)
  | NFloat f => Py.int_of_float (SFmul Py.prec Py.emax f Py.float_100)
  end.

(** The body of the [try] of [match_job].  The three assignments are
    made together at its end: when one of them raises, the handler
    overwrites the same three keys, so a partial update is never seen. *)
Definition match_try (rt : Py.Runtime) (reply : Py.Reply) (job : Job)
  : Py.res Job :=
  content ← Py.call reply;
  result ← _parse_response rt content;
  s ← legacy_score (match_score result);
  summary ← _generate_summary result;
  Py.Ok (set_enhanced_result
           (set_score_reasons job s (Json.Str summary)) result).

(** The job the [except] branch of [match_job] leaves. *)
Definition fallback (job : Job) (e : string) : Job :=
  set_enhanced_result
    (set_score_reasons job 0 (Json.Str ("Enhanced matching error: " +:+ e)))
    empty_result.

Definition match_job (rt : Py.Runtime) (reply : Py.Reply) (job : Job)
  : Py.res Job :=
  Py.try_except (match_try rt reply job) (λ e, Py.Ok (fallback job e)).

End EnhancedJobMatcher.

(** The node [match_jobs(state)] on [state["jobs"]]: [llm job] is what
    the model call made for [job] gives.  An exception that left
    [match_job] would end the loop and the node. *)
Fixpoint match_jobs (rt : Py.Runtime) (use_enhanced : bool) (llm : Job → Py.Reply)
  (jobs : list Job) : Py.res (list Job) :=
  match jobs with
  | [] => Py.Ok []
  | job :: rest =>
      matched_job ← (if use_enhanced
                     then EnhancedJobMatcher.match_job rt (llm job) job
                     else JobMatcher.match_job rt (llm job) job);
      matched_jobs ← match_jobs rt use_enhanced llm rest;
      Py.Ok (matched_job :: matched_jobs)
  end.

(* ===================================================================== *)
(** ** jd_extractor.py: the node of stage A *)
(* ===================================================================== *)

(** [job["requirements"] = r] *)
Definition set_requirements (job : Job) (r : list Requirement) : Job :=
  {| title := title job; company := company job; location := location job;
     link := link job; desc := desc job; score := score job;
     reasons := reasons job; requirements := Some r;
     enhanced_result := enhanced_result job |}.

(** One iteration of the loop of the node: a job that has the key
    [requirements] with a non-empty list is passed over, any other job
    gets what [extract_requirements] returns for it. *)
Definition extract_step (rt : Py.Runtime) (llm : Job → Py.Reply) (job : Job)
  : Py.res Job :=
  match requirements job with
  | Some (_ :: _) => Py.Ok job
  | _ =>
      requirements ← JDExtractor.extract_requirements rt (llm job) job;
      Py.Ok (set_requirements job requirements)
  end.

Fixpoint extract_loop (rt : Py.Runtime) (llm : Job → Py.Reply) (jobs : list Job)
  : Py.res (list Job) :=
  match jobs with
  | [] => Py.Ok []
  | job :: rest =>
      job' ← extract_step rt llm job;
      rest' ← extract_loop rt llm rest;
      Py.Ok (job' :: rest')
  end.

(** The node [extract_requirements(state)]; [use_enhanced] is
    [config.match.use_enhanced] and [llm job] what the model call made
    for [job] gives. *)
Definition extract_requirements (rt : Py.Runtime) (use_enhanced : bool)
  (llm : Job → Py.Reply) (state : JobFilter.AgentState)
  : Py.res JobFilter.AgentState :=
  if negb use_enhanced then Py.Ok state
  else
    jobs ← extract_loop rt llm (JobFilter.st_jobs state);
    Py.Ok {| JobFilter.st_jobs := jobs;
             JobFilter.st_duplicate_jobs := JobFilter.st_duplicate_jobs state;
             JobFilter.st_filtered_jobs := JobFilter.st_filtered_jobs state |}.

(* ===================================================================== *)
(** ** utils.py: paragraph numbers for the CV *)
(* ===================================================================== *)

Module CVLoader.

(** The separator pattern of [_add_paragraph_numbers] is a newline, any
    run of blanks, and a newline.  After a newline, the run of blanks is
    taken as long as possible and then given back up to its last newline:
    [blank_line_end s] is the text after the last newline of the leading
    run of blanks of [s], when that run has a newline. *)
Fixpoint blank_line_end (s : string) : option string :=
  match s with
  | EmptyString => None
  | String c t =>
      if Str.is_space c then
        match blank_line_end t with
        | Some r => Some r
        | None => if Ascii.eqb c Str.newline then Some t else None
        end
      else None
  end.

(** [re.split] with that pattern: the pieces between the matches, found
    from left to right.  [skip] counts the characters of the last match
    that are still to be passed over. *)
Fixpoint split_blank_lines (skip : nat) (s : string) : list string :=
  match s with
  | EmptyString => [EmptyString]
  | String c t =>
      match skip with
      | S k => split_blank_lines k t
      | O =>
          match (if Ascii.eqb c Str.newline then blank_line_end t else None) with
          | Some r =>
              EmptyString
              :: split_blank_lines (String.length t - String.length r) t
          | None =>
              match split_blank_lines 0 t with
              | w :: ws => String c w :: ws
              | [] => [String c EmptyString]
              end
          end
      end
  end.

(** One iteration of the loop over the paragraphs: the list [numbered]
    and the counter [para_num] are the loop's state. *)
Definition number_step (acc : list string * Z) (para : string)
  : list string * Z :=
  let '(numbered, para_num) := acc in
  let para := Str.strip para in
  if String.eqb para "" then acc
  else (numbered ++ ["[Paragraph " +:+ Py.str_of_Z para_num +:+ "] " +:+ para],
        para_num + 1).

Definition _add_paragraph_numbers (content : string) : string :=
  let paragraphs := split_blank_lines 0 content in
  let '(numbered, _) := fold_left number_step paragraphs ([], 1) in
  Str.join (Fence.nl +:+ Fence.nl) numbered.

End CVLoader.

(* ===================================================================== *)
(** ** config.py: configuration from the environment *)
(* ===================================================================== *)

Module Config.

(** [os.environ], after [load_dotenv()] has run. *)
Definition Env := gmap string string.

(** [os.getenv(key, dflt)] *)
Definition getenv (env : Env) (key dflt : string) : string :=
  default dflt (env !! key).

Module EmailConfig.

Record t := mk {
  host : string;
  port : Z;
  user : string;
  password : string;
  search_days : Z;
  search_from : string;
  unread_only : bool;
  folder : string
}.

Definition from_env (rt : Py.Runtime) (env : Env) : Py.res t :=
  port ← Py.int rt (Json.Str (getenv env "EMAIL_PORT" "993"));
  search_days ← Py.int rt (Json.Str (getenv env "EMAIL_SEARCH_DAYS" "7"));
  Py.Ok {| host := getenv env "EMAIL_HOST" "imap.gmail.com";
           port := port;
           user := getenv env "EMAIL_USER" "";
           password := getenv env "EMAIL_PASSWORD" "";
           search_days := search_days;
           search_from := getenv env "EMAIL_SEARCH_FROM" "linkedin.com";
           unread_only :=
             String.eqb (Str.lower (getenv env "EMAIL_UNREAD_ONLY" "false")) "true";
           folder := getenv env "EMAIL_FOLDER" "INBOX" |}.

Definition validate (self : t) : Py.res unit :=
  if String.eqb (user self) "" then Py.Raise "EMAIL_USER is required"
  else if String.eqb (password self) "" then Py.Raise "EMAIL_PASSWORD is required"
  else Py.Ok tt.

End EmailConfig.

Module LLMConfig.

Record t := mk {
  api_key : string;
  model : string;
  base_url : option string
}.

Definition from_env (env : Env) : t :=
  {| api_key := getenv env "OPENAI_API_KEY" "";
     model := getenv env "LLM_MODEL" "gpt-4o-mini";
     base_url := env !! "LLM_BASE_URL" |}.

End LLMConfig.

Module MatchConfig.

Record t := mk {
  extract_model : string;
  match_model : string;
  reasoning_effort : string;
  use_enhanced : bool
}.

Definition from_env (env : Env) : t :=
  {| extract_model := getenv env "JD_EXTRACT_MODEL" "gpt-4o-mini";
     match_model := getenv env "MATCH_MODEL" "o3-mini";
     reasoning_effort := getenv env "REASONING_EFFORT" "low";
     use_enhanced :=
       String.eqb (Str.lower (getenv env "USE_ENHANCED_MATCHING" "true")) "true" |}.

Definition validate (self : t) : Py.res unit :=
  if negb (String.eqb (reasoning_effort self) "low"
           || String.eqb (reasoning_effort self) "medium"
           || String.eqb (reasoning_effort self) "high")
  then Py.Raise ("Invalid REASONING_EFFORT: " +:+ reasoning_effort self
                 +:+ ". Must be 'low', 'medium', or 'high'")
  else Py.Ok tt.

End MatchConfig.

Module TwilioConfig.

Record t := mk {
  account_sid : string;
  auth_token : string;
  whatsapp_from : string;
  whatsapp_to : string
}.

Definition from_env (env : Env) : t :=
  {| account_sid := getenv env "TWILIO_ACCOUNT_SID" "";
     auth_token := getenv env "TWILIO_AUTH_TOKEN" "";
     whatsapp_from := getenv env "TWILIO_WHATSAPP_FROM" "";
     whatsapp_to := getenv env "WHATSAPP_TO" "" |}.

End TwilioConfig.

Module NotificationConfig.

Record t := mk {
  method : string;
  recipient_email : string;
  sender_name : string
}.

Definition from_env (env : Env) : t :=
  {| method := Str.lower (getenv env "NOTIFICATION_METHOD" "gmail");
     recipient_email := getenv env "NOTIFICATION_EMAIL" "";
     sender_name := getenv env "NOTIFICATION_SENDER_NAME" "Job Agent" |}.

Definition validate (self : t) : Py.res unit :=
  if negb (String.eqb (method self) "gmail" || String.eqb (method self) "whatsapp")
  then Py.Raise ("Invalid NOTIFICATION_METHOD: " +:+ method self
                 +:+ ". Must be 'gmail' or 'whatsapp'")
  else if String.eqb (method self) "gmail" && String.eqb (recipient_email self) ""
  then Py.Raise "NOTIFICATION_EMAIL is required when using Gmail notifications"
  else if String.eqb (method self) "whatsapp" && String.eqb (recipient_email self) ""
  then Py.Raise "WHATSAPP_TO is required when using WhatsApp notifications"
  else Py.Ok tt.

End NotificationConfig.

Module AppConfig.

Record t := mk {
  email : EmailConfig.t;
  llm : LLMConfig.t;
  twilio : TwilioConfig.t;
  notification : NotificationConfig.t;
  match_ : MatchConfig.t;
  match_threshold : Z;
  cv_path : string;
  history_path : string
}.

(** [AppConfig.from_env()]; [found_cv] is what [_find_cv_file()] returns,
    which is computed whether [CV_PATH] is set or not. *)
Definition from_env (rt : Py.Runtime) (env : Env) (found_cv : string) : Py.res t :=
  let notification := NotificationConfig.from_env env in
  NotificationConfig.validate notification;;
  let match_ := MatchConfig.from_env env in
  MatchConfig.validate match_;;
  email ← EmailConfig.from_env rt env;
  match_threshold ← Py.int rt (Json.Str (getenv env "MATCH_THRESHOLD" "50"));
  Py.Ok {| email := email;
           llm := LLMConfig.from_env env;
           twilio := TwilioConfig.from_env env;
           notification := notification;
           match_ := match_;
           match_threshold := match_threshold;
           cv_path := getenv env "CV_PATH" found_cv;
           history_path := getenv env "HISTORY_PATH" "data/history.json" |}.

End AppConfig.

End Config.

(* ===================================================================== *)
(** ** graph.py: the workflow *)
(* ===================================================================== *)

(** The nodes between [read_emails] and [notify_jobs], run in the order
    of the edges of [build_graph] on the state [main] starts with:
    [parse_jobs], [deduplicate_jobs], [extract_requirements],
    [match_jobs], [filter_jobs].  [raw_emails] are the emails as
    BeautifulSoup parses them, [extract_llm] and [match_llm] the model
    calls of stage A and stage B.  Building the extractor and the
    matcher (which loads the CV and creates the clients) is taken to
    succeed, as is writing the history file. *)
Definition workflow (rt : Py.Runtime) (match_threshold : Z) (use_enhanced : bool)
  (extract_llm match_llm : Job → Py.Reply) (raw_emails : list JobParser.Soup)
  (d : JobFilter.Disk) : Py.res (JobFilter.AgentState * JobFilter.Disk) :=
  let state := {| JobFilter.st_jobs := JobParser.parse_jobs raw_emails;
                  JobFilter.st_duplicate_jobs := [];
                  JobFilter.st_filtered_jobs := [] |} in
  let '(state, _, d) := JobFilter.deduplicate_jobs_node match_threshold state d in
  state ← extract_requirements rt use_enhanced extract_llm state;
  jobs ← match_jobs rt use_enhanced match_llm (JobFilter.st_jobs state);
  let state := {| JobFilter.st_jobs := jobs;
                  JobFilter.st_duplicate_jobs := JobFilter.st_duplicate_jobs state;
                  JobFilter.st_filtered_jobs := JobFilter.st_filtered_jobs state |} in
  Py.Ok (JobFilter.filter_jobs_node match_threshold state d).

(* ===================================================================== *)
(** ** A decoder for concrete responses *)
(* ===================================================================== *)

(** The theorems below hold for every [Py.Runtime].  To run the model on
    a concrete response one instance is needed: [Fragment.runtime] decodes
    JSON texts over code points below 256, and decimal literals for
    [int(str)] and [float(str)].  It is a fragment of the three library
    functions, meant for short responses:
    - what it accepts, Python accepts with the same value, as long as
      the nesting of arrays and objects stays below the depth at which
      the interpreter raises [RecursionError] (the decoder here has no
      such limit; it depends on the interpreter's settings and on the
      call stack);
    - an int of more than 4300 digits is rejected, as Python's limit on
      the conversion of integer strings does by default;
    - it rejects some texts that Python accepts: in JSON a [\u] escape
      of a code point from 256 on; in [int(str)] and [float(str)] digit
      separators; in [float(str)] also an exponent and the words [inf],
      [infinity] and [nan]. *)
Module Fragment.

(** JSON white space: space, TAB, LF, CR. *)
Definition is_ws (c : ascii) : bool :=
  let n := N_of_ascii c in ((n =? 32) || (n =? 9) || (n =? 10) || (n =? 13))%N.

Fixpoint skip_ws (s : string) : string :=
  match s with
  | String c t => if is_ws c then skip_ws t else s
  | EmptyString => EmptyString
  end.

Definition digit_value (c : ascii) : Z := Z.of_N (N_of_ascii c) - 48.

(** A run of digits read in base ten after [acc]: its value, how many
    digits it has, and the rest. *)
Fixpoint digits (acc : Z) (n : nat) (s : string) : Z * nat * string :=
  match s with
  | String c t =>
      if JobParser.is_digit c then digits (10 * acc + digit_value c) (S n) t
      else (acc, n, s)
  | EmptyString => (acc, n, s)
  end.

(** Python's default limit on the digits of an integer string
    ([sys.int_info.default_max_str_digits]). *)
Definition max_str_digits : nat := 4300.

(** The binary64 nearest to [m * 10 ^ e], ties to even. *)
Definition decimal (neg : bool) (m : Z) (e : Z) : spec_float :=
  match m with
  | Z.pos p =>
      if 0 <=? e
      then binary_normalize Py.prec Py.emax (if neg then - (m * 10 ^ e) else m * 10 ^ e) 0 false
      else SFdiv Py.prec Py.emax (S754_finite neg p 0)
             (S754_finite false (Z.to_pos (10 ^ (- e))) 0)
  | _ => S754_zero neg
  end.

(** An optional exponent part [e], [e+] or [e-] with digits. *)
Definition exponent (s : string) : option (Z * string) :=
  match s with
  | String c t =>
      if Ascii.eqb c "e" || Ascii.eqb c "E" then
        let '(neg, t') :=
          match t with
          | String "-" u => (true, u)
          | String "+" u => (false, u)
          | _ => (false, t)
          end in
        let '(v, n, rest) := digits 0 0 t' in
        match n with
        | O => None
        | S _ => Some (if neg then - v else v, rest)
        end
      else Some (0, s)
  | EmptyString => Some (0, s)
  end.

Definition has_exponent (s : string) : bool :=
  String.prefix "e" s || String.prefix "E" s.

(** A JSON number: an int when it has neither fraction nor exponent, and
    then of at most [max_str_digits] digits.  A leading zero stands
    alone. *)
Definition number_ (s : string) : option (Json.value * string) :=
  let '(neg, s1) := match s with
                    | String "-" t => (true, t)
                    | _ => (false, s)
                    end in
  let '(ip, n, s2) := digits 0 0 s1 in
  if (n =? 0)%nat || (String.prefix "0" s1 && (1 <? n)%nat) then None
  else
    match s2 with
    | String "." t =>
        let '(m, nf, s3) := digits ip 0 t in
        if (nf =? 0)%nat then None
        else '(e, s4) ← exponent s3;
             Some (Json.Float (decimal neg m (e - Z.of_nat nf)), s4)
    | _ =>
        '(e, s4) ← exponent s2;
        if has_exponent s2 then Some (Json.Float (decimal neg ip e), s4)
        else if (max_str_digits <? n)%nat then None
        else Some (Json.Int (if neg then - ip else ip), s2)
    end.

Definition hex_value (c : ascii) : option Z :=
  let n := Z.of_N (N_of_ascii c) in
  if (48 <=? n) && (n <=? 57) then Some (n - 48)
  else if (97 <=? n) && (n <=? 102) then Some (n - 87)
  else if (65 <=? n) && (n <=? 70) then Some (n - 55)
  else None.

(** The characters of a JSON string after its opening quote, up to the
    closing one.  A control character is refused, as is an escape of a
    code point from 256 on. *)
Fixpoint string_ (s : string) : option (string * string) :=
  match s with
  | EmptyString => None
  | String c t =>
      if Ascii.eqb c "034" then Some (EmptyString, t)
      else if (N_of_ascii c <? 32)%N then None
      else if Ascii.eqb c "\" then
        match t with
        | String e u =>
            let simple (x : ascii) :=
              '(r, rest) ← string_ u; Some (String x r, rest) in
            if Ascii.eqb e "034" then simple "034"%char
            else if Ascii.eqb e "\" then simple "\"%char
            else if Ascii.eqb e "/" then simple "/"%char
            else if Ascii.eqb e "b" then simple "008"%char
            else if Ascii.eqb e "f" then simple "012"%char
            else if Ascii.eqb e "n" then simple "010"%char
            else if Ascii.eqb e "r" then simple "013"%char
            else if Ascii.eqb e "t" then simple "009"%char
            else if Ascii.eqb e "u" then
              match u with
              | String h1 (String h2 (String h3 (String h4 v))) =>
                  a ← hex_value h1; b ← hex_value h2;
                  c' ← hex_value h3; d ← hex_value h4;
                  if (a =? 0) && (b =? 0) then
                    '(r, rest) ← string_ v;
                    Some (String (ascii_of_N (Z.to_N (16 * c' + d))) r, rest)
                  else None
              | _ => None
              end
            else None
        | EmptyString => None
        end
      else '(r, rest) ← string_ t; Some (String c r, rest)
  end.

(** [d[k] = v] on the items of a dict: a key that is present keeps its
    place and takes the new value. *)
Fixpoint dict_set (k : string) (v : Json.value) (items : list (string * Json.value))
  : list (string * Json.value) :=
  match items with
  | [] => [(k, v)]
  | (k', v') :: rest =>
      if String.eqb k k' then (k, v) :: rest else (k', v') :: dict_set k v rest
  end.

(** One JSON value at the start of [s] (after white space), and the rest.
    [elements] reads what follows the opening bracket of an array when it
    is not empty, [members] what follows the opening brace of an object. *)
Fixpoint value_ (fuel : nat) (s : string) : option (Json.value * string) :=
  match fuel with
  | O => None
  | S fuel =>
      let s := skip_ws s in
      match s with
      | String "[" t =>
          match skip_ws t with
          | String "]" u => Some (Json.List [], u)
          | _ => '(l, u) ← elements fuel t; Some (Json.List l, u)
          end
      | String "{" t =>
          match skip_ws t with
          | String "}" u => Some (Json.Dict [], u)
          | _ => '(items, u) ← members fuel [] t; Some (Json.Dict items, u)
          end
      | String c t =>
          if Ascii.eqb c "034" then '(x, u) ← string_ t; Some (Json.Str x, u)
          else if String.prefix "null" s
          then u ← JobParser.strip_prefix "null" s; Some (Json.Null, u)
          else if String.prefix "true" s
          then u ← JobParser.strip_prefix "true" s; Some (Json.Bool true, u)
          else if String.prefix "false" s
          then u ← JobParser.strip_prefix "false" s; Some (Json.Bool false, u)
          else if String.prefix "NaN" s
          then u ← JobParser.strip_prefix "NaN" s; Some (Json.Float S754_nan, u)
          else if String.prefix "Infinity" s
          then u ← JobParser.strip_prefix "Infinity" s;
               Some (Json.Float (S754_infinity false), u)
          else if String.prefix "-Infinity" s
          then u ← JobParser.strip_prefix "-Infinity" s;
               Some (Json.Float (S754_infinity true), u)
          else number_ s
      | EmptyString => None
      end
  end
with elements (fuel : nat) (s : string) : option (list Json.value * string) :=
  match fuel with
  | O => None
  | S fuel =>
      '(v, t) ← value_ fuel s;
      match skip_ws t with
      | String "," u => '(l, w) ← elements fuel u; Some (v :: l, w)
      | String "]" u => Some ([v], u)
      | _ => None
      end
  end
with members (fuel : nat) (acc : list (string * Json.value)) (s : string)
  : option (list (string * Json.value) * string) :=
  match fuel with
  | O => None
  | S fuel =>
      match skip_ws s with
      | String c t =>
          if Ascii.eqb c "034" then
            '(k, u) ← string_ t;
            match skip_ws u with
            | String ":" w =>
                '(v, x) ← value_ fuel w;
                let acc := dict_set k v acc in
                match skip_ws x with
                | String "," y => members fuel acc y
                | String "}" y => Some (acc, y)
                | _ => None
                end
            | _ => None
            end
          else None
      | EmptyString => None
      end
  end.

(** [json.loads(s)]: one value, white space around it, nothing else. *)
Definition json_loads (s : string) : option Json.value :=
  '(v, rest) ← value_ (S (String.length s)) s;
  match skip_ws rest with
  | EmptyString => Some v
  | String _ _ => None
  end.

(** [int(s)] for an optional sign and digits, at most [max_str_digits]
    of them, between blanks. *)
Definition int_of_str (s : string) : option Z :=
  let s := Str.strip s in
  let '(neg, s1) := match s with
                    | String "-" t => (true, t)
                    | String "+" t => (false, t)
                    | _ => (false, s)
                    end in
  match digits 0 0 s1 with
  | (v, S n, EmptyString) =>
      if (max_str_digits <? S n)%nat then None
      else Some (if neg then - v else v)
  | _ => None
  end.

(** [float(s)] for an optional sign, digits, and an optional point with
    digits, between blanks.  The digits before the point or those after
    it may be missing ([5.] and [.5]), not both. *)
Definition float_of_str (s : string) : option spec_float :=
  let s := Str.strip s in
  let '(neg, s1) := match s with
                    | String "-" t => (true, t)
                    | String "+" t => (false, t)
                    | _ => (false, s)
                    end in
  match digits 0 0 s1 with
  | (ip, S _, EmptyString) => Some (decimal neg ip 0)
  | (ip, ni, String "." t) =>
      match digits ip 0 t with
      | (m, nf, EmptyString) =>
          if (ni + nf =? 0)%nat then None
          else Some (decimal neg m (- Z.of_nat nf))
      | _ => None
      end
  | _ => None
  end.

Definition runtime : Py.Runtime :=
  {| Py.json_loads := json_loads;
     Py.int_of_str := int_of_str;
     Py.float_of_str := float_of_str |}.

End Fragment.


(* ===================================================================== *)
(** ** Vocabulary of the statements *)
(* ===================================================================== *)

(** [job'] is the posting [job]: the five fields the parser sets are the
    same (the later nodes write [requirements], [score], [reasons] and
    [enhanced_result] only). *)
Definition same_posting (job job' : Job) : Prop :=
  title job' = title job ∧ company job' = company job
  ∧ location job' = location job ∧ link job' = link job
  ∧ desc job' = desc job.

(** A line of a text: it holds no newline and is not blank. *)
Definition is_line (l : string) : Prop :=
  Str.contains Fence.nl l = false ∧ Str.strip l ≠ "".

(** The floats 0.0 and 1.0, the bounds of [match_score]. *)
Definition float_0 : spec_float := S754_zero false.
Definition float_1 : spec_float := binary_normalize Py.prec Py.emax 1 0 false.

(** What a record of the rounding of [SpecFloat] holds after [k] bits
    of the mantissa [M] were shifted out: the quotient, and no round or
    sticky bit when the bits shifted out are all zero. *)
Definition shifted (M k : Z) (rec : shr_record) : Prop :=
  shr_m rec = M / 2 ^ k
  ∧ (M mod 2 ^ k = 0 → shr_r rec = false ∧ shr_s rec = false).

(** [0 <= x <= 1] for a number of Python: an int that is 0 or 1, or a
    float of binary64 that the comparison of IEEE 754 puts between 0.0
    and 1.0 (so NaN is out, and -0.0 is in). *)
Definition in_unit_interval (x : number) : Prop :=
  match x with
  | NInt z => 0 ≤ z ≤ 1
  | NFloat f =>
      valid_binary Py.prec Py.emax f = true
      ∧ SFleb float_0 f = true ∧ SFleb f float_1 = true
  end.

(* ===================================================================== *)
(** ** Concrete inputs *)
(* ===================================================================== *)

Module Examples.

Definition job_dev : Job :=
  JobParser.new_job "Python Developer" "Acme" "Helsinki"
    (Some "https://www.linkedin.com/comm/jobs/view/1").

Definition link_1 : Link := Some "https://www.linkedin.com/comm/jobs/view/1".
Definition link_2 : Link := Some "https://www.linkedin.com/comm/jobs/view/2".

(** Three scored jobs: the first and the third share a link. *)
Definition job_a : Job :=
  set_score_reasons (JobParser.new_job "Python Developer" "Acme" "Helsinki" link_1)
    50 (Json.Str "fits").
Definition job_b : Job :=
  set_score_reasons (JobParser.new_job "Data Engineer" "Beta" "Espoo" link_2)
    49 (Json.Str "partly").
Definition job_c : Job :=
  set_score_reasons (JobParser.new_job "Backend Developer" "Acme" "Oulu" link_1)
    80 (Json.Str "fits well").

(** A [JobFilter] with threshold 50 and an empty history, and a disk
    without history file. *)
Definition filter_50 : JobFilter.t :=
  {| JobFilter.threshold := 50; JobFilter.history := ∅ |}.
Definition no_file : JobFilter.Disk :=
  {| JobFilter.file := JobFilter.Missing; JobFilter.writes := 0 |}.

(** The response [{"score": 250, "reasons": "x"}]. *)
Definition response_score_250 : string :=
  "{" +:+ Str.quote +:+ "score" +:+ Str.quote +:+ ": 250, "
  +:+ Str.quote +:+ "reasons" +:+ Str.quote +:+ ": "
  +:+ Str.quote +:+ "x" +:+ Str.quote +:+ "}".

(** A [JobFilter] whose history holds [link_1]. *)
Definition filter_known : JobFilter.t :=
  {| JobFilter.threshold := 50; JobFilter.history := {[link_1]} |}.

(** The response [{"match_score": 1.5}]. *)
Definition response_score_1_5 : string :=
  "{" +:+ Str.quote +:+ "match_score" +:+ Str.quote +:+ ": 1.5}".

(** A document in which the same job link stands twice: first on an
    anchor whose text is one space, then on an anchor with the text
    [Dev], followed by the company line. *)
Definition anchor (url text : string) : string :=
  "<a href=" +:+ Str.quote +:+ url +:+ Str.quote +:+ ">" +:+ text +:+ "</a>".

Definition html_blank_then_dev : string :=
  anchor "https://www.linkedin.com/comm/jobs/view/1?trk=a" " "
  +:+ anchor "https://www.linkedin.com/comm/jobs/view/1?trk=b" "Dev"
  +:+ "<p>Acme " +:+ String JobParser.middot " Oulu</p>".

(** A document with two jobs of the same title at different companies. *)
Definition html_same_title : string :=
  anchor "https://www.linkedin.com/comm/jobs/view/1?trk=a" "Dev"
  +:+ "<p>Acme " +:+ String JobParser.middot " Oulu</p>"
  +:+ anchor "https://www.linkedin.com/comm/jobs/view/2?trk=b" "Dev"
  +:+ "<p>Beta " +:+ String JobParser.middot " Espoo</p>".

(** A document in which the link of job 9 stands twice, both times on an
    anchor with the text [Dev]: the first occurrence is followed by the
    company line [Beta . Espoo], the second by [Gamma . Turku]. *)
Definition html_dev_9_9 : string :=
  anchor "https://www.linkedin.com/comm/jobs/view/9?trk=b" "Dev"
  +:+ "<p>Beta " +:+ String JobParser.middot " Espoo</p>"
  +:+ anchor "https://www.linkedin.com/comm/jobs/view/9?trk=c" "Dev"
  +:+ "<p>Gamma " +:+ String JobParser.middot " Turku</p>".

(** The same document after job 7, which has the title [Dev] as well and
    the company line [Acme . Oulu]. *)
Definition html_dev_7_9_9 : string :=
  anchor "https://www.linkedin.com/comm/jobs/view/7?trk=a" "Dev"
  +:+ "<p>Acme " +:+ String JobParser.middot " Oulu</p>"
  +:+ html_dev_9_9.

(** The response [{"match_score": 0.9, "gaps": 3}]. *)
Definition response_gaps_3 : string :=
  "{" +:+ Str.quote +:+ "match_score" +:+ Str.quote +:+ ": 0.9, "
  +:+ Str.quote +:+ "gaps" +:+ Str.quote +:+ ": 3}".

(** The response [{"match_score": 0.29, "strong_matches": ["x"]}]. *)
Definition response_score_0_29 : string :=
  "{" +:+ Str.quote +:+ "match_score" +:+ Str.quote +:+ ": 0.29, "
  +:+ Str.quote +:+ "strong_matches" +:+ Str.quote +:+ ": ["
  +:+ Str.quote +:+ "x" +:+ Str.quote +:+ "]}".

(** The response [["score", "reasons"]]: JSON, but no object. *)
Definition response_array : string :=
  "[" +:+ Str.quote +:+ "score" +:+ Str.quote +:+ ", "
  +:+ Str.quote +:+ "reasons" +:+ Str.quote +:+ "]".

(** The response [{"match_score": NaN}], which [json.loads] accepts. *)
Definition response_score_nan : string :=
  "{" +:+ Str.quote +:+ "match_score" +:+ Str.quote +:+ ": NaN}".

End Examples.

(* ===================================================================== *)
(** ** Proof automation *)
(* ===================================================================== *)

(** Runs the Python-level steps whose operands are known. *)
Ltac py_run :=
  cbn [mbind res_bind Py.bind Py.strip Py.contains Py.getitem Py.get
       Py.try_except Py.len Py.call default].

(* ===================================================================== *)
(** * Properties *)
(* ===================================================================== *)

(** ** Strings *)

Section StrFacts.

Lemma prefix_app (p s : string) :
  String.prefix p s = true ↔ ∃ t, s = p +:+ t.
Proof.
  revert s. induction p as [|a p IH]; intros s.
  - destruct s; simpl; (split; [intros _; eauto | done]).
  - destruct s as [|b s]; simpl.
    + split; [done | intros [t Ht]; discriminate].
    + destruct (ascii_dec a b) as [->|Hne].
      * rewrite IH. split; intros [t Ht]; exists t; [by rewrite Ht | by injection Ht].
      * split; [done | intros [t Ht]; injection Ht; congruence].
Qed.

Lemma app_assoc_str (a b c : string) : (a +:+ b) +:+ c = a +:+ b +:+ c.
Proof. induction a as [|x a IH]; simpl; [done | by f_equal]. Qed.

Lemma app_empty_r (a : string) : a +:+ "" = a.
Proof. induction a as [|x a IH]; simpl; [done | by f_equal]. Qed.

(** [needle in hay] holds exactly when [hay] is some text, [needle], and
    some text. *)
Lemma contains_spec (needle hay : string) :
  Str.contains needle hay = true ↔ ∃ pre post, hay = pre +:+ needle +:+ post.
Proof.
  induction hay as [|c hay IH].
  - cbn [Str.contains]. destruct (String.prefix needle "") eqn:Hp.
    + apply prefix_app in Hp as [t Ht]. split; [|done].
      intros _. exists "", t. exact Ht.
    + split; [done|]. intros ([|x pre] & post & H); simpl in H; [|discriminate].
      assert (String.prefix needle "" = true) by (apply prefix_app; eauto).
      congruence.
  - cbn [Str.contains]. destruct (String.prefix needle (String c hay)) eqn:Hp.
    + apply prefix_app in Hp as [t Ht]. split; [|done].
      intros _. exists "", t. exact Ht.
    + rewrite IH. split.
      * intros (pre & post & ->). by exists (String c pre), post.
      * intros ([|x pre] & post & H); simpl in H.
        -- assert (String.prefix needle (String c hay) = true)
             by (apply prefix_app; eauto). congruence.
        -- injection H as _ ->. eauto.
Qed.

Lemma startswith_app (p t : string) : Str.startswith (p +:+ t) p = true.
Proof. unfold Str.startswith. apply prefix_app. eauto. Qed.

Lemma split_nonempty (c : ascii) (s : string) :
  ∃ w ws, Str.split c s = w :: ws.
Proof.
  destruct s as [|a s]; simpl; [eauto|].
  destruct (Ascii.eqb a c); [eauto|]. destruct (Str.split c s); eauto.
Qed.

(** Splitting at a separator splits the text on either side of it. *)
Lemma split_app_sep (c : ascii) (x y : string) :
  Str.split c (x +:+ String c y) = Str.split c x ++ Str.split c y.
Proof.
  induction x as [|a x IH]; simpl.
  - by rewrite Ascii.eqb_refl.
  - destruct (Ascii.eqb a c); [by rewrite IH|].
    rewrite IH. by destruct (split_nonempty c x) as (w & ws & ->).
Qed.

Lemma split_no_sep (c : ascii) (x : string) :
  Str.contains (String c "") x = false → Str.split c x = [x].
Proof.
  induction x as [|a x IH]; [done|].
  cbn [Str.contains String.prefix]. simpl.
  destruct (ascii_dec c a) as [->|Hne].
  - by destruct x.
  - intros H. rewrite (proj2 (Ascii.eqb_neq a c)) by congruence.
    by rewrite IH.
Qed.

Lemma concat_cons (sep w : string) (ws : list string) (a : ascii) :
  String.concat sep (String a w :: ws) = String a (String.concat sep (w :: ws)).
Proof. by destruct ws. Qed.

(** Joining the pieces of a split with the separator gives the text
    back. *)
Lemma join_split (c : ascii) (s : string) :
  Str.join (String c "") (Str.split c s) = s.
Proof.
  unfold Str.join. induction s as [|a s IH]; [done|]. simpl.
  destruct (split_nonempty c s) as (w & ws & Hs). rewrite Hs in *.
  destruct (Ascii.eqb_spec a c) as [->|Hne].
  - change (String.concat (String c "") ("" :: w :: ws))
      with ("" +:+ String c "" +:+ String.concat (String c "") (w :: ws)).
    by rewrite IH.
  - by rewrite concat_cons, IH.
Qed.

End StrFacts.

(** ** Fenced code blocks *)

Section FenceFacts.

Lemma end_idx_last (first last : string) (body : list string) :
  Str.strip last = Str.fence →
  Fence.end_idx (first :: body ++ [last]) = Z.of_nat (S (length body)).
Proof.
  intros Hlast. unfold Fence.end_idx.
  replace (length (first :: body ++ [last]) - 1)%nat with (S (length body))
    by (simpl; rewrite length_app; simpl; lia).
  cbn [Fence.end_idx_from].
  replace ((first :: body ++ [last]) !! S (length body)) with (Some last).
  - by rewrite Hlast.
  - simpl. rewrite lookup_app_r by lia. by rewrite Nat.sub_diag.
Qed.

Lemma slice_inner {A} (first last : A) (body : list A) :
  Str.slice (first :: body ++ [last]) 1 (Z.of_nat (S (length body))) = body.
Proof.
  unfold Str.slice, Str.clamp_index.
  replace (length (first :: body ++ [last])) with (S (S (length body)))
    by (simpl; rewrite length_app; simpl; lia).
  destruct (Z.ltb_spec 1 0); [lia|].
  destruct (Z.ltb_spec (Z.of_nat (S (length body))) 0); [lia|].
  replace (Z.to_nat (Z.of_nat (S (S (length body))) `min` (0 `max` 1))) with 1%nat by lia.
  replace (Z.to_nat (Z.of_nat (S (S (length body)))
             `min` (0 `max` Z.of_nat (S (length body))))) with (S (length body)) by lia.
  replace (S (length body) - 1)%nat with (length body) by lia.
  change (drop 1 (first :: body ++ [last])) with (body ++ [last]).
  by rewrite take_app_length.
Qed.

(** A response wrapped in a fence: an opening line that starts with the
    fence, the body, and a last line that is a fence when stripped.  What
    is left for [json.loads] is the body. *)
Lemma remove_code_block_fenced (lang body last : string) :
  Str.contains Fence.nl lang = false →
  Str.contains Fence.nl last = false →
  Str.strip last = Str.fence →
  Fence.remove_code_block
    (Str.fence +:+ lang +:+ Fence.nl +:+ body +:+ Fence.nl +:+ last) = body.
Proof.
  intros Hlang Hlast Hfence. unfold Fence.remove_code_block.
  rewrite startswith_app.
  assert (Hsplit : Str.split Str.newline
            (Str.fence +:+ lang +:+ Fence.nl +:+ body +:+ Fence.nl +:+ last)
          = (Str.fence +:+ lang) :: Str.split Str.newline body ++ [last]).
  { unfold Fence.nl. rewrite <- app_assoc_str.
    change ((Str.fence +:+ lang) +:+ String Str.newline "" +:+ body
              +:+ String Str.newline "" +:+ last)
      with ((Str.fence +:+ lang) +:+ String Str.newline (body +:+ String Str.newline last)).
    rewrite !split_app_sep. rewrite (split_no_sep _ (Str.fence +:+ lang)).
    - by rewrite (split_no_sep _ last).
    - unfold Str.fence. cbn. exact Hlang. }
  rewrite Hsplit, end_idx_last by done.
  rewrite slice_inner. apply join_split.
Qed.

End FenceFacts.

(** ** job_parser.py *)

Section ParserFacts.

Import JobParser.

(** The two loops of [parse_html] share their step; [seen_loop] is that
    loop from an empty list of jobs. *)
Lemma seen_loop_acc (l jobs : list Job) (seen : gset Link) :
  fold_left seen_step l (jobs, seen) =
  (jobs ++ (fold_left seen_step l ([], seen)).1,
   (fold_left seen_step l ([], seen)).2).
Proof.
  revert jobs seen. induction l as [|x l IH]; intros jobs seen.
  - simpl. by rewrite app_nil_r.
  - cbn [fold_left]. unfold seen_step at 2 4 6.
    destruct (decide (link x ∈ seen)); [apply IH|].
    rewrite IH, (IH ([] ++ [x])). simpl. by rewrite <- app_assoc.
Qed.

Lemma seen_loop_cons (x : Job) (l : list Job) (seen : gset Link) :
  fold_left seen_step (x :: l) ([], seen) =
  if decide (link x ∈ seen) then fold_left seen_step l ([], seen)
  else (x :: (fold_left seen_step l ([], {[link x]} ∪ seen)).1,
        (fold_left seen_step l ([], {[link x]} ∪ seen)).2).
Proof.
  cbn [fold_left]. unfold seen_step at 2.
  destruct (decide (link x ∈ seen)); [done|]. by rewrite seen_loop_acc.
Qed.

(** What the loop keeps: input jobs in input order, no link twice, and
    per link the first job that has it, unless the link was seen
    before. *)
Lemma seen_loop_spec (l : list Job) (seen : gset Link) :
  let out := (fold_left seen_step l ([], seen)).1 in
  out `sublist_of` l
  ∧ NoDup (link <$> out)
  ∧ (∀ j, j ∈ out → link j ∉ seen)
  ∧ (fold_left seen_step l ([], seen)).2 = seen ∪ list_to_set (link <$> out)
  ∧ ∀ k, filter (λ j, link j = k) out =
         if decide (k ∈ seen) then [] else take 1 (filter (λ j, link j = k) l).
Proof.
  revert seen. induction l as [|x l IH]; intros seen.
  - simpl. split; [constructor|]. split; [constructor|].
    split; [set_solver|]. split; [set_solver|].
    intros k. by case_decide.
  - cbn zeta. rewrite seen_loop_cons.
    destruct (decide (link x ∈ seen)) as [Hin|Hin].
    + destruct (IH seen) as (Hsub & Hnd & Hfr & Hseen & Hper).
      split; [by apply sublist_cons|]. do 3 (split; [done|]).
      intros k. rewrite Hper, filter_cons.
      destruct (decide (k ∈ seen)); [done|].
      rewrite decide_False; [done | congruence].
    + destruct (IH ({[link x]} ∪ seen)) as (Hsub & Hnd & Hfr & Hseen & Hper).
      cbn [fst snd]. split; [|split; [|split; [|split]]].
      * by apply sublist_skip.
      * rewrite fmap_cons. constructor; [|done].
        intros (j & Hl & Hj)%list_elem_of_fmap. specialize (Hfr j Hj). set_solver.
      * intros j [->|Hj]%elem_of_cons; [done|]. specialize (Hfr j Hj). set_solver.
      * rewrite Hseen. set_solver.
      * intros k. rewrite !filter_cons, Hper.
        destruct (decide (link x = k)) as [<-|Hne].
        -- rewrite decide_True by set_solver. by rewrite decide_False.
        -- destruct (decide (k ∈ seen)).
           ++ by rewrite decide_True by set_solver.
           ++ by rewrite decide_False by set_solver.
Qed.

(** A list without repeated links passes the loop unchanged. *)
Lemma seen_loop_nodup (l : list Job) (seen : gset Link) :
  NoDup (link <$> l) → (∀ j, j ∈ l → link j ∉ seen) →
  (fold_left seen_step l ([], seen)).1 = l.
Proof.
  revert seen. induction l as [|x l IH]; intros seen Hnd Hfr; [done|].
  rewrite seen_loop_cons. rewrite decide_False by (apply Hfr; by left).
  cbn [fst]. f_equal. rewrite fmap_cons in Hnd. apply NoDup_cons in Hnd as [Hx Hnd].
  apply IH; [done|]. intros j Hj.
  assert (link j ≠ link x).
  { intros E. apply Hx. rewrite <- E. apply list_elem_of_fmap. eauto. }
  assert (link j ∉ seen) by (apply Hfr; by right). set_solver.
Qed.

(** One step of [_parse_table_format] in terms of the candidate of the
    match. *)
Lemma table_step_candidate (html : string) (jobs : list Job)
  (seen : gset string) (m : string * string) :
  table_step html (jobs, seen) m =
  match table_candidate html m with
  | None => (jobs, seen)
  | Some y =>
      if bool_decide (_clean_linkedin_url m.1 ∈ seen) then (jobs, seen)
      else (jobs ++ [y], {[_clean_linkedin_url m.1]} ∪ seen)
  end.
Proof.
  destruct m as [url t]. unfold table_step, table_candidate. cbn [fst].
  destruct (String.eqb (Str.strip t) ""); cbn [orb]; [done|].
  destruct (_extract_company_location_from_html html (Str.strip t)
              (_clean_linkedin_url url)) as [co lo].
  by case_bool_decide.
Qed.

Lemma table_candidate_link (html : string) (m : string * string) (y : Job) :
  table_candidate html m = Some y → link y = Some (_clean_linkedin_url m.1).
Proof.
  destruct m as [url t]. unfold table_candidate.
  destruct (String.eqb (Str.strip t) ""); [done|].
  destruct (_extract_company_location_from_html html (Str.strip t)
              (_clean_linkedin_url url)) as [co lo].
  by intros [= <-].
Qed.

(** The loop of [_parse_table_format] is the same loop, run on the
    candidates of the matches. *)
Lemma table_loop_as_seen (html : string) (matches : list (string * string))
  (jobs : list Job) (seen : gset string) :
  (fold_left (table_step html) matches (jobs, seen)).1 =
  jobs ++ (fold_left seen_step (omap (table_candidate html) matches)
             ([], set_map Some seen)).1.
Proof.
  revert jobs seen. induction matches as [|m ms IH]; intros jobs seen.
  - simpl. by rewrite app_nil_r.
  - cbn [fold_left omap list_omap]. rewrite table_step_candidate.
    destruct (table_candidate html m) as [y|] eqn:Hc; [|apply IH].
    rewrite seen_loop_cons, (table_candidate_link _ _ _ Hc).
    case_bool_decide as Hin.
    + rewrite decide_True by set_solver. apply IH.
    + rewrite decide_False by set_solver. rewrite IH. cbn [fst].
      rewrite set_map_union_L, set_map_singleton_L. by rewrite <- app_assoc.
Qed.

Lemma card_loop_as_seen (cards : list Card) (acc : list Job * gset Link) :
  fold_left card_step cards acc =
  fold_left seen_step (omap _extract_job_from_card cards) acc.
Proof.
  revert acc. induction cards as [|c cards IH]; intros acc; [done|].
  cbn [fold_left omap list_omap]. unfold card_step at 2.
  destruct (_extract_job_from_card c); [apply IH | apply IH].
Qed.

End ParserFacts.

Section CleanUrlFacts.

Import JobParser.

Lemma strip_prefix_Some (p s r : string) :
  strip_prefix p s = Some r ↔ s = p +:+ r.
Proof.
  revert s. induction p as [|a p IH]; intros s; simpl.
  - split; [by intros [= ->] | by intros ->].
  - destruct s as [|b s]; [split; [done | discriminate]|].
    destruct (Ascii.eqb_spec a b) as [->|Hne].
    + rewrite IH. split; [by intros -> | by intros [= ->]].
    + split; [done | intros [= ? ?]; congruence].
Qed.

Lemma take_while_idem (f : ascii → bool) (s : string) :
  take_while f (take_while f s) = take_while f s.
Proof.
  induction s as [|c s IH]; simpl; [done|].
  destruct (f c) eqn:Hc; simpl; [|done]. by rewrite Hc, IH.
Qed.

Lemma take_while_app_nonempty (f : ascii → bool) (s t : string) :
  take_while f s ≠ "" → take_while f (s +:+ t) ≠ "".
Proof. destruct s as [|c s]; simpl; [done|]. by destruct (f c). Qed.

(** A match of the job view pattern is the address followed by digits,
    and matches itself. *)
Lemma match_job_view_fixed (s m : string) :
  match_job_view s = Some m → m ≠ "" ∧ match_job_view m = Some m.
Proof.
  unfold match_job_view.
  destruct (strip_prefix job_view s) as [rest|] eqn:Hp; [|done].
  destruct (take_while is_digit rest) as [|d ds] eqn:Hd; [done|].
  intros H. assert (m = job_view +:+ String d ds) as -> by congruence.
  split; [done|].
  rewrite (proj2 (strip_prefix_Some job_view _ (String d ds)) eq_refl).
  by rewrite <- Hd, take_while_idem, Hd.
Qed.

Lemma search_job_view_fixed (url m : string) :
  search_job_view url = Some m → m ≠ "" ∧ search_job_view m = Some m.
Proof.
  induction url as [|c url IH]; cbn [search_job_view].
  - destruct (match_job_view "") eqn:H; [|done].
    intros [= <-]. apply match_job_view_fixed in H as [Hne H]. split; [done|].
    destruct s; cbn [search_job_view]; by rewrite H.
  - destruct (match_job_view (String c url)) eqn:H; [|done].
    intros [= <-]. apply match_job_view_fixed in H as [Hne H]. split; [done|].
    destruct s; cbn [search_job_view]; by rewrite H.
Qed.

(** A text with a match still has one when more text follows. *)
Lemma match_job_view_app (s t : string) :
  match_job_view s ≠ None → match_job_view (s +:+ t) ≠ None.
Proof.
  unfold match_job_view.
  destruct (strip_prefix job_view s) as [rest|] eqn:Hp; [|done].
  apply strip_prefix_Some in Hp as ->.
  rewrite app_assoc_str.
  rewrite (proj2 (strip_prefix_Some job_view _ (rest +:+ t)) eq_refl).
  destruct (take_while is_digit rest) eqn:Hd; [done|]. intros _.
  assert (take_while is_digit (rest +:+ t) ≠ "")
    by (apply take_while_app_nonempty; congruence).
  by destruct (take_while is_digit (rest +:+ t)).
Qed.

Lemma search_job_view_app (s t : string) :
  search_job_view (s +:+ t) = None → search_job_view s = None.
Proof.
  induction s as [|c s IH]; cbn [search_job_view String.append].
  - intros _. by destruct (match_job_view "") eqn:H.
  - change (String c (s +:+ t)) with (String c s +:+ t).
    destruct (match_job_view (String c s +:+ t)) eqn:H; [done|].
    destruct (match_job_view (String c s)) eqn:H'.
    + exfalso. apply (match_job_view_app (String c s) t); [congruence | done].
    + apply IH.
Qed.

(** The first piece of a split is a prefix without the separator. *)
Lemma split_head (c : ascii) (s : string) :
  ∃ w ws rest, Str.split c s = w :: ws ∧ s = w +:+ rest
               ∧ Str.contains (String c "") w = false.
Proof.
  induction s as [|a s (w & ws & rest & Hs & Hw & Hc)]; simpl.
  - by exists "", [], "".
  - destruct (Ascii.eqb_spec a c) as [->|Hne].
    + by exists "", (Str.split c s), (String c s).
    + rewrite Hs. exists (String a w), ws, rest. split; [done|].
      split; [by rewrite Hw|]. cbn [Str.contains String.prefix].
      destruct (ascii_dec c a); [congruence | done].
Qed.

End CleanUrlFacts.

Section ParserClaims.

Import JobParser.

(** One posting per link.  The candidates of a document are those of
    the table strategy when it has any, and those of the card strategy
    otherwise.  A candidate of the table strategy is an anchor match
    whose text is not blank, with the stripped text as title, the
    cleaned address as link and the company and location the context
    search gives for that title; a candidate of the card strategy is a
    card with a title link, whatever its title: a blank one is kept.
    [parse_html] returns candidates in document order, no link twice,
    and for each link exactly the first candidate that has it. *)
Theorem parse_html_first_candidate_per_link (soup : Soup) :
  let cands := match table_candidates soup with
               | [] => card_candidates soup
               | _ :: _ => table_candidates soup
               end in
  parse_html soup `sublist_of` cands
  ∧ NoDup (link <$> parse_html soup)
  ∧ ∀ k, filter (λ j, link j = k) (parse_html soup)
         = take 1 (filter (λ j, link j = k) cands).
Proof.
  unfold parse_html, _parse_table_format.
  rewrite (table_loop_as_seen (html_str soup) _ [] ∅).
  rewrite set_map_empty. cbn [app]. fold (table_candidates soup).
  destruct (seen_loop_spec (table_candidates soup) ∅)
    as (Hsub & Hnd & _ & _ & Hper).
  set (T := (fold_left seen_step (table_candidates soup) ([], ∅)).1) in *.
  destruct (seen_loop_spec T ∅) as (_ & _ & _ & Hseen & _).
  rewrite (seen_loop_nodup T ∅ Hnd) in Hseen by set_solver.
  destruct (fold_left seen_step T ([], ∅)) as [jobs seen2] eqn:Hloop2.
  assert (jobs = T) as ->.
  { pose proof (seen_loop_nodup T ∅ Hnd) as H. rewrite Hloop2 in H.
    apply H. set_solver. }
  cbn [snd] in Hseen.
  destruct T as [|j T'] eqn:HT.
  - assert (table_candidates soup = []) as ->.
    { destruct (table_candidates soup) as [|x xs]; [done|].
      specialize (Hper (link x)). rewrite filter_cons_True in Hper by done.
      rewrite decide_False in Hper by set_solver. done. }
    rewrite card_loop_as_seen. fold (card_candidates soup).
    assert (seen2 = ∅) as -> by (rewrite Hseen; set_solver).
    destruct (seen_loop_spec (card_candidates soup) ∅)
      as (Hsub' & Hnd' & _ & _ & Hper').
    split; [done|]. split; [done|]. intros k. rewrite Hper'.
    by rewrite decide_False by set_solver.
  - destruct (table_candidates soup) as [|x xs] eqn:Hc.
    { by apply sublist_nil_r in Hsub. }
    split; [done|]. split; [done|]. intros k. rewrite Hper.
    by rewrite decide_False by set_solver.
Qed.

(** A blank anchor on the table path.  In this document the link of
    job 1 stands first on an anchor whose text is a space and then on an
    anchor with the text [Dev]: the table strategy passes over the first
    anchor without marking its link as seen, and the posting returned
    for the link carries the title of the second. *)
Lemma parse_html_skips_blank_first_occurrence :
  let soup := {| html_str := Examples.html_blank_then_dev; job_cards := [] |} in
  findall_job_anchors 0 (html_str soup)
  = [("https://www.linkedin.com/comm/jobs/view/1?trk=a", " ");
     ("https://www.linkedin.com/comm/jobs/view/1?trk=b", "Dev")]
  ∧ _clean_linkedin_url "https://www.linkedin.com/comm/jobs/view/1?trk=a"
    = _clean_linkedin_url "https://www.linkedin.com/comm/jobs/view/1?trk=b"
  ∧ parse_html soup
    = [new_job "Dev" "Acme" "Oulu"
         (Some "https://www.linkedin.com/comm/jobs/view/1")]
  ∧ title <$> parse_html soup ≠ [Str.strip " "].
Proof. vm_compute. by repeat split. Qed.

(** C4 (the posting of a link does not carry the company and location
    of the link's first occurrence).  In this document the link of job 9
    stands twice, both times on an anchor with the text [Dev]: its first
    occurrence is followed by [Beta . Espoo], its second by
    [Gamma . Turku].  Before them stands job 7, which has the same title
    and is followed by [Acme . Oulu].  One posting is returned for link
    9, with the title of its first occurrence, but with the company
    [Acme] and the location [Oulu] of job 7: the context search is
    handed the link and does not use it, so it starts at the top of the
    document and stops at the first place where the title stands.  For
    the document that begins at the first occurrence of link 9 the same
    call returns [Beta] and [Espoo]. *)
Theorem parse_html_company_not_of_first_occurrence :
  let soup := {| html_str := Examples.html_dev_7_9_9; job_cards := [] |} in
  let rest := {| html_str := Examples.html_dev_9_9; job_cards := [] |} in
  let link_7 := "https://www.linkedin.com/comm/jobs/view/7" in
  let link_9 := "https://www.linkedin.com/comm/jobs/view/9" in
  html_str soup
  = Examples.anchor "https://www.linkedin.com/comm/jobs/view/7?trk=a" "Dev"
    +:+ "<p>Acme " +:+ String middot " Oulu</p>" +:+ html_str rest
  ∧ findall_job_anchors 0 (html_str soup)
    = [("https://www.linkedin.com/comm/jobs/view/7?trk=a", "Dev");
       ("https://www.linkedin.com/comm/jobs/view/9?trk=b", "Dev");
       ("https://www.linkedin.com/comm/jobs/view/9?trk=c", "Dev")]
  ∧ _clean_linkedin_url "https://www.linkedin.com/comm/jobs/view/9?trk=b" = link_9
  ∧ _clean_linkedin_url "https://www.linkedin.com/comm/jobs/view/9?trk=c" = link_9
  ∧ parse_html rest = [new_job "Dev" "Beta" "Espoo" (Some link_9)]
  ∧ parse_html soup
    = [new_job "Dev" "Acme" "Oulu" (Some link_7);
       new_job "Dev" "Acme" "Oulu" (Some link_9)]
  ∧ filter (λ j, link j = Some link_9) (parse_html soup)
    ≠ filter (λ j, link j = Some link_9) (parse_html rest)
  ∧ (∀ job_url,
       _extract_company_location_from_html (html_str soup) "Dev" job_url
       = ("Acme", "Oulu")).
Proof.
  intros soup rest link_7 link_9.
  split; [reflexivity|]. split; [vm_compute; reflexivity|].
  split; [vm_compute; reflexivity|]. split; [vm_compute; reflexivity|].
  assert (parse_html rest = [new_job "Dev" "Beta" "Espoo" (Some link_9)])
    as Hrest by (vm_compute; reflexivity).
  assert (parse_html soup
          = [new_job "Dev" "Acme" "Oulu" (Some link_7);
             new_job "Dev" "Acme" "Oulu" (Some link_9)])
    as Hsoup by (vm_compute; reflexivity).
  split; [exact Hrest|]. split; [exact Hsoup|]. split.
  - rewrite Hrest, Hsoup. vm_compute. discriminate.
  - intros job_url. vm_compute. reflexivity.
Qed.

(** C5 (the code is not idempotent).  A relative job address with
    something after the digits is first completed to an absolute
    address, which a second pass cuts after the digits. *)
Theorem clean_linkedin_url_twice_differs :
  let url := "/comm/jobs/view/123/?trk=x" in
  _clean_linkedin_url url = "https://www.linkedin.com/comm/jobs/view/123/"
  ∧ _clean_linkedin_url (_clean_linkedin_url url)
    = "https://www.linkedin.com/comm/jobs/view/123"
  ∧ _clean_linkedin_url (_clean_linkedin_url url) ≠ _clean_linkedin_url url.
Proof. vm_compute. by repeat split. Qed.

(** Where cleaning is idempotent: on every address that holds an
    absolute job view address, and on every address that does not start
    with the relative job view path. *)
Theorem clean_linkedin_url_idempotent_unless_relative (url : string) :
  search_job_view url ≠ None ∨ Str.startswith url "/comm/jobs/view/" = false →
  _clean_linkedin_url (_clean_linkedin_url url) = _clean_linkedin_url url.
Proof.
  intros Hcase. unfold _clean_linkedin_url at 2 3.
  destruct (String.eqb url "") eqn:He; [done|].
  destruct (search_job_view url) as [m|] eqn:Hm.
  - apply search_job_view_fixed in Hm as [Hne Hm].
    unfold _clean_linkedin_url. rewrite Hm.
    by rewrite (proj2 (String.eqb_neq m "")).
  - destruct Hcase as [?|Hrel]; [done|]. rewrite Hrel.
    destruct (split_head "?" url) as (w & ws & rest & Hs & Hw & Hc).
    assert (Hstable : _clean_linkedin_url w = w).
    { unfold _clean_linkedin_url.
      destruct (String.eqb_spec w "") as [->|_]; [done|].
      rewrite (search_job_view_app w rest) by (by rewrite <- Hw).
      destruct (Str.startswith w "/comm/jobs/view/") eqn:Hsw.
      - exfalso. unfold Str.startswith in *.
        apply prefix_app in Hsw as [t ->].
        assert (String.prefix "/comm/jobs/view/" url = true)
          by (apply prefix_app; exists (t +:+ rest); by rewrite Hw, app_assoc_str).
        congruence.
      - change "?" with (String "?"%char "") at 1. by rewrite Hc. }
    destruct (Str.contains "?" url) eqn:Hq.
    + unfold before_query. rewrite Hs. exact Hstable.
    + unfold _clean_linkedin_url. by rewrite He, Hm, Hrel, Hq.
Qed.

(** An absolute address with tracking parameters is cleaned to the same
    text once and twice. *)
Lemma clean_linkedin_url_idempotent_unless_relative_witness :
  _clean_linkedin_url
    (_clean_linkedin_url "https://www.linkedin.com/comm/jobs/view/123/?trk=x")
  = _clean_linkedin_url "https://www.linkedin.com/comm/jobs/view/123/?trk=x".
Proof.
  apply clean_linkedin_url_idempotent_unless_relative. left.
  vm_compute. discriminate.
Defined.

End ParserClaims.

(** ** filter.py *)

Section FilterFacts.

Import JobFilter.

(** A title is excluded exactly when its lower-case form contains one of
    the keywords. *)
Lemma any_keyword_in_spec (keywords : list string) (t : string) :
  any_keyword_in keywords t = true ↔
  ∃ keyword, keyword ∈ keywords ∧ ∃ pre post, t = pre +:+ keyword +:+ post.
Proof.
  induction keywords as [|k ks IH]; simpl.
  - split; [done | intros (k & Hk & _); by apply elem_of_nil in Hk].
  - destruct (Str.contains k t) eqn:Hc.
    + split; [|done]. intros _. exists k. split; [left|]. by apply contains_spec.
    + rewrite IH. split.
      * intros (k' & Hk' & H). exists k'. split; [by right | done].
      * intros (k' & Hk' & H). apply elem_of_cons in Hk' as [->|Hk'].
        -- apply contains_spec in H. congruence.
        -- eauto.
Qed.

(** The loop of [deduplicate_jobs] from any intermediate state: each of
    the three lists grows by the jobs of its class, in input order. *)
Lemma dedup_loop_acc (h : gset Link) (jobs : list Job) (acc : Split) :
  fold_left (dedup_step h) jobs acc =
  {| new_jobs := new_jobs acc ++
       filter (λ j, _is_senior_role (title j) = false ∧ link j ∉ h) jobs;
     duplicate_jobs := duplicate_jobs acc ++
       filter (λ j, _is_senior_role (title j) = false ∧ link j ∈ h) jobs;
     excluded_jobs := excluded_jobs acc ++
       filter (λ j, _is_senior_role (title j) = true) jobs |}.
Proof.
  revert acc. induction jobs as [|j jobs IH]; intros acc.
  - simpl. rewrite !filter_nil, !app_nil_r. by destruct acc.
  - cbn [fold_left]. rewrite IH, !filter_cons. unfold dedup_step.
    destruct (_is_senior_role (title j)) eqn:Hs, (decide (link j ∈ h));
      repeat case_decide; try (exfalso; intuition congruence); simpl;
      by rewrite <- ?app_assoc.
Qed.

(** The three classes are disjoint and cover the input. *)
Lemma dedup_classes_length (h : gset Link) (jobs : list Job) :
  (length (filter (λ j, _is_senior_role (title j) = false ∧ link j ∉ h) jobs)
   + length (filter (λ j, _is_senior_role (title j) = false ∧ link j ∈ h) jobs)
   + length (filter (λ j, _is_senior_role (title j) = true) jobs)
   = length jobs)%nat.
Proof.
  induction jobs as [|j jobs IH]; [done|].
  rewrite !filter_cons.
  destruct (_is_senior_role (title j)) eqn:Hs, (decide (link j ∈ h));
    repeat case_decide; try (exfalso; intuition congruence); simpl; lia.
Qed.

Lemma dedup_classes_perm (h : gset Link) (jobs : list Job) :
  filter (λ j, _is_senior_role (title j) = false ∧ link j ∉ h) jobs
  ++ filter (λ j, _is_senior_role (title j) = false ∧ link j ∈ h) jobs
  ++ filter (λ j, _is_senior_role (title j) = true) jobs ≡ₚ jobs.
Proof.
  induction jobs as [|j jobs IH]; [done|].
  rewrite !filter_cons.
  destruct (_is_senior_role (title j)) eqn:Hs, (decide (link j ∈ h));
    repeat case_decide; try (exfalso; intuition congruence);
    cbn [app]; rewrite <- ?Permutation_middle; apply perm_skip, IH.
Qed.

(** The loop of [filter_jobs] from any intermediate list [filtered]. *)
Lemma filter_loop_acc (thr : Z) (jobs filtered : list Job) (h : gset Link) :
  fold_left (filter_step thr) jobs (filtered, h) =
  (filtered ++ (filter_loop thr jobs h).1, (filter_loop thr jobs h).2).
Proof.
  unfold filter_loop. revert filtered h.
  induction jobs as [|j jobs IH]; intros filtered h.
  - simpl. by rewrite app_nil_r.
  - cbn [fold_left]. unfold filter_step at 2 4 6.
    destruct (get_score j <? thr); [apply IH|].
    destruct (decide (link j ∈ h)); [apply IH|].
    rewrite IH, (IH ([] ++ [j])). simpl. by rewrite <- app_assoc.
Qed.

(** One iteration: a job is appended, and its link added to the history
    before the next job is looked at, exactly when its score reaches the
    threshold and its link is not in the history at that moment. *)
Lemma filter_loop_cons (thr : Z) (j : Job) (jobs : list Job) (h : gset Link) :
  filter_loop thr (j :: jobs) h =
  if bool_decide (thr ≤ get_score j ∧ link j ∉ h)
  then (j :: (filter_loop thr jobs ({[link j]} ∪ h)).1,
        (filter_loop thr jobs ({[link j]} ∪ h)).2)
  else filter_loop thr jobs h.
Proof.
  unfold filter_loop at 1. cbn [fold_left]. unfold filter_step at 2.
  destruct (Z.ltb_spec (get_score j) thr) as [Hlt|Hge].
  - rewrite bool_decide_eq_false_2 by lia. done.
  - destruct (decide (link j ∈ h)) as [Hin|Hin].
    + rewrite bool_decide_eq_false_2 by tauto. done.
    + rewrite bool_decide_eq_true_2 by tauto. by rewrite filter_loop_acc.
Qed.

Lemma filter_loop_app (thr : Z) (l1 l2 : list Job) (h : gset Link) :
  filter_loop thr (l1 ++ l2) h =
  ((filter_loop thr l1 h).1 ++ (filter_loop thr l2 (filter_loop thr l1 h).2).1,
   (filter_loop thr l2 (filter_loop thr l1 h).2).2).
Proof.
  unfold filter_loop at 1. rewrite fold_left_app.
  fold (filter_loop thr l1 h). destruct (filter_loop thr l1 h) as [k1 h1].
  by rewrite filter_loop_acc.
Qed.

(** The history after the loop: the links of the kept jobs were added,
    nothing else. *)
Lemma filter_loop_history (thr : Z) (jobs : list Job) (h : gset Link) :
  (filter_loop thr jobs h).2 = h ∪ list_to_set (link <$> (filter_loop thr jobs h).1).
Proof.
  revert h. induction jobs as [|j jobs IH]; intros h.
  - simpl. set_solver.
  - rewrite filter_loop_cons. case_bool_decide; [|apply IH].
    cbn [fst snd]. rewrite IH. set_solver.
Qed.

(** The kept jobs are input jobs, in input order. *)
Lemma filter_loop_sublist (thr : Z) (jobs : list Job) (h : gset Link) :
  (filter_loop thr jobs h).1 `sublist_of` jobs.
Proof.
  revert h. induction jobs as [|j jobs IH]; intros h.
  - done.
  - rewrite filter_loop_cons. case_bool_decide.
    + apply sublist_skip, IH.
    + apply sublist_cons, IH.
Qed.

(** Every job whose score reaches the threshold has its link in the
    history after the loop. *)
Lemma filter_loop_covers (thr : Z) (jobs : list Job) (h : gset Link) (j : Job) :
  j ∈ jobs → thr ≤ get_score j → link j ∈ (filter_loop thr jobs h).2.
Proof.
  revert h. induction jobs as [|x jobs IH]; intros h Hj Hs.
  - by apply elem_of_nil in Hj.
  - rewrite filter_loop_cons. apply elem_of_cons in Hj as [->|Hj].
    + case_bool_decide as Hk.
      * cbn [snd]. rewrite filter_loop_history. set_solver.
      * rewrite filter_loop_history.
        destruct (decide (link x ∈ h)); [set_solver | tauto].
    + case_bool_decide; [cbn [snd]|]; by apply IH.
Qed.

(** Nothing is kept when every job is below the threshold or has its
    link in the history. *)
Lemma filter_loop_nothing (thr : Z) (jobs : list Job) (h : gset Link) :
  (∀ j, j ∈ jobs → thr ≤ get_score j → link j ∈ h) →
  filter_loop thr jobs h = ([], h).
Proof.
  induction jobs as [|x jobs IH]; intros Hall; [done|].
  rewrite filter_loop_cons, bool_decide_eq_false_2.
  - apply IH. intros j Hj. apply Hall. by right.
  - intros [Hs Hn]. apply Hn, Hall; [by left | done].
Qed.

(** No kept job has a link that was in the history at the start, and no
    two kept jobs share a link. *)
Lemma filter_loop_fresh (thr : Z) (jobs : list Job) (h : gset Link) :
  (∀ j, j ∈ (filter_loop thr jobs h).1 → link j ∉ h)
  ∧ NoDup (link <$> (filter_loop thr jobs h).1).
Proof.
  revert h. induction jobs as [|x jobs IH]; intros h.
  - split; [intros j Hj; by apply elem_of_nil in Hj | constructor].
  - rewrite filter_loop_cons. case_bool_decide as Hk; [|apply IH].
    destruct (IH ({[link x]} ∪ h)) as [Hfresh Hnd]. cbn [fst]. split.
    + intros j [->|Hj]%elem_of_cons; [tauto|].
      specialize (Hfresh j Hj). set_solver.
    + rewrite fmap_cons. constructor; [|done].
      intros (j & Hl & Hj)%list_elem_of_fmap.
      specialize (Hfresh j Hj). set_solver.
Qed.

(** Per link: nothing is kept for a link of the history; for any other
    link the one job kept is the first job with that link whose score
    reaches the threshold. *)
Lemma filter_loop_per_link (thr : Z) (jobs : list Job) (h : gset Link) (l : Link) :
  filter (λ j, link j = l) (filter_loop thr jobs h).1 =
  if decide (l ∈ h) then []
  else take 1 (filter (λ j, link j = l ∧ thr ≤ get_score j) jobs).
Proof.
  revert h. induction jobs as [|x jobs IH]; intros h.
  - simpl. by case_decide.
  - rewrite filter_loop_cons. case_bool_decide as Hk.
    + cbn [fst]. rewrite !filter_cons, IH.
      destruct (decide (link x = l)) as [<-|Hne].
      * rewrite decide_True by set_solver.
        rewrite (decide_False (P := link x ∈ h)) by tauto.
        rewrite decide_True by tauto. done.
      * rewrite (decide_False (P := link x = l ∧ _)) by tauto.
        destruct (decide (l ∈ h)).
        -- rewrite decide_True by set_solver. done.
        -- rewrite decide_False by set_solver. done.
    + rewrite IH, filter_cons. destruct (decide (l ∈ h)) as [Hin|Hin]; [done|].
      rewrite decide_False; [done|]. intros [<- Hs]. tauto.
Qed.

End FilterFacts.

Section FilterClaims.

Import JobFilter.

(** C3.  The pre-scoring split puts each job in exactly one of three
    classes: excluded when the lower-case title contains one of the
    keywords senior, lead, principal, architect, director, manager,
    head of; else a duplicate when its link is in the history; else new.
    The three lists are a partition of the input, so their lengths add
    up to the input length (also with the [excluded_count] the node
    computes), and the phase leaves the history, in memory and on disk,
    as it was. *)
Theorem deduplicate_jobs_three_classes (jobs : list Job) (self : t) (d : Disk) :
  let r := dedup_loop (history self) jobs in
  (∀ j, _is_senior_role (title j) = true ↔
        ∃ keyword,
          keyword ∈ ["senior"; "lead"; "principal"; "architect"; "director";
                     "manager"; "head of"]
          ∧ ∃ pre post, Str.lower (title j) = pre +:+ keyword +:+ post)
  ∧ excluded_jobs r = filter (λ j, _is_senior_role (title j) = true) jobs
  ∧ duplicate_jobs r =
      filter (λ j, _is_senior_role (title j) = false ∧ link j ∈ history self) jobs
  ∧ new_jobs r =
      filter (λ j, _is_senior_role (title j) = false ∧ link j ∉ history self) jobs
  ∧ new_jobs r ++ duplicate_jobs r ++ excluded_jobs r ≡ₚ jobs
  ∧ (length (new_jobs r) + length (duplicate_jobs r) + length (excluded_jobs r)
     = length jobs)%nat
  ∧ deduplicate_jobs jobs self d = (new_jobs r, duplicate_jobs r, self, d)
  ∧ ∀ match_threshold duplicates filtered,
      let '(state', excluded_count, d') :=
        deduplicate_jobs_node match_threshold
          {| st_jobs := jobs; st_duplicate_jobs := duplicates;
             st_filtered_jobs := filtered |} d in
      let h := _load_history d in
      st_jobs state' =
        filter (λ j, _is_senior_role (title j) = false ∧ link j ∉ h) jobs
      ∧ st_duplicate_jobs state' =
        filter (λ j, _is_senior_role (title j) = false ∧ link j ∈ h) jobs
      ∧ excluded_count =
        Z.of_nat (length (filter (λ j, _is_senior_role (title j) = true) jobs))
      ∧ Z.of_nat (length (st_jobs state'))
        + Z.of_nat (length (st_duplicate_jobs state')) + excluded_count
        = Z.of_nat (length jobs)
      ∧ d' = d.
Proof.
  intros r. unfold r, dedup_loop. rewrite dedup_loop_acc. cbn [new_jobs
    duplicate_jobs excluded_jobs app].
  split; [|split; [|split; [|split; [|split; [|split; [|split]]]]]];
    try reflexivity.
  - intros j. apply any_keyword_in_spec.
  - apply dedup_classes_perm.
  - apply dedup_classes_length.
  - unfold deduplicate_jobs, dedup_loop. by rewrite dedup_loop_acc.
  - intros thr dups filt.
    unfold deduplicate_jobs_node, deduplicate_jobs, dedup_loop.
    rewrite dedup_loop_acc. cbn -[filter _is_senior_role].
    pose proof (dedup_classes_length (_load_history d) jobs) as Hlen.
    repeat split; lia.
Qed.

(** C2.  The post-scoring filter decides job by job.  For a job [j] that
    comes after the jobs [pre]: it is kept exactly when its score is at
    least the threshold (equal counts) and its link is not in the history
    as it stands when [j] is looked at, which is the history at the start
    and the links of the jobs kept before; when it is kept its link is in
    the history before the next job is looked at.  The kept jobs come out
    in input order.  The history is written once, with the links of all
    kept jobs in it, when a job was kept, and not at all otherwise. *)
Theorem filter_jobs_keeps_iff (jobs : list Job) (self : t) (d : Disk) :
  let thr := threshold self in
  let '(filtered, self', d') := filter_jobs jobs self d in
  (∀ pre j post,
     jobs = pre ++ j :: post →
     let before := filter_loop thr pre (history self) in
     let keep := bool_decide (thr ≤ get_score j ∧ link j ∉ before.2) in
     before.2 = history self ∪ list_to_set (link <$> before.1)
     ∧ filter_loop thr (pre ++ [j]) (history self) =
         (if keep then (before.1 ++ [j], {[link j]} ∪ before.2) else before)
     ∧ filtered =
         before.1 ++ (if keep then [j] else [])
         ++ (filter_loop thr post
               (if keep then {[link j]} ∪ before.2 else before.2)).1)
  ∧ filtered `sublist_of` jobs
  ∧ history self' = history self ∪ list_to_set (link <$> filtered)
  ∧ threshold self' = threshold self
  ∧ d' = match filtered with
         | [] => d
         | _ :: _ => {| file := Stored (elements (history self'));
                        writes := S (writes d) |}
         end.
Proof.
  intros thr. unfold filter_jobs. fold thr.
  destruct (filter_loop thr jobs (history self)) as [filtered h] eqn:Hloop.
  assert (Hh : h = history self ∪ list_to_set (link <$> filtered)).
  { pose proof (filter_loop_history thr jobs (history self)) as H.
    by rewrite Hloop in H. }
  assert (Hsub : filtered `sublist_of` jobs).
  { pose proof (filter_loop_sublist thr jobs (history self)) as H.
    by rewrite Hloop in H. }
  assert (Hpos : ∀ pre j post,
     jobs = pre ++ j :: post →
     let before := filter_loop thr pre (history self) in
     let keep := bool_decide (thr ≤ get_score j ∧ link j ∉ before.2) in
     before.2 = history self ∪ list_to_set (link <$> before.1)
     ∧ filter_loop thr (pre ++ [j]) (history self) =
         (if keep then (before.1 ++ [j], {[link j]} ∪ before.2) else before)
     ∧ filtered =
         before.1 ++ (if keep then [j] else [])
         ++ (filter_loop thr post
               (if keep then {[link j]} ∪ before.2 else before.2)).1).
  { intros pre j post -> before keep. split; [apply filter_loop_history|].
    rewrite filter_loop_app in Hloop. rewrite filter_loop_app.
    rewrite !filter_loop_cons in *. fold before keep in Hloop |- *.
    destruct keep; cbn [fst snd filter_loop fold_left] in *.
    - split; [done|]. by injection Hloop as <- _.
    - split; [by rewrite app_nil_r; destruct before|].
      by injection Hloop as <- _. }
  destruct filtered as [|k ks]; cbn [history threshold]; auto.
Qed.

(** C7.  After the filter has run, the history contains what it contained
    before, and the link of every input job whose score reaches the
    threshold and whose link was not in the history.  Hence a second
    run on the same job list returns the empty list: with the same
    [JobFilter] object, and also when each run is the node
    [filter_jobs], which builds its object from the history file. *)
Theorem filter_jobs_second_run_empty (jobs : list Job) (self : t) (d : Disk) :
  let '(filtered, self', d') := filter_jobs jobs self d in
  history self ⊆ history self'
  ∧ (∀ j, j ∈ jobs → threshold self ≤ get_score j → link j ∉ history self →
          link j ∈ history self')
  ∧ (filter_jobs jobs self' d').1.1 = []
  ∧ ∀ match_threshold duplicates old,
      let '(state1, d1) :=
        filter_jobs_node match_threshold
          {| st_jobs := jobs; st_duplicate_jobs := duplicates;
             st_filtered_jobs := old |} d in
      let '(state2, d2) := filter_jobs_node match_threshold state1 d1 in
      st_jobs state1 = jobs ∧ st_filtered_jobs state2 = [] ∧ d2 = d1.
Proof.
  unfold filter_jobs at 1.
  pose proof (filter_loop_history (threshold self) jobs (history self)) as Hh.
  pose proof (filter_loop_covers (threshold self) jobs (history self)) as Hc.
  destruct (filter_loop (threshold self) jobs (history self)) as [filtered h].
  cbn [fst snd] in Hh, Hc.
  assert (Hgoal : history self ⊆ h
    ∧ (∀ j, j ∈ jobs → threshold self ≤ get_score j → link j ∉ history self →
            link j ∈ h)
    ∧ ∀ d', (filter_jobs jobs {| threshold := threshold self; history := h |} d').1.1 = []).
  { split; [set_solver|]. split; [eauto|]. intros d'. unfold filter_jobs.
    cbn [threshold history]. rewrite filter_loop_nothing; [done|].
    intros j Hj Hs. by apply Hc. }
  destruct Hgoal as (H1 & H2 & H3).
  assert (Hnode : ∀ match_threshold duplicates old,
      let '(state1, d1) :=
        filter_jobs_node match_threshold
          {| st_jobs := jobs; st_duplicate_jobs := duplicates;
             st_filtered_jobs := old |} d in
      let '(state2, d2) := filter_jobs_node match_threshold state1 d1 in
      st_jobs state1 = jobs ∧ st_filtered_jobs state2 = [] ∧ d2 = d1).
  { intros thr dups old. unfold filter_jobs_node, filter_jobs, new.
    cbn [threshold history st_jobs].
    pose proof (filter_loop_covers thr jobs (_load_history d)) as Hc'.
    destruct (filter_loop thr jobs (_load_history d)) as [f1 h1] eqn:Hl1.
    cbn [snd] in Hc'. destruct f1 as [|k ks]; cbn [st_jobs].
    - rewrite Hl1. done.
    - unfold _load_history at 1, _save_history. cbn [file history].
      rewrite list_to_set_elements_L.
      rewrite filter_loop_nothing by (intros j Hj Hs; by apply Hc'). done. }
  destruct filtered; auto.
Qed.

(** C10.  One call of the post-scoring filter returns at most one job
    per link: for a link of the history it keeps none, and for any other
    link only the first input job with that link whose score reaches the
    threshold, whatever comes later with the same link. *)
Theorem filter_jobs_at_most_one_per_link (jobs : list Job) (self : t) (d : Disk) :
  let '(filtered, _, _) := filter_jobs jobs self d in
  NoDup (link <$> filtered)
  ∧ filtered `sublist_of` jobs
  ∧ ∀ l : Link,
      filter (λ j, link j = l) filtered =
      if decide (l ∈ history self) then []
      else take 1 (filter (λ j, link j = l ∧ threshold self ≤ get_score j) jobs).
Proof.
  unfold filter_jobs.
  pose proof (filter_loop_fresh (threshold self) jobs (history self)) as [_ Hnd].
  pose proof (filter_loop_per_link (threshold self) jobs (history self)) as Hl.
  pose proof (filter_loop_sublist (threshold self) jobs (history self)) as Hs.
  destruct (filter_loop (threshold self) jobs (history self)) as [filtered h].
  destruct filtered; auto.
Qed.

(** A job that is no senior role and whose link is in the history goes
    to the duplicates and not to the jobs that are analysed. *)
Theorem deduplicate_jobs_known_link_is_duplicate (jobs : list Job) (self : t)
  (d : Disk) (j : Job) :
  j ∈ jobs → _is_senior_role (title j) = false → link j ∈ history self →
  j ∈ (deduplicate_jobs jobs self d).1.1.2
  ∧ j ∉ (deduplicate_jobs jobs self d).1.1.1.
Proof.
  intros Hj Hs Hl. unfold deduplicate_jobs, dedup_loop.
  rewrite dedup_loop_acc. cbn [fst snd new_jobs duplicate_jobs app].
  rewrite !list_elem_of_filter. split; [done|]. intros [[_ Hn] _]. done.
Qed.

Lemma deduplicate_jobs_known_link_is_duplicate_witness :
  Examples.job_a
  ∈ (deduplicate_jobs [Examples.job_a; Examples.job_b] Examples.filter_known
       Examples.no_file).1.1.2.
Proof.
  apply (deduplicate_jobs_known_link_is_duplicate
           [Examples.job_a; Examples.job_b] Examples.filter_known
           Examples.no_file Examples.job_a).
  - by left.
  - reflexivity.
  - vm_compute. set_solver.
Defined.

(** Seniority exclusion on the titles the specification lists. *)
Example is_senior_role_on_listed_titles :
  _is_senior_role "Senior Engineer" = true
  ∧ _is_senior_role "SENIOR ENGINEER" = true
  ∧ _is_senior_role "Pre-Senior-ish Engineer" = true
  ∧ _is_senior_role "Engineering" = false.
Proof. by repeat split. Qed.

(** The threshold is inclusive: of three jobs, the one that scores
    exactly 50 is kept at threshold 50, the one that scores 49 is not,
    and the third repeats the link of the first. *)
Lemma filter_jobs_keeps_iff_witness :
  (filter_jobs [Examples.job_a; Examples.job_b; Examples.job_c]
     Examples.filter_50 Examples.no_file).1.1 = [Examples.job_a].
Proof.
  pose proof (filter_jobs_keeps_iff
    [Examples.job_a; Examples.job_b; Examples.job_c]
    Examples.filter_50 Examples.no_file) as H.
  cbv zeta in H.
  destruct (filter_jobs _ _ _) as [[filtered self'] d'].
  destruct H as [H _].
  destruct (H [] Examples.job_a [Examples.job_b; Examples.job_c] eq_refl)
    as (_ & _ & ->).
  vm_compute. reflexivity.
Defined.

(** The link of a kept job is in the history afterwards. *)
Lemma filter_jobs_second_run_empty_witness :
  link Examples.job_a
  ∈ history (filter_jobs [Examples.job_a; Examples.job_b; Examples.job_c]
               Examples.filter_50 Examples.no_file).1.2.
Proof.
  pose proof (filter_jobs_second_run_empty
    [Examples.job_a; Examples.job_b; Examples.job_c]
    Examples.filter_50 Examples.no_file) as H.
  destruct (filter_jobs _ _ _) as [[filtered self'] d'].
  destruct H as (_ & H & _). cbn [fst snd].
  apply (H Examples.job_a).
  - by left.
  - vm_compute. discriminate.
  - vm_compute. set_solver.
Defined.

End FilterClaims.

(** ** jd_extractor.py *)

Section ExtractorClaims.

Context (rt : Py.Runtime).

(** The validation loop keeps the normalised form of each entry that has
    one, in order. *)
Lemma validate_loop_acc (reqs : list Json.value) (acc : list Requirement) :
  fold_left JDExtractor.validate_step reqs acc
  = acc ++ omap JDExtractor.normalized reqs.
Proof.
  revert acc. induction reqs as [|req reqs IH]; intros acc; simpl.
  - by rewrite app_nil_r.
  - rewrite IH. unfold JDExtractor.validate_step, JDExtractor.normalized.
    destruct req as [| | | | |l|fields]; try done.
    destruct (Json.assoc "item" fields); simpl; [|done].
    by rewrite <- app_assoc.
Qed.

(** C6.  Stage A handles a response as follows.  A fenced wrapper (an
    opening line that starts with the fence, the body, a closing line
    that is a fence) is removed from the stripped response and the body
    is what is decoded; a response that does not start with a fence is
    decoded as it is, stripped.  The result is the empty list when the
    text does not decode or decodes to something that is no array, and
    otherwise the entries of the array in order, an entry without
    [item] dropped, a kept entry with ["other"] for a missing category
    and ["must"] for a missing priority.  When the model call raises,
    [extract_requirements] returns the one requirement with category
    ["role"], the job title as item and priority ["must"]; it never
    raises. *)
Theorem stage_a_response_handling :
  (∀ response lang body last,
     Str.strip response
       = Str.fence +:+ lang +:+ Fence.nl +:+ body +:+ Fence.nl +:+ last →
     Str.contains Fence.nl lang = false →
     Str.contains Fence.nl last = false →
     Str.strip last = Str.fence →
     Fence.remove_code_block (Str.strip response) = body)
  ∧ (∀ response,
       Str.startswith (Str.strip response) Str.fence = false →
       Fence.remove_code_block (Str.strip response) = Str.strip response)
  ∧ JDExtractor._parse_response rt None = Py.Ok []
  ∧ (∀ response,
       JDExtractor._parse_response rt (Some response) =
       Py.Ok match Py.json_loads rt
                     (Fence.remove_code_block (Str.strip response)) with
             | Some (Json.List reqs) => omap JDExtractor.normalized reqs
             | _ => []
             end)
  ∧ (∀ fields,
       JDExtractor.normalized (Json.Dict fields) =
       match Json.assoc "item" fields with
       | Some it =>
           Some {| category := default (Json.Str "other")
                                 (Json.assoc "category" fields);
                   item := it;
                   level := default (Json.Str "") (Json.assoc "level" fields);
                   priority := default (Json.Str "must")
                                 (Json.assoc "priority" fields) |}
       | None => None
       end)
  ∧ (∀ req, (∀ fields, req ≠ Json.Dict fields) → JDExtractor.normalized req = None)
  ∧ (∀ msg job,
       JDExtractor.extract_requirements rt (Py.Fails msg) job =
       Py.Ok [{| category := Json.Str "role"; item := Json.Str (title job);
                 level := Json.Str ""; priority := Json.Str "must" |}])
  ∧ (∀ content job,
       JDExtractor.extract_requirements rt (Py.Content content) job =
       JDExtractor._parse_response rt content)
  ∧ (∀ reply job,
       ∃ reqs, JDExtractor.extract_requirements rt reply job = Py.Ok reqs).
Proof.
  split; [|split; [|split; [|split; [|split; [|split; [|split; [|split]]]]]]].
  - intros response lang body last -> Hlang Hlast Hfence.
    by apply remove_code_block_fenced.
  - intros response H. unfold Fence.remove_code_block. by rewrite H.
  - done.
  - intros response.
    unfold JDExtractor._parse_response, JDExtractor.parse_try, Py.loads.
    py_run.
    destruct (Py.json_loads rt _) as [[| | | | |reqs|]|]; py_run; try done.
    by rewrite validate_loop_acc.
  - intros fields. unfold JDExtractor.normalized.
    by destruct (Json.assoc "item" fields).
  - intros req Hreq. destruct req; try done. by destruct (Hreq items).
  - done.
  - intros content job. unfold JDExtractor.extract_requirements. py_run.
    unfold JDExtractor._parse_response.
    by destruct (JDExtractor.parse_try rt content).
  - intros reply job. unfold JDExtractor.extract_requirements.
    destruct (content ← Py.call reply;
              requirements ← JDExtractor._parse_response rt content;
              Py.Ok requirements); simpl; eauto.
Qed.

End ExtractorClaims.

(** The fallbacks of stage A on concrete responses: a text that is no
    JSON and the empty array give the empty list, a failed call gives
    the one requirement made from the title. *)
Example stage_a_fallbacks :
  JDExtractor._parse_response Fragment.runtime (Some "not json") = Py.Ok []
  ∧ JDExtractor._parse_response Fragment.runtime (Some "[]") = Py.Ok []
  ∧ JDExtractor.extract_requirements Fragment.runtime (Py.Fails "timeout")
      Examples.job_dev
    = Py.Ok [{| category := Json.Str "role";
                item := Json.Str "Python Developer";
                level := Json.Str ""; priority := Json.Str "must" |}].
Proof. by repeat split. Qed.

(** The wrapper of a response [```json], [[]], [```] on three lines is
    removed. *)
Lemma stage_a_response_handling_witness :
  Fence.remove_code_block
    (Str.strip (Str.fence +:+ "json" +:+ Fence.nl +:+ "[]"
                +:+ Fence.nl +:+ Str.fence)) = "[]".
Proof.
  apply (proj1 (stage_a_response_handling Fragment.runtime) _ "json" "[]" Str.fence);
    reflexivity.
Defined.

(** ** matcher.py *)

Section MatcherFacts.

Context (rt : Py.Runtime).

(** Inversion of a bind that returned. *)
Lemma bind_Ok {A B} (m : Py.res A) (k : A → Py.res B) (b : B) :
  (x ← m; k x) = Py.Ok b → ∃ a, m = Py.Ok a ∧ k a = Py.Ok b.
Proof. destruct m as [a|msg]; [eauto | discriminate]. Qed.

Lemma try_except_total {A} (body : Py.res A) (handler : string → A) :
  ∃ a, Py.try_except body (λ e, Py.Ok (handler e)) = Py.Ok a.
Proof. destruct body; simpl; eauto. Qed.

(** The clamp of the legacy parser. *)
Lemma clamp_range (z : Z) :
  0 ≤ (if negb ((0 <=? z) && (z <=? 100)) then Z.max 0 (Z.min 100 z) else z) ≤ 100.
Proof.
  destruct (Z.leb_spec 0 z), (Z.leb_spec z 100); simpl; lia.
Qed.

Lemma clamp_nearest (z : Z) :
  (if negb ((0 <=? z) && (z <=? 100)) then Z.max 0 (Z.min 100 z) else z) =
  (if z <? 0 then 0 else if 100 <? z then 100 else z).
Proof.
  destruct (Z.leb_spec 0 z), (Z.leb_spec z 100), (Z.ltb_spec z 0),
    (Z.ltb_spec 100 z); simpl; lia.
Qed.

Lemma legacy_parse_try_range (content : option string) (r : JobMatcher.Result) :
  JobMatcher.parse_try rt content = Py.Ok r → 0 ≤ JobMatcher.r_score r ≤ 100.
Proof.
  unfold JobMatcher.parse_try.
  intros (response & _ & H)%bind_Ok.
  apply bind_Ok in H as (result & _ & H).
  apply bind_Ok in H as (has_score & _ & H).
  apply bind_Ok in H as (has_reasons & _ & H).
  destruct (negb has_score || negb has_reasons); [discriminate|].
  apply bind_Ok in H as (raw & _ & H).
  apply bind_Ok in H as (score & _ & H).
  apply bind_Ok in H as (reasons & _ & H).
  injection H as <-. apply clamp_range.
Qed.

Lemma legacy_parse_response_range (content : option string) :
  ∃ r, JobMatcher._parse_response rt content = Py.Ok r
       ∧ 0 ≤ JobMatcher.r_score r ≤ 100.
Proof.
  unfold JobMatcher._parse_response.
  destruct (JobMatcher.parse_try rt content) as [r|msg] eqn:H; simpl.
  - exists r. split; [done|]. by eapply legacy_parse_try_range.
  - eexists. split; [done|]. simpl. lia.
Qed.

Lemma enhanced_parse_response_total (content : option string) :
  ∃ r, EnhancedJobMatcher._parse_response rt content = Py.Ok r.
Proof. apply (try_except_total _ (λ _, EnhancedJobMatcher.empty_result)). Qed.

Lemma enhanced_parse_failure (content : option string) (msg : string) :
  EnhancedJobMatcher.parse_try rt content = Py.Raise msg →
  EnhancedJobMatcher._parse_response rt content =
  Py.Ok EnhancedJobMatcher.empty_result.
Proof. unfold EnhancedJobMatcher._parse_response. by intros ->. Qed.

Lemma enhanced_match_job_total (reply : Py.Reply) (job : Job) :
  ∃ job', EnhancedJobMatcher.match_job rt reply job = Py.Ok job'.
Proof. apply (try_except_total _ (EnhancedJobMatcher.fallback job)). Qed.

Lemma legacy_match_job_total (reply : Py.Reply) (job : Job) :
  ∃ job', JobMatcher.match_job rt reply job = Py.Ok job'.
Proof.
  apply (try_except_total _
    (λ e, set_score_reasons job 0 (Json.Str ("Error during matching: " +:+ e)))).
Qed.

(** No job of a batch ends the loop of [match_jobs]. *)
Lemma match_jobs_total (use_enhanced : bool) (llm : Job → Py.Reply)
  (jobs : list Job) :
  ∃ out, match_jobs rt use_enhanced llm jobs = Py.Ok out
         ∧ length out = length jobs.
Proof.
  induction jobs as [|job jobs (out & IH & Hlen)]; [by exists []|].
  cbn [match_jobs].
  assert (∃ job', (if use_enhanced
                   then EnhancedJobMatcher.match_job rt (llm job) job
                   else JobMatcher.match_job rt (llm job) job) = Py.Ok job')
    as [job' ->].
  { destruct use_enhanced;
      [apply enhanced_match_job_total | apply legacy_match_job_total]. }
  rewrite IH. py_run. exists (job' :: out). simpl. by rewrite Hlen.
Qed.

End MatcherFacts.

Section MatcherClaims.

Context (rt : Py.Runtime).

(** C9.  The legacy parser always returns, and its score lies in
    [0, 100]: an integer score of a well-formed response is returned as
    it is when in range and as the nearest bound otherwise; a response
    that does not decode, or decodes to an object without ["score"] or
    without ["reasons"], gives score 0.  So the score [match_job] of the
    legacy matcher puts on a job is always in [0, 100]. *)
Theorem legacy_score_always_in_range :
  (∀ content, ∃ r, JobMatcher._parse_response rt content = Py.Ok r
                   ∧ 0 ≤ JobMatcher.r_score r ≤ 100)
  ∧ (∀ response fields z reasons,
       Py.json_loads rt (Fence.remove_code_block_legacy (Str.strip response))
         = Some (Json.Dict fields) →
       Json.assoc "score" fields = Some (Json.Int z) →
       Json.assoc "reasons" fields = Some reasons →
       JobMatcher._parse_response rt (Some response) =
       Py.Ok {| JobMatcher.r_score :=
                  if z <? 0 then 0 else if 100 <? z then 100 else z;
                JobMatcher.r_reasons := reasons |})
  ∧ (∀ response,
       Py.json_loads rt (Fence.remove_code_block_legacy (Str.strip response))
         = None →
       JobMatcher._parse_response rt (Some response) =
       Py.Ok {| JobMatcher.r_score := 0;
                JobMatcher.r_reasons := Json.Str "Failed to parse LLM response" |})
  ∧ (∀ response fields,
       Py.json_loads rt (Fence.remove_code_block_legacy (Str.strip response))
         = Some (Json.Dict fields) →
       Json.assoc "score" fields = None ∨ Json.assoc "reasons" fields = None →
       JobMatcher._parse_response rt (Some response) =
       Py.Ok {| JobMatcher.r_score := 0;
                JobMatcher.r_reasons := Json.Str "Failed to parse LLM response" |})
  ∧ (∀ reply job, ∃ job' s,
       JobMatcher.match_job rt reply job = Py.Ok job'
       ∧ score job' = Some s ∧ 0 ≤ s ≤ 100).
Proof.
  split; [apply legacy_parse_response_range|].
  split; [|split; [|split]].
  - intros response fields z reasons Hl Hs Hr.
    unfold JobMatcher._parse_response, JobMatcher.parse_try, Py.loads.
    py_run. rewrite Hl. py_run. rewrite Hs, Hr.
    rewrite !bool_decide_eq_true_2 by eauto.
    py_run. cbn [negb orb Py.int]. py_run. by rewrite clamp_nearest.
  - intros response Hl.
    unfold JobMatcher._parse_response, JobMatcher.parse_try, Py.loads.
    py_run. by rewrite Hl.
  - intros response fields Hl Hmiss.
    unfold JobMatcher._parse_response, JobMatcher.parse_try, Py.loads.
    py_run. rewrite Hl. py_run.
    destruct (Json.assoc "score" fields) as [sv|] eqn:Hs.
    + destruct Hmiss as [?| ->]; [done|].
      rewrite bool_decide_eq_true_2 by eauto. py_run.
      rewrite bool_decide_eq_false_2 by (intros [? ?]; done). done.
    + rewrite bool_decide_eq_false_2 by (intros [? ?]; done). done.
  - intros reply job. unfold JobMatcher.match_job, JobMatcher.match_try.
    destruct reply as [msg|content]; py_run.
    + eexists _, 0. split; [done|]. simpl. split; [done | lia].
    + destruct (legacy_parse_response_range rt content) as (r & -> & Hr).
      py_run. eexists _, _. split; [done|]. simpl. eauto.
Qed.

(** The two handlers of the enhanced matcher.  [match_job] never lets
    an exception out, so no job ends the batch.  When the model call
    raises, or anything else does that reaches the handler of
    [match_job], the job gets score 0, the report with [match_score] 0
    and four empty lists, and the reasons "Enhanced matching error: "
    followed by the message.  An exception of the parsing never reaches
    that handler: the one inside [_parse_response] takes it, and the
    job gets the same score and report with the reasons
    "No match info". *)
Theorem enhanced_match_job_failure_policy (reply : Py.Reply) (job : Job) :
  let empty := {| match_score := NInt 0;
                  strong_matches := Json.List [];
                  partial_matches := Json.List [];
                  gaps := Json.List [];
                  cv_suggestions := Json.List [] |} in
  let failed (summary : string) :=
    {| title := title job; company := company job; location := location job;
       link := link job; desc := desc job; score := Some 0;
       reasons := Some (Json.Str summary); requirements := requirements job;
       enhanced_result := Some empty |} in
  (∃ job', EnhancedJobMatcher.match_job rt reply job = Py.Ok job')
  ∧ (∀ msg, reply = Py.Fails msg →
       EnhancedJobMatcher.match_job rt reply job =
       Py.Ok (failed ("Enhanced matching error: " +:+ msg)))
  ∧ (∀ msg, EnhancedJobMatcher.match_try rt reply job = Py.Raise msg →
       EnhancedJobMatcher.match_job rt reply job =
       Py.Ok (failed ("Enhanced matching error: " +:+ msg)))
  ∧ (∀ content msg, reply = Py.Content content →
       EnhancedJobMatcher.parse_try rt content = Py.Raise msg →
       EnhancedJobMatcher.match_job rt reply job =
       Py.Ok (failed "No match info"))
  ∧ (∀ use_enhanced llm jobs,
       ∃ out, match_jobs rt use_enhanced llm jobs = Py.Ok out
              ∧ length out = length jobs).
Proof.
  intros empty failed.
  split; [apply enhanced_match_job_total|].
  split; [|split; [|split]].
  - by intros msg ->.
  - intros msg H. unfold EnhancedJobMatcher.match_job. by rewrite H.
  - intros content msg -> H.
    unfold EnhancedJobMatcher.match_job, EnhancedJobMatcher.match_try.
    py_run. by rewrite (enhanced_parse_failure rt content msg H).
  - apply match_jobs_total.
Qed.

End MatcherClaims.

(** The response [{"score": 250, "reasons": "x"}] gives the score 100. *)
Lemma legacy_score_always_in_range_witness :
  JobMatcher._parse_response Fragment.runtime (Some Examples.response_score_250)
  = Py.Ok {| JobMatcher.r_score := 100; JobMatcher.r_reasons := Json.Str "x" |}.
Proof.
  apply (proj1 (proj2 (legacy_score_always_in_range Fragment.runtime))
           Examples.response_score_250
           [("score", Json.Int 250); ("reasons", Json.Str "x")] 250 (Json.Str "x"));
    reflexivity.
Defined.

(** C1 (the code does not bound the score).  For the response
    [{"match_score": 1.5}] the enhanced matcher puts the score 150 on the
    job: [int(1.5 * 100)], neither rejected nor clamped to [0, 100]. *)
Theorem enhanced_score_unbounded_at_1_5 :
  ∃ job', EnhancedJobMatcher.match_job Fragment.runtime
            (Py.Content (Some Examples.response_score_1_5)) Examples.job_dev
          = Py.Ok job'
          ∧ score job' = Some 150
          ∧ ¬ (0 ≤ 150 ≤ 100).
Proof. eexists. split; [vm_compute; reflexivity|]. split; [reflexivity | lia]. Qed.

(** A model call that raises [timeout]. *)
Lemma enhanced_match_job_failure_policy_witness :
  ∃ job', EnhancedJobMatcher.match_job Fragment.runtime (Py.Fails "timeout")
            Examples.job_dev = Py.Ok job'
          ∧ score job' = Some 0
          ∧ reasons job' = Some (Json.Str "Enhanced matching error: timeout").
Proof.
  eexists. split.
  - apply (proj1 (proj2 (enhanced_match_job_failure_policy Fragment.runtime
                           (Py.Fails "timeout") Examples.job_dev)) "timeout").
    reflexivity.
  - split; reflexivity.
Defined.

(** C8 (a failure of the parsing is not stated).  The response
    [not json] does not decode, so parsing raises.  The enhanced matcher
    returns the job with score 0 and the report with four empty lists,
    but with the reasons "No match info": the summary of a report
    without entries, the same text the well-formed response [{}] gets,
    and one that states no error.  On the sibling paths the failure is
    stated: when the model call raises, the same function writes
    "Enhanced matching error: " and the message, and for the same
    response the legacy matcher writes
    "Failed to parse LLM response". *)
Theorem enhanced_parse_failure_reasons_name_no_error :
  (∃ msg, EnhancedJobMatcher.parse_try Fragment.runtime (Some "not json")
          = Py.Raise msg)
  ∧ (∃ job', EnhancedJobMatcher.match_job Fragment.runtime
               (Py.Content (Some "not json")) Examples.job_dev = Py.Ok job'
             ∧ score job' = Some 0
             ∧ enhanced_result job' = Some EnhancedJobMatcher.empty_result
             ∧ reasons job' = Some (Json.Str "No match info")
             ∧ Str.contains "error" (Str.lower "No match info") = false)
  ∧ (∃ job', EnhancedJobMatcher.match_job Fragment.runtime
               (Py.Content (Some "{}")) Examples.job_dev = Py.Ok job'
             ∧ score job' = Some 0
             ∧ reasons job' = Some (Json.Str "No match info"))
  ∧ (∃ job', EnhancedJobMatcher.match_job Fragment.runtime
               (Py.Fails "timeout") Examples.job_dev = Py.Ok job'
             ∧ score job' = Some 0
             ∧ enhanced_result job' = Some EnhancedJobMatcher.empty_result
             ∧ reasons job'
               = Some (Json.Str "Enhanced matching error: timeout"))
  ∧ (∃ job', JobMatcher.match_job Fragment.runtime
               (Py.Content (Some "not json")) Examples.job_dev = Py.Ok job'
             ∧ score job' = Some 0
             ∧ reasons job'
               = Some (Json.Str "Failed to parse LLM response")).
Proof.
  split; [eexists; vm_compute; reflexivity|].
  split; [eexists; split; [vm_compute; reflexivity|]; by repeat split|].
  split; [eexists; split; [vm_compute; reflexivity|]; by repeat split|].
  split; eexists; (split; [vm_compute; reflexivity|]); by repeat split.
Qed.

(** The summary tallies strong, partial and gap entries in that order
    and leaves out a count of zero. *)
Example generate_summary_tally :
  EnhancedJobMatcher._generate_summary
    {| match_score := NFloat (S754_zero false);
       strong_matches := Json.List [Json.Null; Json.Null];
       partial_matches := Json.List [];
       gaps := Json.List [Json.Null];
       cv_suggestions := Json.List [] |}
  = Py.Ok "2 strong match(es), 1 gap(s)".
Proof. reflexivity. Qed.

(* ===================================================================== *)
(** * Further properties of the code *)
(* ===================================================================== *)

(** ** More on strings *)

Section MoreStrFacts.

(** Membership of a one-character needle, character by character. *)
Lemma contains_char_cons (c x : ascii) (s : string) :
  Str.contains (String c "") (String x s)
  = Ascii.eqb c x || Str.contains (String c "") s.
Proof.
  cbn [Str.contains String.prefix].
  destruct (ascii_dec c x) as [->|Hne].
  - rewrite Ascii.eqb_refl. by destruct s.
  - by rewrite (proj2 (Ascii.eqb_neq c x) Hne).
Qed.

Lemma contains_char_app (c : ascii) (a b : string) :
  Str.contains (String c "") (a +:+ b)
  = Str.contains (String c "") a || Str.contains (String c "") b.
Proof.
  induction a as [|x a IH].
  - simpl. by destruct b.
  - change (String x a +:+ b) with (String x (a +:+ b)).
    rewrite !contains_char_cons, IH. by rewrite orb_assoc.
Qed.

Lemma contains_char_elem (c : ascii) (s : string) :
  Str.contains (String c "") s = true ↔ c ∈ list_ascii_of_string s.
Proof.
  induction s as [|x s IH].
  - cbn. split; [done | by intros ?%elem_of_nil].
  - rewrite contains_char_cons, orb_true_iff, IH. cbn [list_ascii_of_string].
    rewrite elem_of_cons, Ascii.eqb_eq. done.
Qed.

Lemma chars_app (a b : string) :
  list_ascii_of_string (a +:+ b)
  = list_ascii_of_string a ++ list_ascii_of_string b.
Proof. induction a as [|x a IH]; simpl; [done | by rewrite IH]. Qed.

(** [strip] only removes characters, and what it returns is stripped. *)
Lemma lstrip_chars (s : string) (c : ascii) :
  c ∈ list_ascii_of_string (Str.lstrip s) → c ∈ list_ascii_of_string s.
Proof.
  induction s as [|x s IH]; simpl; [done|].
  destruct (Str.is_space x); [|done]. intros H. right. by apply IH.
Qed.

Lemma rstrip_chars (s : string) (c : ascii) :
  c ∈ list_ascii_of_string (Str.rstrip s) → c ∈ list_ascii_of_string s.
Proof.
  induction s as [|x s IH]; simpl; [done|].
  destruct (Str.rstrip s) as [|y t].
  - destruct (Str.is_space x); simpl; [by intros ?%elem_of_nil|].
    intros [->|?%elem_of_nil]%elem_of_cons; [by left | done].
  - simpl. intros [->|H]%elem_of_cons; [by left|]. right. by apply IH.
Qed.

Lemma strip_chars (s : string) (c : ascii) :
  c ∈ list_ascii_of_string (Str.strip s) → c ∈ list_ascii_of_string s.
Proof. intros H. by apply lstrip_chars, rstrip_chars. Qed.

Lemma rstrip_cons (c : ascii) (t : string) :
  Str.rstrip (String c t)
  = match Str.rstrip t with
    | EmptyString => if Str.is_space c then EmptyString else String c EmptyString
    | t' => String c t'
    end.
Proof. done. Qed.

Lemma rstrip_idem (s : string) : Str.rstrip (Str.rstrip s) = Str.rstrip s.
Proof.
  induction s as [|x s IH]; [done|]. rewrite rstrip_cons.
  destruct (Str.rstrip s) as [|y t] eqn:Hr.
  - destruct (Str.is_space x) eqn:Hx; [done|]. rewrite rstrip_cons. cbn. by rewrite Hx.
  - rewrite rstrip_cons, IH. done.
Qed.

Lemma lstrip_head (s : string) :
  match Str.lstrip s with
  | EmptyString => True
  | String c _ => Str.is_space c = false
  end.
Proof.
  induction s as [|x s IH]; simpl; [done|].
  destruct (Str.is_space x) eqn:Hx; [done | by simpl].
Qed.

Lemma rstrip_keeps_head (c : ascii) (t : string) :
  Str.is_space c = false → ∃ t', Str.rstrip (String c t) = String c t'.
Proof.
  intros Hc. cbn [Str.rstrip]. destruct (Str.rstrip t); [rewrite Hc|]; eauto.
Qed.

Lemma strip_idem (s : string) : Str.strip (Str.strip s) = Str.strip s.
Proof.
  unfold Str.strip. pose proof (lstrip_head s) as Hh.
  destruct (Str.lstrip s) as [|c t] eqn:Hl; [done|].
  destruct (rstrip_keeps_head c t Hh) as [t' Ht]. rewrite Ht.
  cbn [Str.lstrip]. rewrite Hh, <- Ht. apply rstrip_idem.
Qed.

(** A text of blanks strips to the empty text. *)
Lemma lstrip_blank (s : string) :
  (∀ c, c ∈ list_ascii_of_string s → Str.is_space c = true) → Str.lstrip s = "".
Proof.
  induction s as [|x s IH]; intros H; [done|]. simpl.
  rewrite (H x) by (by left). apply IH. intros c Hc. apply H. by right.
Qed.

Lemma strip_blank (s : string) :
  (∀ c, c ∈ list_ascii_of_string s → Str.is_space c = true) → Str.strip s = "".
Proof. intros H. unfold Str.strip. by rewrite lstrip_blank. Qed.

End MoreStrFacts.

(** ** job_parser.py: addresses *)

Section MoreCleanUrl.

Import JobParser.

Lemma take_while_app_all (f : ascii → bool) (d rest : string) :
  take_while f d = d → take_while f (d +:+ rest) = d +:+ take_while f rest.
Proof.
  induction d as [|c d IH]; simpl; [done|].
  destruct (f c); [|done]. intros [= H]. by rewrite IH.
Qed.

(** The text of a run of digits is digits only. *)
Lemma take_while_all (f : ascii → bool) (s : string) (c : ascii) :
  c ∈ list_ascii_of_string (take_while f s) → f c = true.
Proof.
  induction s as [|x s IH]; simpl; [by intros ?%elem_of_nil|].
  destruct (f x) eqn:Hx; simpl; [|by intros ?%elem_of_nil].
  intros [->|H]%elem_of_cons; [done | by apply IH].
Qed.

(** What the job view pattern matches: the address and one or more
    digits. *)
Lemma match_job_view_shape (s m : string) :
  match_job_view s = Some m →
  ∃ d, m = job_view +:+ d ∧ d ≠ "" ∧ take_while is_digit d = d.
Proof.
  unfold match_job_view.
  destruct (strip_prefix job_view s) as [rest|]; [|done].
  destruct (take_while is_digit rest) as [|c ds] eqn:Hd; [done|].
  intros H. assert (m = job_view +:+ String c ds) as -> by congruence.
  exists (String c ds). split; [done|]. split; [done|].
  by rewrite <- Hd, take_while_idem.
Qed.

Lemma search_job_view_shape (url m : string) :
  search_job_view url = Some m →
  ∃ d, m = job_view +:+ d ∧ d ≠ "" ∧ take_while is_digit d = d.
Proof.
  induction url as [|c url IH]; cbn [search_job_view].
  - destruct (match_job_view "") eqn:H; [|done].
    intros [= <-]. by apply match_job_view_shape in H.
  - destruct (match_job_view (String c url)) eqn:H; [|done].
    intros [= <-]. by apply match_job_view_shape in H.
Qed.

Lemma search_job_view_head (url m : string) :
  match_job_view url = Some m → search_job_view url = Some m.
Proof. intros H. destruct url; cbn [search_job_view]; by rewrite H. Qed.

Lemma digits_no_query (d : string) :
  take_while is_digit d = d → Str.contains "?" d = false.
Proof.
  intros Hd. apply not_true_is_false. intros H.
  change "?" with (String "?"%char "") in H.
  apply contains_char_elem in H. rewrite <- Hd in H.
  by apply take_while_all in H.
Qed.

Lemma before_query_no_query (url : string) :
  Str.contains "?" (before_query url) = false.
Proof.
  unfold before_query.
  destruct (split_head "?" url) as (w & ws & rest & Hs & _ & Hc).
  by rewrite Hs.
Qed.

End MoreCleanUrl.

Section MoreCleanUrlClaims.

Import JobParser.

(** Cleaning removes the query: whatever the address, the result holds
    no question mark. *)
Theorem clean_linkedin_url_drops_query (url : string) :
  Str.contains "?" (_clean_linkedin_url url) = false.
Proof.
  unfold _clean_linkedin_url.
  destruct (String.eqb url ""); [done|].
  destruct (search_job_view url) as [m|] eqn:Hm.
  - apply search_job_view_shape in Hm as (d & -> & _ & Hd).
    change "?" with (String "?"%char "").
    rewrite contains_char_app. by rewrite (digits_no_query d Hd).
  - destruct (Str.startswith url "/comm/jobs/view/").
    + change "?" with (String "?"%char "").
      rewrite contains_char_app. by rewrite (before_query_no_query url).
    + destruct (Str.contains "?" url) eqn:Hq; [|done].
      apply before_query_no_query.
Qed.

(** An absolute job view address is cleaned to the address and its
    digits: whatever follows the digits (a slash, tracking parameters)
    is dropped, so two addresses of the same job that differ after the
    digits get the same link. *)
Theorem clean_linkedin_url_canonical (d rest : string) :
  d ≠ "" → take_while is_digit d = d → take_while is_digit rest = "" →
  _clean_linkedin_url (job_view +:+ d +:+ rest) = job_view +:+ d.
Proof.
  intros Hne Hd Hrest. unfold _clean_linkedin_url.
  assert (Hm : match_job_view (job_view +:+ d +:+ rest) = Some (job_view +:+ d)).
  { unfold match_job_view.
    rewrite (proj2 (strip_prefix_Some job_view _ (d +:+ rest)) eq_refl).
    rewrite take_while_app_all, Hrest, app_empty_r by done.
    by destruct d. }
  rewrite (search_job_view_head _ _ Hm). done.
Qed.

Lemma clean_linkedin_url_canonical_witness :
  _clean_linkedin_url (job_view +:+ "4321" +:+ "/?trackingId=abc&refId=9")
  = job_view +:+ "4321".
Proof.
  apply (clean_linkedin_url_canonical "4321" "/?trackingId=abc&refId=9");
    [discriminate | reflexivity | reflexivity].
Defined.

End MoreCleanUrlClaims.

(** ** job_parser.py: company and location *)

Section MoreCompanyLocation.

Import JobParser.

Lemma strip_prefix_prefix (p s : string) :
  String.prefix p s = true ↔ ∃ r, strip_prefix p s = Some r.
Proof.
  rewrite prefix_app. split; intros [r H]; exists r; by apply strip_prefix_Some.
Qed.

(** The separator does not start inside a text without middle dot that
    is followed by the separator. *)
Lemma sep_dot_not_inside (x : ascii) (c rest : string) :
  Str.contains (String middot "") (String x c) = false →
  String.prefix sep_dot (String x c +:+ sep_dot +:+ rest) = false.
Proof.
  intros Hc. rewrite contains_char_cons in Hc.
  apply orb_false_iff in Hc as [Hx Hc].
  apply not_true_is_false. intros (r & Hr)%prefix_app.
  unfold sep_dot in Hr. destruct c as [|y c]; simpl in Hr.
  - injection Hr as _ Hr _. done.
  - injection Hr as _ Hr _. rewrite contains_char_cons in Hc.
    apply orb_false_iff in Hc as [Hy _]. apply Ascii.eqb_neq in Hy. congruence.
Qed.

Lemma before_sep_dot (c l : string) :
  Str.contains (String middot "") c = false →
  before sep_dot (c +:+ sep_dot +:+ l) = c.
Proof.
  induction c as [|x c IH]; intros Hc.
  - change ("" +:+ sep_dot +:+ l) with (sep_dot +:+ l).
    assert (String.prefix sep_dot (sep_dot +:+ l) = true) as H
      by (apply prefix_app; eauto).
    unfold sep_dot in *. simpl String.append in *. cbn [before]. by rewrite H.
  - pose proof (sep_dot_not_inside x c l Hc) as Hp.
    change (String x c +:+ sep_dot +:+ l) with (String x (c +:+ sep_dot +:+ l)) in *.
    cbn [before]. rewrite Hp. f_equal. apply IH.
    rewrite contains_char_cons in Hc. by apply orb_false_iff in Hc as [_ Hc].
Qed.

Lemma after_sep_dot (c l : string) :
  Str.contains (String middot "") c = false →
  after sep_dot (c +:+ sep_dot +:+ l) = l.
Proof.
  induction c as [|x c IH]; intros Hc.
  - change ("" +:+ sep_dot +:+ l) with (sep_dot +:+ l).
    assert (H : strip_prefix sep_dot (sep_dot +:+ l) = Some l)
      by (by apply strip_prefix_Some).
    unfold sep_dot in *. simpl String.append in *. cbn [after]. by rewrite H.
  - pose proof (sep_dot_not_inside x c l Hc) as Hp.
    change (String x c +:+ sep_dot +:+ l) with (String x (c +:+ sep_dot +:+ l)) in *.
    cbn [after].
    destruct (strip_prefix sep_dot (String x (c +:+ sep_dot +:+ l))) as [r|] eqn:Hs.
    + assert (String.prefix sep_dot (String x (c +:+ sep_dot +:+ l)) = true)
        by (apply strip_prefix_prefix; eauto). congruence.
    + apply IH. rewrite contains_char_cons in Hc.
      by apply orb_false_iff in Hc as [_ Hc].
Qed.

End MoreCompanyLocation.

Section MoreParserFacts.

Import JobParser.

(** What [job_pattern] captures as the address: the job view address
    and the text up to the closing quote, which starts with a digit. *)
Lemma match_job_anchor_shape (s url title rest : string) :
  match_job_anchor s = Some (url, title, rest) →
  ∃ r1, url = job_view +:+ take_while (is_not "034") r1
        ∧ take_while is_digit r1 ≠ "".
Proof.
  unfold match_job_anchor.
  destruct (strip_prefix ("href=" +:+ Str.quote) s) as [r0|]; [|done].
  cbn [mbind option_bind].
  destruct (strip_prefix job_view r0) as [r1|]; [|done].
  cbn [mbind option_bind].
  destruct (take_while is_digit r1) as [|c ds] eqn:Hd; [done|].
  destruct (strip_prefix Str.quote (drop_while (is_not "034") r1)) as [r2|];
    [|done].
  cbn [mbind option_bind].
  destruct (strip_prefix ">" (drop_while (is_not ">") r2)) as [r3|]; [|done].
  cbn [mbind option_bind].
  destruct (take_while (is_not "<") r3) as [|t ts]; [done|].
  destruct (strip_prefix "</a>" (drop_while (is_not "<") r3)) as [r4|]; [|done].
  cbn [mbind option_bind]. intros [= <- _ _].
  exists r1. by rewrite Hd.
Qed.

Lemma findall_job_anchors_shape (skip : nat) (s url title : string) :
  (url, title) ∈ findall_job_anchors skip s →
  ∃ r1, url = job_view +:+ take_while (is_not "034") r1
        ∧ take_while is_digit r1 ≠ "".
Proof.
  revert skip. induction s as [|c s IH]; intros skip; cbn [findall_job_anchors].
  - by intros ?%elem_of_nil.
  - destruct skip as [|k]; [|apply IH].
    destruct (match_job_anchor (String c s)) as [[[u t] rest]|] eqn:Hm; [|apply IH].
    intros [[= -> ->]|H]%elem_of_cons; [|by eapply IH].
    by eapply match_job_anchor_shape.
Qed.

(** Such an address is cleaned to the job view address and its digits. *)
Lemma clean_anchor_url (r1 : string) :
  take_while is_digit r1 ≠ "" →
  ∃ d, d ≠ "" ∧ take_while is_digit d = d
       ∧ _clean_linkedin_url (job_view +:+ take_while (is_not "034") r1)
         = job_view +:+ d.
Proof.
  intros Hd. destruct r1 as [|c r]; [done|]. cbn [take_while] in *.
  destruct (is_digit c) eqn:Hc; [|done].
  assert (Hq : is_not "034" c = true).
  { unfold is_not. destruct (Ascii.eqb_spec c "034") as [->|]; [done | done]. }
  rewrite Hq.
  exists (take_while is_digit (String c (take_while (is_not "034") r))).
  split; [cbn [take_while]; by rewrite Hc|]. split; [apply take_while_idem|].
  unfold _clean_linkedin_url. rewrite (search_job_view_head _ (job_view +:+
    take_while is_digit (String c (take_while (is_not "034") r)))); [done|].
  unfold match_job_view.
  rewrite (proj2 (strip_prefix_Some job_view _
                    (String c (take_while (is_not "034") r))) eq_refl).
  cbn [take_while]. by rewrite Hc.
Qed.

(** Every posting of [_parse_table_format] is the candidate of a
    match. *)
Lemma parse_table_format_candidate (soup : Soup) (j : Job) :
  j ∈ _parse_table_format soup →
  ∃ m, m ∈ findall_job_anchors 0 (html_str soup)
       ∧ table_candidate (html_str soup) m = Some j.
Proof.
  unfold _parse_table_format. rewrite table_loop_as_seen. cbn [app].
  destruct (seen_loop_spec
              (omap (table_candidate (html_str soup))
                 (findall_job_anchors 0 (html_str soup)))
              (set_map Some (∅ : gset string))) as (Hsub & _).
  intros Hj. eapply elem_of_sublist in Hj; [|exact Hsub].
  by apply list_elem_of_omap in Hj.
Qed.

Lemma table_candidate_shape (html url t : string) (j : Job) :
  table_candidate html (url, t) = Some j →
  Str.strip t ≠ ""
  ∧ j = new_job (Str.strip t)
          (_extract_company_location_from_html html (Str.strip t) "").1
          (_extract_company_location_from_html html (Str.strip t) "").2
          (Some (_clean_linkedin_url url)).
Proof.
  unfold table_candidate.
  destruct (String.eqb_spec (Str.strip t) "") as [|Hne]; [done|].
  change (_extract_company_location_from_html html (Str.strip t)
            (_clean_linkedin_url url))
    with (_extract_company_location_from_html html (Str.strip t) "").
  destruct (_extract_company_location_from_html html (Str.strip t) "") as [co lo].
  by intros [= <-].
Qed.

End MoreParserFacts.

Section MoreParserClaims.

Import JobParser.

(** [_parse_company_location] splits at the first separator (a middle
    dot between two spaces) and strips both sides: a company without
    middle dot and any location, written with the separator between
    them, come back stripped; a text without separator is the company,
    with the empty location. *)
Theorem parse_company_location_splits (company location text : string) :
  Str.contains (String middot "") company = false →
  _parse_company_location (company +:+ sep_dot +:+ location)
  = (Str.strip company, Str.strip location)
  ∧ (Str.contains sep_dot text = false →
     _parse_company_location text = (Str.strip text, "")).
Proof.
  intros Hc. split.
  - unfold _parse_company_location.
    rewrite (proj2 (contains_spec sep_dot (company +:+ sep_dot +:+ location)))
      by eauto.
    by rewrite before_sep_dot, after_sep_dot.
  - intros Hs. unfold _parse_company_location. by rewrite Hs.
Qed.

Lemma parse_company_location_splits_witness :
  _parse_company_location ("Firemind" +:+ sep_dot +:+ "Finland (Hybrid)")
  = ("Firemind", "Finland (Hybrid)").
Proof.
  apply (parse_company_location_splits "Firemind" "Finland (Hybrid)" "").
  reflexivity.
Defined.

(** What the table strategy emits: a posting with a title that is not
    empty and has no blank at either end, a link that is the job view
    address followed by digits only, an empty description, and no score,
    reasons, requirements or report yet. *)
Theorem parse_table_format_postings (soup : Soup) (j : Job) :
  j ∈ _parse_table_format soup →
  title j ≠ "" ∧ Str.strip (title j) = title j
  ∧ (∃ d, d ≠ "" ∧ take_while is_digit d = d ∧ link j = Some (job_view +:+ d))
  ∧ desc j = "" ∧ score j = None ∧ reasons j = None
  ∧ requirements j = None ∧ enhanced_result j = None.
Proof.
  intros ([url t] & Hm & Hc)%parse_table_format_candidate.
  apply table_candidate_shape in Hc as [Hne ->].
  apply findall_job_anchors_shape in Hm as (r1 & -> & Hd).
  destruct (clean_anchor_url r1 Hd) as (d & Hd1 & Hd2 & ->).
  cbn [new_job title link desc score reasons requirements enhanced_result].
  split; [done|]. split; [apply strip_idem|]. split; [eauto|]. done.
Qed.

Lemma parse_table_format_postings_witness :
  link (new_job "Dev" "Acme" "Oulu"
          (Some "https://www.linkedin.com/comm/jobs/view/1"))
  = Some "https://www.linkedin.com/comm/jobs/view/1"
  ∧ title (new_job "Dev" "Acme" "Oulu"
             (Some "https://www.linkedin.com/comm/jobs/view/1")) ≠ "".
Proof.
  destruct (parse_table_format_postings
              {| html_str := Examples.html_blank_then_dev; job_cards := [] |}
              (new_job "Dev" "Acme" "Oulu"
                 (Some "https://www.linkedin.com/comm/jobs/view/1")))
    as (Ht & _).
  - vm_compute. by left.
  - split; [reflexivity | exact Ht].
Defined.

(** The table strategy looks the company and the location up by the
    title alone, at the first place of the document where the title is
    followed by a middle dot: two postings of one document that have the
    same title get the same company and location, whatever their
    links. *)
Theorem parse_table_format_company_by_title (soup : Soup) (j1 j2 : Job) :
  j1 ∈ _parse_table_format soup → j2 ∈ _parse_table_format soup →
  title j1 = title j2 →
  company j1 = company j2 ∧ location j1 = location j2.
Proof.
  intros ([u1 t1] & _ & H1)%parse_table_format_candidate
         ([u2 t2] & _ & H2)%parse_table_format_candidate.
  apply table_candidate_shape in H1 as [_ ->].
  apply table_candidate_shape in H2 as [_ ->].
  cbn [new_job title company location]. by intros ->.
Qed.

End MoreParserClaims.

Lemma parse_table_format_company_by_title_witness :
  let soup := {| JobParser.html_str := Examples.html_same_title;
                 JobParser.job_cards := [] |} in
  JobParser._parse_table_format soup
  = [JobParser.new_job "Dev" "Acme" "Oulu"
       (Some "https://www.linkedin.com/comm/jobs/view/1");
     JobParser.new_job "Dev" "Acme" "Oulu"
       (Some "https://www.linkedin.com/comm/jobs/view/2")]
  ∧ company (JobParser.new_job "Dev" "Acme" "Oulu"
               (Some "https://www.linkedin.com/comm/jobs/view/1"))
    = company (JobParser.new_job "Dev" "Acme" "Oulu"
                 (Some "https://www.linkedin.com/comm/jobs/view/2")).
Proof.
  intros soup. split; [vm_compute; reflexivity|].
  apply (parse_table_format_company_by_title soup).
  - vm_compute. by left.
  - vm_compute. right. by left.
  - reflexivity.
Defined.

(** ** job_parser.py: what the context search returns *)

Section MoreContextFacts.

Import JobParser.

Lemma collapse_noise_chars (in_run : bool) (s : string) (c : ascii) :
  c ∈ list_ascii_of_string (collapse_noise in_run s) →
  is_noise c = false ∨ c = " "%char.
Proof.
  revert in_run. induction s as [|x s IH]; intros in_run; cbn [collapse_noise].
  - by intros ?%elem_of_nil.
  - destruct (is_noise x) eqn:Hx.
    + destruct in_run; [apply IH|]. cbn [list_ascii_of_string].
      intros [->|H]%elem_of_cons; [by right | by eapply IH].
    + cbn [list_ascii_of_string].
      intros [->|H]%elem_of_cons; [by left | by eapply IH].
Qed.

(** A word of [s.split()] is made of characters of the text that are no
    blanks. *)
Lemma words_go_chars (cur s w : string) (c : ascii) :
  w ∈ words_go cur s → c ∈ list_ascii_of_string w →
  c ∈ list_ascii_of_string cur
  ∨ (c ∈ list_ascii_of_string s ∧ Str.is_space c = false).
Proof.
  revert cur. induction s as [|x s IH]; intros cur; cbn [words_go].
  - destruct (String.eqb cur ""); [by intros ?%elem_of_nil|].
    intros ->%list_elem_of_singleton. by left.
  - destruct (Str.is_space x) eqn:Hx.
    + destruct (String.eqb cur "").
      * intros Hw Hc. destruct (IH _ Hw Hc) as [H|[H ?]];
          [by apply elem_of_nil in H|]. right. split; [by right | done].
      * intros [->|Hw]%elem_of_cons Hc; [by left|].
        destruct (IH _ Hw Hc) as [H|[H ?]]; [by apply elem_of_nil in H|].
        right. split; [by right | done].
    + intros Hw Hc. destruct (IH _ Hw Hc) as [H|[H ?]].
      * rewrite chars_app in H. apply elem_of_app in H as [H|H]; [by left|].
        apply list_elem_of_singleton in H as ->. right. split; [by left | done].
      * right. split; [by right | done].
Qed.

(** A text without words is made of blanks. *)
Lemma words_go_nil (cur s : string) :
  words_go cur s = [] →
  cur = "" ∧ ∀ c, c ∈ list_ascii_of_string s → Str.is_space c = true.
Proof.
  revert cur. induction s as [|x s IH]; intros cur; cbn [words_go].
  - destruct (String.eqb_spec cur ""); [|done].
    intros _. split; [done|]. by intros c ?%elem_of_nil.
  - destruct (Str.is_space x) eqn:Hx.
    + destruct (String.eqb_spec cur ""); [|done].
      intros [_ H]%IH. split; [done|].
      intros c [->|Hc]%elem_of_cons; [done | by apply H].
    + intros [H _]%IH. by destruct cur.
Qed.

Lemma before_chars (sep s : string) (c : ascii) :
  c ∈ list_ascii_of_string (before sep s) → c ∈ list_ascii_of_string s.
Proof.
  induction s as [|x s IH]; cbn [before].
  - by destruct (String.prefix sep "").
  - destruct (String.prefix sep (String x s)); [by intros ?%elem_of_nil|].
    cbn [list_ascii_of_string].
    intros [->|H]%elem_of_cons; [by left | right; by apply IH].
Qed.

(** The text before a character does not hold it. *)
Lemma before_char_absent (x : ascii) (s : string) :
  x ∉ list_ascii_of_string (before (String x "") s).
Proof.
  induction s as [|y s IH]; cbn [before String.prefix].
  - by intros ?%elem_of_nil.
  - destruct (ascii_dec x y) as [->|Hne].
    + destruct s; by intros ?%elem_of_nil.
    + cbn [list_ascii_of_string]. intros [->|H]%elem_of_cons; [done | by apply IH].
Qed.

Lemma cut_suffix_chars (location suffix : string) (c : ascii) :
  c ∈ list_ascii_of_string (cut_suffix location suffix) →
  c ∈ list_ascii_of_string location.
Proof.
  unfold cut_suffix. destruct (Str.contains suffix location); [|done].
  intros H. by apply strip_chars, before_chars in H.
Qed.

Lemma cut_suffixes_chars (suffixes : list string) (location : string) (c : ascii) :
  c ∈ list_ascii_of_string (fold_left cut_suffix suffixes location) →
  c ∈ list_ascii_of_string location.
Proof.
  revert location. induction suffixes as [|x l IH]; intros location; [done|].
  cbn [fold_left]. intros H. by apply IH, cut_suffix_chars in H.
Qed.

Lemma join_chars (sep : string) (ws : list string) (c : ascii) :
  c ∈ list_ascii_of_string (Str.join sep ws) →
  c ∈ list_ascii_of_string sep
  ∨ ∃ w, w ∈ ws ∧ c ∈ list_ascii_of_string w.
Proof.
  unfold Str.join. induction ws as [|w ws IH]; cbn [String.concat].
  - by intros ?%elem_of_nil.
  - destruct ws as [|w' ws].
    + intros H. right. exists w. split; [by left | done].
    + rewrite !chars_app. intros [H|[H|H]%elem_of_app]%elem_of_app.
      * right. exists w. split; [by left | done].
      * by left.
      * destruct (IH H) as [?|(v & Hv & ?)]; [by left|].
        right. exists v. split; [by right | done].
Qed.

End MoreContextFacts.

Section MoreContextClaims.

Import JobParser.

(** What [_extract_company_location_from_html] can return.  The company
    is one token: it holds no blank, digit, semicolon, double quote or
    [>], since the text before the middle dot is cut at those and only
    its last word is kept.  The location holds no [<], and no blank
    other than the space. *)
Theorem extracted_company_is_one_token (html title url : string) :
  let r := _extract_company_location_from_html html title url in
  (∀ c, c ∈ list_ascii_of_string r.1 → is_noise c = false)
  ∧ (∀ c, c ∈ list_ascii_of_string r.2 →
          c ≠ "<"%char ∧ (Str.is_space c = true → c = " "%char)).
Proof.
  unfold _extract_company_location_from_html.
  destruct (search_title_context title html) as [match_text|];
    [|split; by intros c ?%elem_of_nil].
  destruct (Str.split middot match_text) as [|part0 [|part1 rest]];
    [split; by intros c ?%elem_of_nil..|].
  cbn zeta. cbn [fst snd]. split.
  - set (X := Str.strip (collapse_noise false
                           (Str.strip (remove_all title part0)))).
    assert (HX : ∀ c, c ∈ list_ascii_of_string X →
                      is_noise c = false ∨ c = " "%char).
    { intros c Hc. apply strip_chars in Hc. by eapply collapse_noise_chars. }
    destruct (last (words X)) as [w|] eqn:Hl; cbn [default].
    + intros c Hc. apply last_Some_elem_of in Hl.
      destruct (words_go_chars "" X w c Hl Hc) as [H|[H Hs]];
        [by apply elem_of_nil in H|].
      destruct (HX c H) as [?| ->]; [done | done].
    + apply last_None in Hl. apply words_go_nil in Hl as [_ Hl].
      assert (X = "") as ->; [|by intros c ?%elem_of_nil].
      unfold X. rewrite <- strip_idem. by apply strip_blank.
  - intros c Hc. apply join_chars in Hc as [Hc|(w & Hw & Hc)].
    + apply list_elem_of_singleton in Hc as ->. done.
    + destruct (words_go_chars "" _ w c Hw Hc) as [H|[H Hs]];
        [by apply elem_of_nil in H|].
      split; [|congruence].
      apply cut_suffixes_chars, strip_chars in H. intros ->.
      by apply before_char_absent in H.
Qed.

End MoreContextClaims.

(** ** filter.py: more on the history and the split *)

Section MoreFilterFacts.

Import JobFilter.

Lemma lower_app (a b : string) :
  Str.lower (a +:+ b) = Str.lower a +:+ Str.lower b.
Proof. induction a as [|x a IH]; simpl; [done | by rewrite IH]. Qed.

Lemma lower_char_idem (c : ascii) :
  Str.lower_char (Str.lower_char c) = Str.lower_char c.
Proof.
  destruct c as [[] [] [] [] [] [] [] []]; vm_compute; reflexivity.
Qed.

Lemma lower_idem (s : string) : Str.lower (Str.lower s) = Str.lower s.
Proof.
  induction s as [|x s IH]; simpl; [done|]. by rewrite lower_char_idem, IH.
Qed.

Lemma filter_none {A} (P : A → Prop) `{∀ x, Decision (P x)} (l : list A) :
  (∀ x, x ∈ l → ¬ P x) → filter P l = [].
Proof.
  induction l as [|x l IH]; intros Hl; [done|].
  rewrite filter_cons, decide_False by (apply Hl; by left).
  apply IH. intros y Hy. apply Hl. by right.
Qed.

(** The history after the loop of [_mark_jobs_as_processed]. *)
Lemma mark_loop_history (jobs : list Job) (h : gset Link) :
  fold_left (λ h job, {[link job]} ∪ h) jobs h
  = h ∪ list_to_set (link <$> jobs).
Proof.
  revert h. induction jobs as [|j jobs IH]; intros h; simpl.
  - set_solver.
  - rewrite IH. set_solver.
Qed.

End MoreFilterFacts.

Section MoreFilterClaims.

Import JobFilter.

(** The seniority test looks at the title without regard to case and
    anywhere in it: a title that is excluded stays excluded when text
    is put before and after it, the test gives the same for a title and
    for its lower-case form, hence the same for two titles that differ
    in case only. *)
Theorem is_senior_role_any_case_any_place (title title' pre post : string) :
  (_is_senior_role title = true →
   _is_senior_role (pre +:+ title +:+ post) = true)
  ∧ _is_senior_role (Str.lower title) = _is_senior_role title
  ∧ (Str.lower title = Str.lower title' →
     _is_senior_role title = _is_senior_role title').
Proof.
  unfold _is_senior_role. split; [|split].
  - intros (k & Hk & a & b & Hab)%any_keyword_in_spec.
    apply any_keyword_in_spec. exists k. split; [done|].
    exists (Str.lower pre +:+ a), (b +:+ Str.lower post).
    rewrite !lower_app, Hab, !app_assoc_str. done.
  - by rewrite lower_idem.
  - by intros ->.
Qed.

(** The split keeps the input order in both lists, and is idempotent:
    split again with the same history, the new jobs are all new. *)
Theorem deduplicate_jobs_idempotent (jobs : list Job) (self : t) (d : Disk) :
  let '(new_jobs, duplicates, self', d') := deduplicate_jobs jobs self d in
  new_jobs `sublist_of` jobs
  ∧ duplicates `sublist_of` jobs
  ∧ deduplicate_jobs new_jobs self' d' = (new_jobs, [], self', d').
Proof.
  unfold deduplicate_jobs, dedup_loop. rewrite !dedup_loop_acc.
  cbn [new_jobs duplicate_jobs app].
  split; [apply sublist_filter|]. split; [apply sublist_filter|].
  rewrite list_filter_filter_r by done.
  rewrite (filter_none (λ j, _is_senior_role (title j) = false
                             ∧ link j ∈ history self)); [done|].
  intros j [[_ Hj] _]%list_elem_of_filter [_ ?]. done.
Qed.

(** The history file holds what was saved: loading after saving gives
    the history of the object that saved, also through a new
    [JobFilter].  After the node [filter_jobs] the history on disk is
    the one found there before and the links of the jobs just returned;
    when none is returned, the file is left as it was. *)
Theorem history_file_round_trip (self : t) (d : Disk) (match_threshold : Z)
  (state : AgentState) :
  _load_history (_save_history self d) = history self
  ∧ history (new match_threshold (_save_history self d)) = history self
  ∧ let '(state', d') := filter_jobs_node match_threshold state d in
    _load_history d'
    = _load_history d ∪ list_to_set (link <$> st_filtered_jobs state')
    ∧ (st_filtered_jobs state' = [] → d' = d).
Proof.
  assert (Hrt : ∀ s, _load_history (_save_history s d) = history s).
  { intros s. unfold _load_history, _save_history. cbn [file].
    apply list_to_set_elements_L. }
  split; [apply Hrt|]. split; [apply Hrt|].
  unfold filter_jobs_node, filter_jobs, new. cbn [threshold history].
  pose proof (filter_loop_history match_threshold (st_jobs state)
                (_load_history d)) as Hh.
  destruct (filter_loop match_threshold (st_jobs state) (_load_history d))
    as [filtered h]. cbn [fst snd] in Hh.
  destruct filtered as [|k ks]; cbn [st_filtered_jobs].
  - split; [set_solver | done].
  - rewrite Hrt. cbn [history]. split; [done | discriminate].
Qed.

(** Without a history file, or with one that cannot be read, the
    history is empty: the node [deduplicate_jobs] finds no duplicate,
    passes every job on that is no senior role, and leaves the disk as
    it is. *)
Theorem missing_history_means_no_duplicates (match_threshold : Z)
  (state : AgentState) (d : Disk) :
  file d = Missing ∨ file d = Unreadable →
  let '(state', _, d') := deduplicate_jobs_node match_threshold state d in
  st_duplicate_jobs state' = []
  ∧ st_jobs state'
    = filter (λ j, _is_senior_role (title j) = false) (st_jobs state)
  ∧ d' = d.
Proof.
  intros Hfile.
  assert (Hh : _load_history d = ∅).
  { unfold _load_history. by destruct Hfile as [-> | ->]. }
  unfold deduplicate_jobs_node, deduplicate_jobs, dedup_loop, new.
  rewrite dedup_loop_acc, Hh. cbn [history new_jobs duplicate_jobs app
    st_jobs st_duplicate_jobs].
  split; [|split; [|done]].
  - apply filter_none. intros j _ [_ ?]. set_solver.
  - apply list_filter_iff. intros j. set_solver.
Qed.

Lemma missing_history_means_no_duplicates_witness :
  let '(state', _, d') :=
    deduplicate_jobs_node 50
      {| st_jobs := [Examples.job_a; Examples.job_b];
         st_duplicate_jobs := []; st_filtered_jobs := [] |}
      Examples.no_file in
  st_duplicate_jobs state' = []
  ∧ st_jobs state'
    = filter (λ j, _is_senior_role (title j) = false)
        [Examples.job_a; Examples.job_b]
  ∧ d' = Examples.no_file.
Proof.
  apply (missing_history_means_no_duplicates 50
           {| st_jobs := [Examples.job_a; Examples.job_b];
              st_duplicate_jobs := []; st_filtered_jobs := [] |}
           Examples.no_file).
  left. reflexivity.
Defined.

(** [_mark_jobs_as_processed] puts the link of every job in the history
    and writes the file once.  From then on none of these jobs passes:
    [filter_jobs] returns nothing for them whatever their scores, and
    the split finds none of them new -- which is why the node
    [deduplicate_jobs] does not mark the jobs it passes on. *)
Theorem mark_jobs_as_processed_blocks (jobs : list Job) (self : t) (d : Disk) :
  let '(self', d') := _mark_jobs_as_processed jobs self d in
  history self' = history self ∪ list_to_set (link <$> jobs)
  ∧ threshold self' = threshold self
  ∧ _load_history d' = history self'
  ∧ writes d' = S (writes d)
  ∧ (filter_jobs jobs self' d').1.1 = []
  ∧ (deduplicate_jobs jobs self' d').1.1.1 = [].
Proof.
  unfold _mark_jobs_as_processed. rewrite mark_loop_history.
  cbn [history threshold].
  split; [done|]. split; [done|].
  split; [unfold _load_history, _save_history; cbn [file history];
          apply list_to_set_elements_L|].
  split; [done|].
  assert (Hin : ∀ j, j ∈ jobs →
                     link j ∈ history self ∪ list_to_set (link <$> jobs)).
  { intros j Hj. apply elem_of_union_r, elem_of_list_to_set,
      list_elem_of_fmap. eauto. }
  split.
  - unfold filter_jobs. cbn [threshold history].
    rewrite filter_loop_nothing; [done|]. intros j Hj _. by apply Hin.
  - unfold deduplicate_jobs, dedup_loop. rewrite dedup_loop_acc.
    cbn [fst new_jobs app history]. apply filter_none.
    intros j Hj [_ Hn]. by apply Hn, Hin.
Qed.

End MoreFilterClaims.

Lemma is_senior_role_any_case_any_place_witness :
  JobFilter._is_senior_role ("Junior " +:+ "Team Lead" +:+ " (m/f)") = true.
Proof.
  apply (proj1 (is_senior_role_any_case_any_place
                  "Team Lead" "" "Junior " " (m/f)")).
  reflexivity.
Defined.

(** ** Fenced code blocks: text after the fence, and a fence left open *)

Section MoreFenceFacts.

Lemma join_cons2 (sep x y : string) (l : list string) :
  Str.join sep (x :: y :: l) = x +:+ sep +:+ Str.join sep (y :: l).
Proof. done. Qed.

(** Splitting what was joined gives the lines back. *)
Lemma split_join (x : string) (l : list string) :
  Forall (λ s, Str.contains Fence.nl s = false) (x :: l) →
  Str.split Str.newline (Str.join Fence.nl (x :: l)) = x :: l.
Proof.
  revert x. induction l as [|y l IH]; intros x Hall.
  - apply Forall_cons in Hall as [Hx _]. by apply split_no_sep.
  - apply Forall_cons in Hall as [Hx Hall]. rewrite join_cons2.
    unfold Fence.nl at 1.
    change (x +:+ String Str.newline "" +:+ Str.join Fence.nl (y :: l))
      with (x +:+ String Str.newline (Str.join Fence.nl (y :: l))).
    rewrite split_app_sep, IH by done. by rewrite split_no_sep.
Qed.

Lemma startswith_join (p x : string) (l : list string) :
  Str.startswith x p = true →
  Str.startswith (Str.join Fence.nl (x :: l)) p = true.
Proof.
  unfold Str.startswith. intros [t ->]%prefix_app. apply prefix_app.
  destruct l as [|y l].
  - by exists t.
  - rewrite join_cons2, app_assoc_str. eauto.
Qed.

(** The loop that looks for the closing fence, when there is none from
    line 1 to line [i]. *)
Lemma end_idx_from_none (i : nat) (lines : list string) :
  (∀ k l, (1 ≤ k ≤ i)%nat → lines !! k = Some l → Str.strip l ≠ Str.fence) →
  Fence.end_idx_from i lines = -1.
Proof.
  induction i as [|i IH]; intros H; [done|]. cbn [Fence.end_idx_from].
  destruct (lines !! S i) as [l|] eqn:Hl.
  - rewrite (proj2 (String.eqb_neq _ _)) by (apply (H (S i)); [lia | done]).
    apply IH. intros k l' Hk. apply H. lia.
  - apply IH. intros k l' Hk. apply H. lia.
Qed.

(** ... and when line [n] is the last one that is a fence. *)
Lemma end_idx_from_found (i n : nat) (lines : list string) (l : string) :
  (1 ≤ n ≤ i)%nat → lines !! n = Some l → Str.strip l = Str.fence →
  (∀ k l', (n < k ≤ i)%nat → lines !! k = Some l' → Str.strip l' ≠ Str.fence) →
  Fence.end_idx_from i lines = Z.of_nat n.
Proof.
  induction i as [|i IH]; intros Hn Hl Hf Hlater; [lia|].
  cbn [Fence.end_idx_from].
  destruct (decide (n = S i)) as [->|Hne].
  - by rewrite Hl, Hf, String.eqb_refl.
  - destruct (lines !! S i) as [l'|] eqn:Hl'.
    + rewrite (proj2 (String.eqb_neq _ _))
        by (apply (Hlater (S i)); [lia | done]).
      apply IH; [lia | done | done |]. intros k l'' Hk. apply Hlater. lia.
    + apply IH; [lia | done | done |]. intros k l'' Hk. apply Hlater. lia.
Qed.

Lemma slice_middle {A} (first : A) (body tail : list A) :
  Str.slice (first :: body ++ tail) 1 (Z.of_nat (S (length body))) = body.
Proof.
  unfold Str.slice, Str.clamp_index.
  replace (length (first :: body ++ tail)) with (S (length body + length tail))
    by (simpl; rewrite length_app; lia).
  destruct (Z.ltb_spec 1 0); [lia|].
  destruct (Z.ltb_spec (Z.of_nat (S (length body))) 0); [lia|].
  destruct tail as [|t tail].
  - rewrite app_nil_r. simpl length. rewrite Nat.add_0_r.
    replace (Z.to_nat (Z.of_nat (S (length body)) `min` (0 `max` 1)))
      with 1%nat by lia.
    replace (Z.to_nat (Z.of_nat (S (length body))
               `min` (0 `max` Z.of_nat (S (length body)))))
      with (S (length body)) by lia.
    replace (S (length body) - 1)%nat with (length body) by lia.
    change (drop 1 (first :: body)) with body. apply firstn_all.
  - replace (Z.to_nat (Z.of_nat (S (length body + length (t :: tail)))
               `min` (0 `max` 1))) with 1%nat by (simpl length; lia).
    replace (Z.to_nat (Z.of_nat (S (length body + length (t :: tail)))
               `min` (0 `max` Z.of_nat (S (length body)))))
      with (S (length body)) by lia.
    replace (S (length body) - 1)%nat with (length body) by lia.
    change (drop 1 (first :: body ++ t :: tail)) with (body ++ t :: tail).
    by rewrite take_app_length.
Qed.

(** [lines[1:-1]] *)
Lemma slice_drop_ends {A} (first : A) (rest : list A) :
  Str.slice (first :: rest) 1 (-1) = removelast rest.
Proof.
  unfold Str.slice, Str.clamp_index. cbn [length].
  destruct (Z.ltb_spec 1 0); [lia|].
  destruct (Z.ltb_spec (-1) 0); [|lia].
  replace (Z.to_nat (Z.of_nat (S (length rest)) `min` (0 `max` 1)))
    with 1%nat by lia.
  replace (Z.to_nat (Z.of_nat (S (length rest))
             `min` (0 `max` (-1 + Z.of_nat (S (length rest))))))
    with (length rest) by lia.
  change (drop 1 (first :: rest)) with rest.
  destruct (decide (rest = [])) as [->|Hne]; [done|].
  destruct (exists_last Hne) as (body & last & ->).
  rewrite removelast_last, length_app. simpl length.
  replace (length body + 1 - 1)%nat with (length body) by lia.
  by rewrite take_app_length.
Qed.

End MoreFenceFacts.

Section MoreFenceClaims.

(** The fence removal of stage A and of the enhanced matcher cuts at
    the last line that is a fence: for a response whose first line
    starts with the fence, the lines between the first line and that
    closing line are what is decoded, and whatever the model wrote after
    the closing line is ignored. *)
Theorem remove_code_block_cuts_at_last_fence (first closing : string)
  (body trailer : list string) :
  Str.startswith first Str.fence = true →
  Forall (λ l, Str.contains Fence.nl l = false)
         (first :: body ++ closing :: trailer) →
  Str.strip closing = Str.fence →
  Forall (λ l, Str.strip l ≠ Str.fence) trailer →
  Fence.remove_code_block
    (Str.join Fence.nl (first :: body ++ closing :: trailer))
  = Str.join Fence.nl body.
Proof.
  intros Hfirst Hall Hclosing Htrailer. unfold Fence.remove_code_block.
  rewrite startswith_join, split_join by done. f_equal.
  assert (Hidx : Fence.end_idx (first :: body ++ closing :: trailer)
                 = Z.of_nat (S (length body))).
  { unfold Fence.end_idx.
    apply (end_idx_from_found _ _ _ closing).
    - simpl. rewrite length_app. simpl. lia.
    - simpl. rewrite lookup_app_r by lia. by rewrite Nat.sub_diag.
    - done.
    - intros k l' Hk Hl'. destruct k as [|k]; [lia|]. simpl in Hl'.
      rewrite lookup_app_r in Hl' by lia.
      destruct (k - length body)%nat as [|m] eqn:Hm; [lia|]. simpl in Hl'.
      rewrite Forall_forall in Htrailer. apply Htrailer.
      by eapply list_elem_of_lookup_2. }
  rewrite Hidx. apply slice_middle.
Qed.

Lemma remove_code_block_cuts_at_last_fence_witness :
  Fence.remove_code_block
    (Str.join Fence.nl
       (("```json" : string) :: ["[]"] ++ "```" :: ["Hope this helps!"]))
  = Str.join Fence.nl ["[]"].
Proof.
  apply (remove_code_block_cuts_at_last_fence "```json" "```" ["[]"]
           ["Hope this helps!"]).
  - reflexivity.
  - repeat constructor.
  - reflexivity.
  - repeat constructor. discriminate.
Defined.

(** A fence that is not closed costs the last line.  The legacy matcher
    drops the first and the last line of every response that starts
    with a fence, whatever the last line is; stage A and the enhanced
    matcher do the same when no line after the first is a fence.  So a
    response of a fence line and one more line leaves the empty text. *)
Theorem remove_code_block_unclosed (first : string) (rest : list string) :
  Str.startswith first Str.fence = true →
  Forall (λ l, Str.contains Fence.nl l = false) (first :: rest) →
  Fence.remove_code_block_legacy (Str.join Fence.nl (first :: rest))
  = Str.join Fence.nl (removelast rest)
  ∧ (Forall (λ l, Str.strip l ≠ Str.fence) rest →
     Fence.remove_code_block (Str.join Fence.nl (first :: rest))
     = Str.join Fence.nl (removelast rest)).
Proof.
  intros Hfirst Hall. split.
  - unfold Fence.remove_code_block_legacy.
    rewrite startswith_join, split_join by done. by rewrite slice_drop_ends.
  - intros Hrest. unfold Fence.remove_code_block.
    rewrite startswith_join, split_join by done.
    rewrite <- slice_drop_ends with (first := first).
    unfold Fence.end_idx. rewrite end_idx_from_none; [done|].
    intros k l Hk Hl. destruct k as [|k]; [lia|]. simpl in Hl.
    rewrite Forall_forall in Hrest. apply Hrest.
    by eapply list_elem_of_lookup_2.
Qed.

Lemma remove_code_block_unclosed_witness :
  Fence.remove_code_block_legacy
    (Str.join Fence.nl (("```json" : string) :: ["{}"]))
  = ""
  ∧ Fence.remove_code_block (Str.join Fence.nl (("```json" : string) :: ["{}"]))
    = "".
Proof.
  destruct (remove_code_block_unclosed "```json" ["{}"]) as [H1 H2].
  - reflexivity.
  - repeat constructor.
  - split; [exact H1|]. apply H2. repeat constructor. discriminate.
Defined.

End MoreFenceClaims.

(** ** jd_extractor.py and matcher.py: the nodes *)

Section MoreNodeFacts.

Context (rt : Py.Runtime).

Lemma extract_step_spec (llm : Job → Py.Reply) (job : Job) :
  ∃ job', extract_step rt llm job = Py.Ok job'
    ∧ same_posting job job'
    ∧ score job' = score job ∧ reasons job' = reasons job
    ∧ enhanced_result job' = enhanced_result job
    ∧ match requirements job with
      | Some (_ :: _) => job' = job
      | _ => ∃ reqs,
               JDExtractor.extract_requirements rt (llm job) job = Py.Ok reqs
               ∧ requirements job' = Some reqs
      end.
Proof.
  assert (Htotal : ∃ reqs,
            JDExtractor.extract_requirements rt (llm job) job = Py.Ok reqs).
  { apply (try_except_total _
      (λ _, [{| category := Json.Str "role"; item := Json.Str (title job);
                level := Json.Str ""; priority := Json.Str "must" |}])). }
  destruct Htotal as [reqs Hreqs].
  unfold extract_step, same_posting.
  destruct (requirements job) as [[|r rs]|] eqn:Hr.
  - rewrite Hreqs. py_run. eexists. split; [done|]. cbn. repeat split; eauto.
  - exists job. by repeat split.
  - rewrite Hreqs. py_run. eexists. split; [done|]. cbn. repeat split; eauto.
Qed.

Lemma enhanced_match_job_spec (reply : Py.Reply) (job : Job) :
  ∃ job', EnhancedJobMatcher.match_job rt reply job = Py.Ok job'
    ∧ same_posting job job' ∧ requirements job' = requirements job
    ∧ is_Some (score job') ∧ is_Some (reasons job')
    ∧ is_Some (enhanced_result job').
Proof.
  unfold EnhancedJobMatcher.match_job.
  destruct (EnhancedJobMatcher.match_try rt reply job) as [job'|msg] eqn:H;
    cbn [Py.try_except].
  - unfold EnhancedJobMatcher.match_try in H.
    apply bind_Ok in H as (content & _ & H).
    apply bind_Ok in H as (result & _ & H).
    apply bind_Ok in H as (s & _ & H).
    apply bind_Ok in H as (summary & _ & H).
    injection H as <-. eexists. split; [done|].
    unfold same_posting. cbn. by repeat split.
  - eexists. split; [done|]. unfold same_posting. cbn. by repeat split.
Qed.

Lemma legacy_match_job_spec (reply : Py.Reply) (job : Job) :
  ∃ job', JobMatcher.match_job rt reply job = Py.Ok job'
    ∧ same_posting job job' ∧ requirements job' = requirements job
    ∧ is_Some (score job') ∧ is_Some (reasons job')
    ∧ enhanced_result job' = enhanced_result job.
Proof.
  unfold JobMatcher.match_job.
  destruct (JobMatcher.match_try rt reply job) as [job'|msg] eqn:H;
    cbn [Py.try_except].
  - unfold JobMatcher.match_try in H.
    apply bind_Ok in H as (content & _ & H).
    apply bind_Ok in H as (result & _ & H).
    injection H as <-. eexists. split; [done|].
    unfold same_posting. cbn. by repeat split.
  - eexists. split; [done|]. unfold same_posting. cbn. by repeat split.
Qed.

End MoreNodeFacts.

Section MoreNodeClaims.

Context (rt : Py.Runtime).

Lemma extract_loop_spec (llm : Job → Py.Reply) (jobs : list Job) :
  ∃ jobs', extract_loop rt llm jobs = Py.Ok jobs'
    ∧ Forall2 (λ job job',
         same_posting job job'
         ∧ score job' = score job ∧ reasons job' = reasons job
         ∧ enhanced_result job' = enhanced_result job
         ∧ match requirements job with
           | Some (_ :: _) => job' = job
           | _ => ∃ reqs,
                    JDExtractor.extract_requirements rt (llm job) job = Py.Ok reqs
                    ∧ requirements job' = Some reqs
           end) jobs jobs'.
Proof.
  induction jobs as [|job jobs (jobs' & IH & Hall)]; [by exists []|].
  cbn [extract_loop].
  destruct (extract_step_spec rt llm job) as (job' & -> & Hjob).
  rewrite IH. py_run. exists (job' :: jobs'). split; [done|].
  by constructor.
Qed.

(** The node of stage A never raises and touches nothing but the
    requirements.  With enhanced matching disabled the state comes back
    as it was.  With it enabled, the jobs come back in the same order
    and number: a job that has a non-empty list of requirements is left
    as it is (no model call is made for it), every other job gets
    exactly what [extract_requirements] returns for it, which may be
    the empty list. *)
Theorem extract_requirements_node_spec (use_enhanced : bool)
  (llm : Job → Py.Reply) (state : JobFilter.AgentState) :
  ∃ state', extract_requirements rt use_enhanced llm state = Py.Ok state'
    ∧ JobFilter.st_duplicate_jobs state' = JobFilter.st_duplicate_jobs state
    ∧ JobFilter.st_filtered_jobs state' = JobFilter.st_filtered_jobs state
    ∧ (if use_enhanced then
         Forall2 (λ job job',
           same_posting job job'
           ∧ score job' = score job ∧ reasons job' = reasons job
           ∧ enhanced_result job' = enhanced_result job
           ∧ match requirements job with
             | Some (_ :: _) => job' = job
             | _ => ∃ reqs,
                      JDExtractor.extract_requirements rt (llm job) job
                      = Py.Ok reqs
                      ∧ requirements job' = Some reqs
             end) (JobFilter.st_jobs state) (JobFilter.st_jobs state')
       else state' = state).
Proof.
  unfold extract_requirements. destruct use_enhanced; cbn [negb].
  - destruct (extract_loop_spec llm (JobFilter.st_jobs state))
      as (jobs' & -> & Hall).
    py_run. eexists. split; [done|]. cbn. by repeat split.
  - by exists state.
Qed.

(** Stage B never raises, keeps the order and the number of the jobs,
    and writes only the score, the reasons and (when enhanced) the
    report: title, company, location, link, description and
    requirements of every job come out as they went in, and every job
    comes out with a score and with reasons -- so the filter never has
    to fall back on its default score. *)
Theorem match_jobs_keeps_postings (use_enhanced : bool) (llm : Job → Py.Reply)
  (jobs : list Job) :
  ∃ out, match_jobs rt use_enhanced llm jobs = Py.Ok out
    ∧ Forall2 (λ job job',
         same_posting job job' ∧ requirements job' = requirements job
         ∧ is_Some (score job') ∧ is_Some (reasons job')
         ∧ (if use_enhanced then is_Some (enhanced_result job')
            else enhanced_result job' = enhanced_result job)) jobs out.
Proof.
  induction jobs as [|job jobs (out & IH & Hall)]; [by exists []|].
  cbn [match_jobs]. rewrite IH. destruct use_enhanced.
  - destruct (enhanced_match_job_spec rt (llm job) job) as (job' & -> & H).
    py_run. exists (job' :: out). split; [done|]. constructor; [|done].
    tauto.
  - destruct (legacy_match_job_spec rt (llm job) job) as (job' & -> & H).
    py_run. exists (job' :: out). split; [done|]. constructor; [|done].
    tauto.
Qed.

(** What the legacy matcher puts on a job.  When the model call raises:
    score 0 and the reasons "Error during matching: " with the message.
    When the call returns and the response cannot be parsed (it does not
    decode, lacks a field, has a score that is no number): score 0 and
    the reasons "Failed to parse LLM response" -- the handler of
    [match_job] is not reached.  Otherwise the parsed score and
    reasons.  Nothing else of the job is written. *)
Theorem legacy_match_job_outcomes (reply : Py.Reply) (job : Job) :
  JobMatcher.match_job rt reply job =
  Py.Ok
    match reply with
    | Py.Fails msg =>
        set_score_reasons job 0 (Json.Str ("Error during matching: " +:+ msg))
    | Py.Content content =>
        match JobMatcher.parse_try rt content with
        | Py.Ok r =>
            set_score_reasons job (JobMatcher.r_score r) (JobMatcher.r_reasons r)
        | Py.Raise _ =>
            set_score_reasons job 0 (Json.Str "Failed to parse LLM response")
        end
    end.
Proof.
  unfold JobMatcher.match_job, JobMatcher.match_try, JobMatcher._parse_response.
  destruct reply as [msg|content]; py_run; [done|].
  by destruct (JobMatcher.parse_try rt content).
Qed.

(** [len()] has no meaning for a number, a boolean or [None]. *)
Lemma len_raises (v : Json.value) :
  (∃ msg, Py.len v = Py.Raise msg) ↔
  match v with
  | Json.Null | Json.Bool _ | Json.Int _ | Json.Float _ => True
  | _ => False
  end.
Proof.
  destruct v; simpl; split; try done; try (intros [msg H]; done); eauto.
Qed.

(** A report in which [strong_matches], [partial_matches] or [gaps] is
    a number, a boolean or null is thrown away as a whole: the summary
    cannot be made, the handler of [match_job] takes over, and the job
    gets score 0, the empty report and reasons that start with
    "Enhanced matching error: " -- whatever [match_score] the model
    gave. *)
Theorem enhanced_unsized_field_discards_report (content : option string)
  (result : EnhancedMatchResult) (job : Job) (m : string) :
  EnhancedJobMatcher._parse_response rt content = Py.Ok result →
  Py.len (strong_matches result) = Py.Raise m
  ∨ Py.len (partial_matches result) = Py.Raise m
  ∨ Py.len (gaps result) = Py.Raise m →
  ∃ msg, EnhancedJobMatcher.match_job rt (Py.Content content) job
         = Py.Ok (EnhancedJobMatcher.fallback job msg).
Proof.
  intros Hparse Hlen.
  unfold EnhancedJobMatcher.match_job, EnhancedJobMatcher.match_try.
  py_run. rewrite Hparse. py_run.
  destruct (EnhancedJobMatcher.legacy_score (match_score result)) as [s|e];
    py_run; [|eauto].
  assert (∃ e, EnhancedJobMatcher._generate_summary result = Py.Raise e)
    as [e ->]; [|py_run; eauto].
  unfold EnhancedJobMatcher._generate_summary.
  destruct (Py.len (strong_matches result)) as [a|e1]; py_run; [|eauto].
  destruct (Py.len (partial_matches result)) as [b|e2]; py_run; [|eauto].
  destruct (Py.len (gaps result)) as [c|e3]; py_run; [|eauto].
  destruct Hlen as [?|[?|?]]; done.
Qed.

(** The path of a response that is in order.  When the response (its
    fence removed) decodes to a JSON object, [match_score] (0 when
    missing) converts to the float [ms], and [strong_matches],
    [partial_matches] and [gaps] are arrays (empty when missing), the
    job gets the score [int(ms * 100)], computed in binary64 and cut
    towards zero, the summary of the three counts as reasons, and the
    report with the arrays as the model sent them. *)
Theorem enhanced_match_job_well_formed (response : string)
  (fields : list (string * Json.value)) (ms : spec_float) (s : Z)
  (sm pm gs : list Json.value) (job : Job) :
  Py.json_loads rt (Fence.remove_code_block (Str.strip response))
    = Some (Json.Dict fields) →
  Py.float rt (default (Json.Int 0) (Json.assoc "match_score" fields)) = Py.Ok ms →
  Py.int_of_float (SFmul Py.prec Py.emax ms Py.float_100) = Py.Ok s →
  default (Json.List []) (Json.assoc "strong_matches" fields) = Json.List sm →
  default (Json.List []) (Json.assoc "partial_matches" fields) = Json.List pm →
  default (Json.List []) (Json.assoc "gaps" fields) = Json.List gs →
  let count (l : list Json.value) (what : string) :=
    match l with
    | [] => []
    | _ :: _ => [Py.str_of_Z (Z.of_nat (length l)) +:+ what]
    end in
  let parts := count sm " strong match(es)" ++ count pm " partial match(es)"
               ++ count gs " gap(s)" in
  EnhancedJobMatcher.match_job rt (Py.Content (Some response)) job =
  Py.Ok {| title := title job; company := company job;
           location := location job; link := link job; desc := desc job;
           score := Some s;
           reasons := Some (Json.Str match parts with
                                     | [] => "No match info"
                                     | _ :: _ => Str.join ", " parts
                                     end);
           requirements := requirements job;
           enhanced_result :=
             Some {| match_score := NFloat ms;
                     strong_matches := Json.List sm;
                     partial_matches := Json.List pm;
                     gaps := Json.List gs;
                     cv_suggestions :=
                       default (Json.List [])
                         (Json.assoc "cv_suggestions" fields) |} |}.
Proof.
  intros Hload Hms Hs Hsm Hpm Hgs count parts.
  unfold EnhancedJobMatcher.match_job, EnhancedJobMatcher.match_try,
    EnhancedJobMatcher._parse_response, EnhancedJobMatcher.parse_try, Py.loads.
  py_run. rewrite Hload. py_run. rewrite Hms. py_run.
  rewrite Hsm, Hpm, Hgs.
  cbn [EnhancedJobMatcher.legacy_score match_score]. rewrite Hs. py_run.
  unfold EnhancedJobMatcher._generate_summary.
  cbn [strong_matches partial_matches gaps]. py_run.
  assert (Hcount : ∀ l what,
            (if Z.of_nat (length l) =? 0 then []
             else [Py.str_of_Z (Z.of_nat (length l)) +:+ what]) = count l what).
  { intros [|x l] what; [done|]. unfold count.
    destruct (Z.eqb_spec (Z.of_nat (length (x :: l))) 0) as [H|]; [|done].
    simpl in H. lia. }
  rewrite !Hcount. fold parts. by destruct parts.
Qed.

End MoreNodeClaims.

(** The response [{"match_score": 0.9, "gaps": 3}]: the score 0.9 is
    lost with the report. *)
Lemma enhanced_unsized_field_discards_report_witness :
  ∃ msg, EnhancedJobMatcher.match_job Fragment.runtime
           (Py.Content (Some Examples.response_gaps_3)) Examples.job_dev
         = Py.Ok (EnhancedJobMatcher.fallback Examples.job_dev msg).
Proof.
  apply (enhanced_unsized_field_discards_report Fragment.runtime
           (Some Examples.response_gaps_3)
           {| match_score := NFloat (Fragment.decimal false 9 (-1));
              strong_matches := Json.List [];
              partial_matches := Json.List [];
              gaps := Json.Int 3;
              cv_suggestions := Json.List [] |}
           Examples.job_dev "object of type 'int' has no len()").
  - vm_compute. reflexivity.
  - right. right. reflexivity.
Defined.

(** The response [{"match_score": 0.29, "strong_matches": ["x"]}]: the
    product 0.29 * 100 is just below 29 in binary64, the score is 28. *)
Lemma enhanced_match_job_well_formed_witness :
  ∃ job', EnhancedJobMatcher.match_job Fragment.runtime
            (Py.Content (Some Examples.response_score_0_29)) Examples.job_dev
          = Py.Ok job'
          ∧ score job' = Some 28
          ∧ reasons job' = Some (Json.Str "1 strong match(es)").
Proof.
  eexists. split.
  - apply (enhanced_match_job_well_formed Fragment.runtime
             Examples.response_score_0_29
             [("match_score", Json.Float (Fragment.decimal false 29 (-2)));
              ("strong_matches", Json.List [Json.Str "x"])]
             (Fragment.decimal false 29 (-2)) 28 [Json.Str "x"] [] []);
      vm_compute; reflexivity.
  - split; reflexivity.
Defined.

(** ** utils.py: paragraph numbers *)

Section ParagraphFacts.

Import CVLoader.

Lemma rstrip_empty_blank (s : string) :
  Str.rstrip s = "" →
  ∀ c, c ∈ list_ascii_of_string s → Str.is_space c = true.
Proof.
  induction s as [|x s IH]; [by intros _ c ?%elem_of_nil|].
  rewrite rstrip_cons. destruct (Str.rstrip s) as [|y t]; [|done].
  destruct (Str.is_space x) eqn:Hx; [|done].
  intros _ c [->|Hc]%elem_of_cons; [done | by apply IH].
Qed.

Lemma lstrip_keeps_nonblank (s : string) (c : ascii) :
  c ∈ list_ascii_of_string s → Str.is_space c = false →
  c ∈ list_ascii_of_string (Str.lstrip s).
Proof.
  induction s as [|x s IH]; [done|]. cbn [Str.lstrip list_ascii_of_string].
  intros [->|Hc]%elem_of_cons Hs.
  - rewrite Hs. by left.
  - destruct (Str.is_space x); [by apply IH | by right].
Qed.

(** A text strips to the empty text exactly when it is made of
    blanks. *)
Lemma strip_empty_blank (s : string) :
  Str.strip s = "" →
  ∀ c, c ∈ list_ascii_of_string s → Str.is_space c = true.
Proof.
  unfold Str.strip. intros H c Hc.
  destruct (Str.is_space c) eqn:Hs; [done|].
  pose proof (lstrip_keeps_nonblank s c Hc Hs) as Hl.
  by rewrite (rstrip_empty_blank _ H c Hl) in Hs.
Qed.

Lemma strip_nonempty (s : string) (c : ascii) :
  c ∈ list_ascii_of_string s → Str.is_space c = false → Str.strip s ≠ "".
Proof.
  intros Hc Hs H. by rewrite (strip_empty_blank s H c Hc) in Hs.
Qed.

Lemma nonblank_char (s : string) :
  Str.strip s ≠ "" →
  ∃ c, c ∈ list_ascii_of_string s ∧ Str.is_space c = false.
Proof.
  induction s as [|x s IH]; [done|].
  destruct (Str.is_space x) eqn:Hx.
  - unfold Str.strip in *. cbn [Str.lstrip]. rewrite Hx.
    intros (c & Hc & Hs)%IH. exists c. split; [by right | done].
  - intros _. exists x. split; [by left | done].
Qed.

(** The pieces of the split are made of characters of the text. *)
Lemma split_blank_lines_chars (skip : nat) (s p : string) (c : ascii) :
  p ∈ split_blank_lines skip s → c ∈ list_ascii_of_string p →
  c ∈ list_ascii_of_string s.
Proof.
  revert skip p. induction s as [|x s IH]; intros skip p;
    cbn [split_blank_lines].
  - by intros ->%list_elem_of_singleton.
  - destruct skip as [|k]; [|intros Hp Hc; right; by eapply IH].
    destruct (if Ascii.eqb x Str.newline then blank_line_end s else None)
      as [r|].
    + intros [->|Hp]%elem_of_cons Hc; [by apply elem_of_nil in Hc|].
      right. by eapply IH.
    + destruct (split_blank_lines 0 s) as [|w ws] eqn:Hsp.
      * intros ->%list_elem_of_singleton [->|Hc]%elem_of_cons;
          [by left | by apply elem_of_nil in Hc].
      * intros [->|Hp]%elem_of_cons Hc.
        -- apply elem_of_cons in Hc as [->|Hc]; [by left|].
           right. apply (IH 0%nat w); [rewrite Hsp; by left | done].
        -- right. apply (IH 0%nat p); [rewrite Hsp; by right | done].
Qed.

(** The loop over paragraphs that are all blank numbers nothing. *)
Lemma number_loop_blank (ps : list string) (acc : list string * Z) :
  (∀ p, p ∈ ps → Str.strip p = "") → fold_left number_step ps acc = acc.
Proof.
  revert acc. induction ps as [|p ps IH]; intros acc H; [done|].
  cbn [fold_left]. unfold number_step at 2. destruct acc as [numbered n].
  rewrite (H p) by (by left). cbn. apply IH. intros q Hq. apply H. by right.
Qed.

(** The loop over paragraphs none of which is blank numbers them all,
    one after the other. *)
Lemma number_loop_all (ps : list string) (numbered : list string) (n : Z) :
  (∀ p, p ∈ ps → Str.strip p ≠ "") →
  fold_left number_step ps (numbered, n)
  = (numbered ++ imap (λ i p, "[Paragraph " +:+ Py.str_of_Z (n + Z.of_nat i)
                               +:+ "] " +:+ Str.strip p) ps,
     n + Z.of_nat (length ps)).
Proof.
  revert numbered n. induction ps as [|p ps IH]; intros numbered n H.
  - cbn. rewrite app_nil_r. f_equal. lia.
  - cbn [fold_left]. unfold number_step at 2.
    rewrite (proj2 (String.eqb_neq _ _)) by (apply H; by left).
    rewrite IH by (intros q Hq; apply H; by right).
    rewrite imap_cons, <- app_assoc. cbn [app length]. f_equal.
    + f_equal. rewrite Z.add_0_r. f_equal. apply imap_ext.
      intros i q _. unfold compose.
      by replace (n + 1 + Z.of_nat i) with (n + Z.of_nat (S i)) by lia.
    + lia.
Qed.

(** After a newline, a line that follows is no part of a separator. *)
Lemma blank_line_end_line (l rest : string) :
  is_line l → blank_line_end (l +:+ rest) = None.
Proof.
  intros [Hnl Hne]. induction l as [|x l IH]; [done|].
  unfold Fence.nl in Hnl. rewrite contains_char_cons in Hnl.
  apply orb_false_iff in Hnl as [Hx Hnl].
  change (String x l +:+ rest) with (String x (l +:+ rest)).
  cbn [blank_line_end]. destruct (Str.is_space x) eqn:Hs; [|done].
  rewrite IH.
  - rewrite Ascii.eqb_sym in Hx. by rewrite Hx.
  - exact Hnl.
  - unfold Str.strip in *. cbn [Str.lstrip] in Hne. by rewrite Hs in Hne.
Qed.

Lemma split_blank_lines_nonempty (skip : nat) (s : string) :
  ∃ w ws, split_blank_lines skip s = w :: ws.
Proof.
  revert skip. induction s as [|x s IH]; intros skip; cbn [split_blank_lines].
  - eauto.
  - destruct skip as [|k]; [|apply IH].
    destruct (if Ascii.eqb x Str.newline then blank_line_end s else None);
      [eauto|].
    destruct (split_blank_lines 0 s); eauto.
Qed.

(** A text without newline is passed over by the split. *)
Lemma split_blank_lines_no_newline (l rest w : string) (ws : list string) :
  Str.contains Fence.nl l = false →
  split_blank_lines 0 rest = w :: ws →
  split_blank_lines 0 (l +:+ rest) = (l +:+ w) :: ws.
Proof.
  intros Hnl Hrest. induction l as [|x l IH]; [done|].
  unfold Fence.nl in Hnl. rewrite contains_char_cons in Hnl.
  apply orb_false_iff in Hnl as [Hx Hnl]. rewrite Ascii.eqb_sym in Hx.
  change (String x l +:+ rest) with (String x (l +:+ rest)).
  cbn [split_blank_lines]. rewrite Hx, IH by done. done.
Qed.

(** The text of a paragraph given by its lines. *)
Lemma join_lines_head (l : string) (ls : list string) :
  ∃ z, Str.join Fence.nl (l :: ls) = l +:+ z.
Proof.
  destruct ls as [|l' ls].
  - exists "". by rewrite app_empty_r.
  - rewrite join_cons2. eauto.
Qed.

Lemma split_blank_lines_paragraph (lines : list string) (rest w : string)
  (ws : list string) :
  lines ≠ [] → Forall is_line lines →
  split_blank_lines 0 rest = w :: ws →
  split_blank_lines 0 (Str.join Fence.nl lines +:+ rest)
  = (Str.join Fence.nl lines +:+ w) :: ws.
Proof.
  intros Hne Hall Hrest. destruct lines as [|l ls]; [done|]. clear Hne.
  revert l Hall. induction ls as [|l' ls IH]; intros l Hall.
  - apply Forall_cons in Hall as [[Hnl _] _].
    by apply split_blank_lines_no_newline.
  - apply Forall_cons in Hall as [[Hnl _] Hall].
    rewrite join_cons2, !app_assoc_str. unfold Fence.nl at 1 3.
    change (String Str.newline "" +:+ Str.join Fence.nl (l' :: ls) +:+ rest)
      with (String Str.newline (Str.join Fence.nl (l' :: ls) +:+ rest)).
    change (String Str.newline "" +:+ Str.join Fence.nl (l' :: ls) +:+ w)
      with (String Str.newline (Str.join Fence.nl (l' :: ls) +:+ w)).
    apply split_blank_lines_no_newline; [done|].
    cbn [split_blank_lines]. rewrite Ascii.eqb_refl.
    destruct (join_lines_head l' ls) as [z Hz].
    rewrite Hz at 1. rewrite app_assoc_str.
    rewrite blank_line_end_line by (by apply Forall_cons in Hall as [? _]).
    by rewrite IH.
Qed.

(** An empty line between two paragraphs is a separator. *)
Lemma split_blank_lines_separator (l rest : string) :
  is_line l →
  split_blank_lines 0 ((Fence.nl +:+ Fence.nl) +:+ l +:+ rest)
  = "" :: split_blank_lines 0 (l +:+ rest).
Proof.
  intros Hl.
  change ((Fence.nl +:+ Fence.nl) +:+ l +:+ rest)
    with (String Str.newline (String Str.newline (l +:+ rest))).
  cbn [split_blank_lines blank_line_end].
  rewrite !blank_line_end_line by done. rewrite !Ascii.eqb_refl.
  change (Str.is_space Str.newline) with true. cbn [String.length].
  replace (S (String.length (l +:+ rest)) - String.length (l +:+ rest))%nat
    with 1%nat by lia.
  done.
Qed.

(** Splitting the text of paragraphs that are separated by one empty
    line gives the paragraphs back. *)
Lemma split_blank_lines_paragraphs (p : list string) (ps : list (list string)) :
  Forall (λ lines, lines ≠ [] ∧ Forall is_line lines) (p :: ps) →
  split_blank_lines 0
    (Str.join (Fence.nl +:+ Fence.nl) (Str.join Fence.nl <$> (p :: ps)))
  = Str.join Fence.nl <$> (p :: ps).
Proof.
  revert p. induction ps as [|q ps IH]; intros p Hall.
  - apply Forall_cons in Hall as [[Hne Hp] _]. cbn.
    rewrite <- (app_empty_r (Str.join Fence.nl p)) at 1.
    rewrite (split_blank_lines_paragraph p "" "" []); [|done..].
    by rewrite app_empty_r.
  - apply Forall_cons in Hall as [[Hne Hp] Hall].
    rewrite !fmap_cons, join_cons2. rewrite <- !fmap_cons.
    assert (Htail : split_blank_lines 0
              ((Fence.nl +:+ Fence.nl)
               +:+ Str.join (Fence.nl +:+ Fence.nl) (Str.join Fence.nl <$> q :: ps))
            = "" :: (Str.join Fence.nl <$> q :: ps)).
    { pose proof (IH q Hall) as IHq.
      apply Forall_cons in Hall as [[Hq Hql] _].
      destruct q as [|l ls]; [done|].
      assert (∃ z, Str.join (Fence.nl +:+ Fence.nl)
                     (Str.join Fence.nl <$> (l :: ls) :: ps) = l +:+ z)
        as [z Hz].
      { destruct (join_lines_head l ls) as [z Hz].
        rewrite fmap_cons. destruct (Str.join Fence.nl <$> ps) as [|y ys].
        - cbn. eauto.
        - rewrite join_cons2, Hz, app_assoc_str. eauto. }
      rewrite Hz in IHq |- *.
      rewrite split_blank_lines_separator
        by (by apply Forall_cons in Hql as [? _]).
      by rewrite IHq. }
    rewrite (split_blank_lines_paragraph p _ "" _ Hne Hp Htail).
    by rewrite app_empty_r.
Qed.

End ParagraphFacts.

Section ParagraphClaims.

Import CVLoader.

(** A CV that is empty or made of blanks gives the empty text: no
    paragraph is numbered. *)
Theorem add_paragraph_numbers_blank (content : string) :
  Str.strip content = "" → _add_paragraph_numbers content = "".
Proof.
  intros Hblank. unfold _add_paragraph_numbers.
  rewrite number_loop_blank; [done|].
  intros p Hp. apply strip_blank. intros c Hc.
  apply (strip_empty_blank content Hblank).
  by eapply split_blank_lines_chars.
Qed.

Lemma add_paragraph_numbers_blank_witness :
  _add_paragraph_numbers (" " +:+ Fence.nl +:+ Fence.nl +:+ " ") = "".
Proof. apply add_paragraph_numbers_blank. reflexivity. Defined.

(** Paragraphs that are separated by one empty line are numbered
    1, 2, 3, ... in their order, each with the blanks at its ends
    removed, and come back separated by one empty line.  A paragraph is
    given by its lines, none of them blank. *)
Theorem add_paragraph_numbers_of_paragraphs (paras : list (list string)) :
  Forall (λ lines, lines ≠ [] ∧ Forall is_line lines) paras →
  _add_paragraph_numbers
    (Str.join (Fence.nl +:+ Fence.nl) (Str.join Fence.nl <$> paras))
  = Str.join (Fence.nl +:+ Fence.nl)
      (imap (λ i lines, "[Paragraph " +:+ Py.str_of_Z (Z.of_nat (S i)) +:+ "] "
                        +:+ Str.strip (Str.join Fence.nl lines)) paras).
Proof.
  intros Hall. destruct paras as [|p ps]; [done|].
  unfold _add_paragraph_numbers.
  rewrite split_blank_lines_paragraphs by done.
  rewrite number_loop_all.
  - cbn [app]. rewrite imap_fmap. f_equal. apply imap_ext.
    intros i lines _. unfold compose.
    by replace (1 + Z.of_nat i) with (Z.of_nat (S i)) by lia.
  - intros t (lines & -> & Hlines)%list_elem_of_fmap.
    rewrite Forall_forall in Hall. destruct (Hall lines Hlines) as [Hne Hl].
    destruct lines as [|l ls]; [done|].
    apply Forall_cons in Hl as [[_ Hl] _].
    apply nonblank_char in Hl as (c & Hc & Hs).
    destruct (join_lines_head l ls) as [z Hz].
    apply (strip_nonempty _ c); [|done].
    rewrite Hz, chars_app. apply elem_of_app. by left.
Qed.

Lemma add_paragraph_numbers_of_paragraphs_witness :
  _add_paragraph_numbers
    (Str.join (Fence.nl +:+ Fence.nl)
       (Str.join Fence.nl <$> [["Jane Doe"; " Engineer"]; ["Python, Rocq "]]))
  = "[Paragraph 1] Jane Doe" +:+ Fence.nl +:+ " Engineer"
    +:+ Fence.nl +:+ Fence.nl +:+ "[Paragraph 2] Python, Rocq".
Proof.
  apply (add_paragraph_numbers_of_paragraphs
           [["Jane Doe"; " Engineer"]; ["Python, Rocq "]]).
  repeat constructor; discriminate.
Defined.

End ParagraphClaims.

(** ** config.py *)

Section ConfigClaims.

Import Config.

Context (rt : Py.Runtime).

(** [NotificationConfig.validate] accepts a configuration exactly when
    the method is gmail or whatsapp and the recipient address is not
    empty: also for whatsapp it is [recipient_email] that is looked
    at. *)
Theorem notification_validate_accepts (self : NotificationConfig.t) :
  NotificationConfig.validate self = Py.Ok tt ↔
  (NotificationConfig.method self = "gmail"
   ∨ NotificationConfig.method self = "whatsapp")
  ∧ NotificationConfig.recipient_email self ≠ "".
Proof.
  unfold NotificationConfig.validate.
  destruct (String.eqb_spec (NotificationConfig.method self) "gmail") as [Hg|Hg],
    (String.eqb_spec (NotificationConfig.method self) "whatsapp") as [Hw|Hw],
    (String.eqb_spec (NotificationConfig.recipient_email self) "") as [He|He];
    cbn; split; try done; try (intros [[?|?] ?]; done); eauto.
Qed.

(** Without [NOTIFICATION_EMAIL] (unset or empty) the configuration is
    never loaded: [AppConfig.from_env] raises, whatever else the
    environment holds.  With the method whatsapp the message names
    [WHATSAPP_TO], which has no part in the test. *)
Theorem app_config_needs_notification_email (env : Env) (found_cv : string) :
  getenv env "NOTIFICATION_EMAIL" "" = "" →
  ∃ msg, AppConfig.from_env rt env found_cv = Py.Raise msg
    ∧ (Str.lower (getenv env "NOTIFICATION_METHOD" "gmail") = "whatsapp" →
       msg = "WHATSAPP_TO is required when using WhatsApp notifications")
    ∧ (Str.lower (getenv env "NOTIFICATION_METHOD" "gmail") = "gmail" →
       msg = "NOTIFICATION_EMAIL is required when using Gmail notifications").
Proof.
  intros Hemail. unfold AppConfig.from_env, NotificationConfig.validate,
    NotificationConfig.from_env.
  cbn [NotificationConfig.method NotificationConfig.recipient_email].
  rewrite Hemail.
  destruct (String.eqb_spec (Str.lower (getenv env "NOTIFICATION_METHOD" "gmail"))
              "gmail") as [Hg|Hg],
    (String.eqb_spec (Str.lower (getenv env "NOTIFICATION_METHOD" "gmail"))
       "whatsapp") as [Hw|Hw]; cbn; eexists; (split; [done|]);
    split; intros ?; congruence.
Qed.

End ConfigClaims.

Lemma app_config_needs_notification_email_witness :
  ∃ msg,
    Config.AppConfig.from_env Fragment.runtime
      ({[ "NOTIFICATION_METHOD" := "WhatsApp";
          "WHATSAPP_TO" := "whatsapp:+3580000000" ]} : Config.Env) "data/cv.txt"
    = Py.Raise msg
    ∧ msg = "WHATSAPP_TO is required when using WhatsApp notifications".
Proof.
  destruct (app_config_needs_notification_email Fragment.runtime
              ({[ "NOTIFICATION_METHOD" := "WhatsApp";
                  "WHATSAPP_TO" := "whatsapp:+3580000000" ]} : Config.Env)
              "data/cv.txt") as (msg & Hmsg & Hw & _).
  - vm_compute. reflexivity.
  - exists msg. split; [exact Hmsg|]. apply Hw. vm_compute. reflexivity.
Defined.

(** ** graph.py: the workflow *)

Section WorkflowFacts.

Import JobFilter.

Context (rt : Py.Runtime).

Lemma Forall2_elem_r {A B} (R : A → B → Prop) (l : list A) (k : list B) (y : B) :
  Forall2 R l k → y ∈ k → ∃ x, x ∈ l ∧ R x y.
Proof.
  induction 1 as [|a b l k Hab Hlk IH]; [by intros ?%elem_of_nil|].
  intros [->|Hy]%elem_of_cons.
  - exists a. split; [by left | done].
  - destruct (IH Hy) as (x & Hx & HR). exists x. split; [by right | done].
Qed.

Lemma same_posting_refl (job : Job) : same_posting job job.
Proof. by repeat split. Qed.

Lemma same_posting_trans (a b c : Job) :
  same_posting a b → same_posting b c → same_posting a c.
Proof. unfold same_posting. intuition congruence. Qed.

Lemma same_postings_trans (l k m : list Job) :
  Forall2 same_posting l k → Forall2 same_posting k m →
  Forall2 same_posting l m.
Proof.
  intros H. revert m. induction H as [|a b l k Hab Hlk IH]; intros m Hm.
  - apply Forall2_nil_inv_l in Hm as ->. constructor.
  - apply Forall2_cons_inv_l in Hm as (c & m' & Hbc & Hk & ->).
    constructor; [by eapply same_posting_trans | by apply IH].
Qed.

(** Every job the loop of [filter_jobs] keeps reaches the threshold. *)
Lemma filter_loop_scores (thr : Z) (jobs : list Job) (h : gset Link) (j : Job) :
  j ∈ (filter_loop thr jobs h).1 → thr ≤ get_score j.
Proof.
  revert h. induction jobs as [|x jobs IH]; intros h.
  - by intros ?%elem_of_nil.
  - rewrite filter_loop_cons. case_bool_decide as Hk; [|apply IH].
    cbn [fst]. intros [->|Hj]%elem_of_cons; [tauto | by eapply IH].
Qed.

(** The node [filter_jobs] in terms of the loop. *)
Lemma filter_jobs_node_loop (thr : Z) (state : AgentState) (d : Disk) :
  let '(state', d') := filter_jobs_node thr state d in
  st_filtered_jobs state' = (filter_loop thr (st_jobs state) (_load_history d)).1
  ∧ st_jobs state' = st_jobs state
  ∧ st_duplicate_jobs state' = st_duplicate_jobs state
  ∧ _load_history d'
    = _load_history d ∪ list_to_set (link <$> st_filtered_jobs state').
Proof.
  unfold filter_jobs_node, filter_jobs, new. cbn [threshold history].
  pose proof (filter_loop_history thr (st_jobs state) (_load_history d)) as Hh.
  destruct (filter_loop thr (st_jobs state) (_load_history d))
    as [filtered h]. cbn [fst snd] in Hh.
  destruct filtered as [|k ks]; cbn [st_filtered_jobs st_jobs st_duplicate_jobs].
  - repeat split. set_solver.
  - repeat split. unfold _load_history at 1, _save_history. cbn [file history].
    by rewrite list_to_set_elements_L.
Qed.

(** One run of the workflow. *)
Lemma workflow_run (thr : Z) (use_enhanced : bool)
  (extract_llm match_llm : Job → Py.Reply) (raw_emails : list JobParser.Soup)
  (d : Disk) :
  let h := _load_history d in
  let parsed := JobParser.parse_jobs raw_emails in
  ∃ state d',
    workflow rt thr use_enhanced extract_llm match_llm raw_emails d
    = Py.Ok (state, d')
    ∧ Forall2 same_posting
        (filter (λ j, _is_senior_role (title j) = false ∧ link j ∉ h) parsed)
        (st_jobs state)
    ∧ Forall (λ j, is_Some (score j)) (st_jobs state)
    ∧ st_duplicate_jobs state
      = filter (λ j, _is_senior_role (title j) = false ∧ link j ∈ h) parsed
    ∧ st_filtered_jobs state = (filter_loop thr (st_jobs state) h).1
    ∧ _load_history d' = h ∪ list_to_set (link <$> st_filtered_jobs state).
Proof.
  intros h parsed. unfold workflow, deduplicate_jobs_node, deduplicate_jobs,
    dedup_loop, new.
  rewrite dedup_loop_acc.
  cbn [history new_jobs duplicate_jobs app st_jobs st_filtered_jobs].
  fold parsed h.
  set (N := filter (λ j, _is_senior_role (title j) = false ∧ link j ∉ h) parsed).
  set (D := filter (λ j, _is_senior_role (title j) = false ∧ link j ∈ h) parsed).
  assert (Hextract : ∃ state2,
    extract_requirements rt use_enhanced extract_llm
      {| st_jobs := N; st_duplicate_jobs := D; st_filtered_jobs := [] |}
    = Py.Ok state2
    ∧ Forall2 same_posting N (st_jobs state2)
    ∧ st_duplicate_jobs state2 = D ∧ st_filtered_jobs state2 = []).
  { unfold extract_requirements.
    destruct use_enhanced; cbn [negb st_jobs st_duplicate_jobs st_filtered_jobs].
    - destruct (extract_loop_spec rt extract_llm N) as (jobs' & -> & Hall).
      py_run. eexists. split; [done|]. cbn. split; [|done].
      eapply Forall2_impl; [exact Hall|]. intros a b Hab. exact (proj1 Hab).
    - eexists. split; [done|]. cbn. split; [|done].
      apply Forall2_same_length_lookup. split; [done|].
      intros i a b Ha Hb. assert (a = b) as -> by congruence.
      apply same_posting_refl. }
  destruct Hextract as (state2 & -> & H2 & HD & HF). py_run.
  assert (Hmatch : ∃ out,
    match_jobs rt use_enhanced match_llm (st_jobs state2) = Py.Ok out
    ∧ Forall2 same_posting (st_jobs state2) out
    ∧ Forall (λ j, is_Some (score j)) out).
  { generalize (st_jobs state2). intros jobs.
    induction jobs as [|job jobs (out & IH & Hall & Hsc)]; [by exists []|].
    cbn [match_jobs]. rewrite IH. destruct use_enhanced.
    - destruct (enhanced_match_job_spec rt (match_llm job) job)
        as (job' & -> & H).
      py_run. exists (job' :: out). split; [done|].
      split; constructor; tauto.
    - destruct (legacy_match_job_spec rt (match_llm job) job)
        as (job' & -> & H).
      py_run. exists (job' :: out). split; [done|].
      split; constructor; tauto. }
  destruct Hmatch as (out & -> & H3 & Hsc). py_run.
  pose proof (filter_jobs_node_loop thr
    {| st_jobs := out; st_duplicate_jobs := st_duplicate_jobs state2;
       st_filtered_jobs := st_filtered_jobs state2 |} d) as Hnode.
  destruct (filter_jobs_node thr _ d) as [state' d'].
  cbn [st_jobs st_duplicate_jobs] in Hnode.
  destruct Hnode as (Hf & Hj & Hd & Hh).
  exists state', d'. split; [done|]. rewrite Hj, Hd, Hf in *.
  split; [|by repeat split].
  by eapply same_postings_trans.
Qed.

End WorkflowFacts.

Section WorkflowClaims.

Import JobFilter.

Context (rt : Py.Runtime).

(** One run of the workflow, from the parsed emails to the jobs that
    are handed to the notifier.  The run never raises, whatever the
    models answer.  The jobs it returns have pairwise different links;
    each reaches the threshold with a score that stage B has set, is no
    senior role, has a link that was not in the history file, and is one
    of the parsed postings (same title, company, location, link and
    description).  Afterwards the history file holds the links it held
    and the links of the returned jobs.  The postings whose link was in
    the history are reported as duplicates, and [jobs] holds the new
    postings only: it is, posting by posting and in the same order, the
    list of the parsed postings that are no senior role and whose link
    was not in the history file (same title, company, location, link
    and description), each with a score. *)
Theorem workflow_filtered_jobs (match_threshold : Z) (use_enhanced : bool)
  (extract_llm match_llm : Job → Py.Reply) (raw_emails : list JobParser.Soup)
  (d : Disk) :
  ∃ state d',
    workflow rt match_threshold use_enhanced extract_llm match_llm raw_emails d
    = Py.Ok (state, d')
    ∧ NoDup (link <$> st_filtered_jobs state)
    ∧ (∀ j, j ∈ st_filtered_jobs state →
         match_threshold ≤ get_score j ∧ is_Some (score j)
         ∧ _is_senior_role (title j) = false
         ∧ (link j ∉ _load_history d)
         ∧ (∃ p, p ∈ JobParser.parse_jobs raw_emails ∧ same_posting p j))
    ∧ st_filtered_jobs state `sublist_of` st_jobs state
    ∧ st_duplicate_jobs state
      = filter (λ j, _is_senior_role (title j) = false
                     ∧ link j ∈ _load_history d)
          (JobParser.parse_jobs raw_emails)
    ∧ length (st_jobs state)
      = length (filter (λ j, _is_senior_role (title j) = false
                             ∧ link j ∉ _load_history d)
                  (JobParser.parse_jobs raw_emails))
    ∧ Forall2 same_posting
        (filter (λ j, _is_senior_role (title j) = false
                      ∧ link j ∉ _load_history d)
           (JobParser.parse_jobs raw_emails))
        (st_jobs state)
    ∧ Forall (λ j, is_Some (score j)) (st_jobs state)
    ∧ _load_history d'
      = _load_history d ∪ list_to_set (link <$> st_filtered_jobs state).
Proof.
  destruct (workflow_run rt match_threshold use_enhanced extract_llm match_llm
              raw_emails d) as (state & d' & Hrun & Hsame & Hsc & Hdup & Hf & Hh).
  exists state, d'. split; [done|]. rewrite Hf in *.
  destruct (filter_loop_fresh match_threshold (st_jobs state) (_load_history d))
    as [Hfresh Hnd].
  pose proof (filter_loop_sublist match_threshold (st_jobs state)
                (_load_history d)) as Hsub.
  split; [done|].
  split; [|split; [done|split; [done|split; [|split; [done|split; [done|done]]]]]].
  - intros j Hj. split; [by eapply filter_loop_scores|].
    assert (Hin : j ∈ st_jobs state) by (by eapply elem_of_sublist).
    split; [rewrite Forall_forall in Hsc; by apply Hsc|].
    destruct (Forall2_elem_r _ _ _ _ Hsame Hin) as (p & Hp & Hpj).
    apply list_elem_of_filter in Hp as [[Hsenior _] Hp].
    destruct Hpj as (Ht & Hrest).
    split; [by rewrite Ht|]. split; [by apply Hfresh|].
    exists p. split; [done|]. by split.
  - symmetry. by eapply Forall2_length.
Qed.

(** No job is handed to the notifier twice.  Take two runs of the
    workflow, the second starting from the history file the first one
    left; the emails, the threshold, the matcher and the answers of the
    models may all differ between the runs.  Then no job the second run
    returns has the link of a job the first run returned, or a link
    that was in the history file before. *)
Theorem workflow_never_notifies_twice
  (thr1 thr2 : Z) (enh1 enh2 : bool)
  (ex1 ma1 ex2 ma2 : Job → Py.Reply) (raw1 raw2 : list JobParser.Soup)
  (d : Disk) :
  ∃ s1 d1 s2 d2,
    workflow rt thr1 enh1 ex1 ma1 raw1 d = Py.Ok (s1, d1)
    ∧ workflow rt thr2 enh2 ex2 ma2 raw2 d1 = Py.Ok (s2, d2)
    ∧ (∀ j1 j2, j1 ∈ st_filtered_jobs s1 → j2 ∈ st_filtered_jobs s2 →
                link j1 ≠ link j2)
    ∧ (∀ j2, j2 ∈ st_filtered_jobs s2 → link j2 ∉ _load_history d)
    ∧ _load_history d ⊆ _load_history d1
    ∧ _load_history d1 ⊆ _load_history d2.
Proof.
  destruct (workflow_run rt thr1 enh1 ex1 ma1 raw1 d)
    as (s1 & d1 & Hrun1 & _ & _ & _ & _ & Hh1).
  destruct (workflow_run rt thr2 enh2 ex2 ma2 raw2 d1)
    as (s2 & d2 & Hrun2 & _ & _ & _ & Hf2 & Hh2).
  exists s1, d1, s2, d2. split; [done|]. split; [done|].
  destruct (filter_loop_fresh thr2 (st_jobs s2) (_load_history d1))
    as [Hfresh _]. rewrite <- Hf2 in Hfresh.
  split; [|split; [|split]].
  - intros j1 j2 H1 H2 Heq. apply (Hfresh j2 H2). rewrite Hh1, <- Heq.
    apply elem_of_union_r, elem_of_list_to_set, list_elem_of_fmap. eauto.
  - intros j2 H2 Hin. apply (Hfresh j2 H2). rewrite Hh1. set_solver.
  - rewrite Hh1. set_solver.
  - rewrite Hh2. set_solver.
Qed.

End WorkflowClaims.

(** ** matcher.py: the product [match_score * 100] in binary64 *)

Section FloatFacts.

(** The number of binary digits of a positive number. *)
Lemma digits2_pos_bounds (m : positive) :
  2 ^ (Z.pos (digits2_pos m) - 1) ≤ Z.pos m < 2 ^ Z.pos (digits2_pos m).
Proof.
  induction m as [m IH|m IH|]; cbn [digits2_pos].
  - rewrite Pos2Z.inj_succ.
    replace (Z.succ (Z.pos (digits2_pos m)) - 1)
      with (Z.succ (Z.pos (digits2_pos m) - 1)) by lia.
    rewrite !Z.pow_succ_r by lia. lia.
  - rewrite Pos2Z.inj_succ.
    replace (Z.succ (Z.pos (digits2_pos m)) - 1)
      with (Z.succ (Z.pos (digits2_pos m) - 1)) by lia.
    rewrite !Z.pow_succ_r by lia. lia.
  - cbn. lia.
Qed.

(** One step of the shift to the right: the mantissa is halved, the
    round bit is the bit that left, the sticky bit collects the rest. *)
Lemma shr_1_spec (m : Z) (r s : bool) :
  0 ≤ m →
  shr_1 {| shr_m := m; shr_r := r; shr_s := s |}
  = {| shr_m := m / 2; shr_r := Z.odd m; shr_s := r || s |}.
Proof.
  intros Hm. rewrite <- Z.div2_div.
  destruct m as [|[p|p|]|]; try done; lia.
Qed.

Lemma shifted_step (M k : Z) (rec : shr_record) :
  0 ≤ M → 0 ≤ k → shifted M k rec → shifted M (k + 1) (shr_1 rec).
Proof.
  intros HM Hk [Hm Hz]. destruct rec as [m r s]. cbn [shr_m shr_r shr_s] in *.
  assert (0 < 2 ^ k) by (apply Z.pow_pos_nonneg; lia).
  rewrite shr_1_spec by (subst m; apply Z.div_pos; lia).
  unfold shifted. cbn [shr_m shr_r shr_s].
  rewrite Z.pow_add_r, Z.pow_1_r by lia. split.
  - subst m. rewrite Z.div_div by lia. done.
  - intros Hmod. apply Z.mod_divide in Hmod; [|lia].
    destruct Hmod as [q Hq].
    assert (M mod 2 ^ k = 0) as Hmodk.
    { apply Z.mod_divide; [lia|]. exists (q * 2). lia. }
    destruct (Hz Hmodk) as [-> ->]. split; [|done].
    subst m. replace M with ((q * 2) * 2 ^ k) by lia.
    rewrite Z.div_mul by lia. rewrite Z.odd_mul. cbn. apply andb_false_r.
Qed.

Lemma shifted_iter (M : Z) (p : positive) (k : Z) (rec : shr_record) :
  0 ≤ M → 0 ≤ k → shifted M k rec →
  shifted M (k + Z.pos p) (SpecFloat.iter_pos shr_1 p rec).
Proof.
  intros HM. revert k rec. induction p as [p IH|p IH|]; intros k rec Hk Hs;
    cbn [SpecFloat.iter_pos].
  - replace (k + Z.pos p~1) with (k + 1 + Z.pos p + Z.pos p) by lia.
    apply IH; [lia|]. apply IH; [lia|]. by apply shifted_step.
  - replace (k + Z.pos p~0) with (k + Z.pos p + Z.pos p) by lia.
    apply IH; [lia|]. by apply IH.
  - by apply shifted_step.
Qed.

(** [shr] by [n] bits (none when [n] is not positive). *)
Lemma shr_spec (M e n : Z) :
  0 ≤ M →
  shifted M (Z.max n 0)
    (shr {| shr_m := M; shr_r := false; shr_s := false |} e n).1
  ∧ (shr {| shr_m := M; shr_r := false; shr_s := false |} e n).2
    = e + Z.max n 0.
Proof.
  intros HM.
  assert (H0 : shifted M 0 {| shr_m := M; shr_r := false; shr_s := false |}).
  { split; [cbn; by rewrite Z.div_1_r | done]. }
  destruct n as [|p|p]; cbn [shr fst snd].
  - split; [done | lia].
  - replace (Z.max (Z.pos p) 0) with (0 + Z.pos p) by lia.
    split; [by apply shifted_iter | lia].
  - split; [done | lia].
Qed.

(** Rounding to nearest even moves the mantissa up by at most one, and
    not at all when nothing was shifted out. *)
Lemma round_nearest_even_bounds (rec : shr_record) :
  shr_m rec ≤ round_nearest_even (shr_m rec) (loc_of_shr_record rec)
            ≤ shr_m rec + 1
  ∧ (shr_r rec = false → shr_s rec = false →
     round_nearest_even (shr_m rec) (loc_of_shr_record rec) = shr_m rec).
Proof.
  destruct rec as [m [] []]; cbn; try destruct (Z.even m); split; try done; lia.
Qed.

(** Bits enough for a number below [100 * 2 ^ k]. *)
Lemma digits_below_100 (m : positive) (k : Z) :
  0 ≤ k → Z.pos m ≤ 100 * 2 ^ k → Z.pos (digits2_pos m) ≤ k + 7.
Proof.
  intros Hk Hm. destruct (digits2_pos_bounds m) as [Hlo _].
  assert (0 < 2 ^ k) by (apply Z.pow_pos_nonneg; lia).
  assert (Hlt : 2 ^ (Z.pos (digits2_pos m) - 1) < 2 ^ (k + 7)).
  { rewrite (Z.pow_add_r 2 k 7) by lia. change (2 ^ 7) with 128. lia. }
  apply Z.pow_lt_mono_r_iff in Hlt; lia.
Qed.

Lemma fexp_below_100 (d e : Z) :
  e ≤ -46 → d + e ≤ 7 → fexp Py.prec Py.emax (d + e) ≤ -46.
Proof. unfold fexp, emin, Py.prec, Py.emax. lia. Qed.

(** The heart of [int(x * 100)]: a product that is at most 100 is
    rounded to a float that is at most 100, and cut to an integer that
    is at most 100. *)
Lemma round_to_score (M : positive) (a : Z) :
  46 ≤ a → Z.pos M ≤ 100 * 2 ^ a →
  ∃ z, Py.int_of_float
         (binary_round_aux Py.prec Py.emax false (Z.pos M) (- a) loc_Exact)
       = Py.Ok z ∧ 0 ≤ z ≤ 100.
Proof.
  intros Ha HM. unfold binary_round_aux, shr_fexp. cbn [shr_record_of_loc].
  set (n1 := fexp Py.prec Py.emax (Zdigits2 (Z.pos M) + - a) - - a).
  destruct (shr_spec (Z.pos M) (- a) n1) as [[Hm1 Hz1] He1]; [lia|].
  destruct (shr {| shr_m := Z.pos M; shr_r := false; shr_s := false |} (- a) n1)
    as [rec1 e1]. cbn [fst snd] in Hm1, Hz1, He1.
  destruct (round_nearest_even_bounds rec1) as [Hr1 Hr2].
  set (m2 := round_nearest_even (shr_m rec1) (loc_of_shr_record rec1)) in *.
  (* the exponent after the first shift *)
  assert (Hn1 : Z.max n1 0 ≤ a - 46).
  { pose proof (digits_below_100 M a ltac:(lia) HM) as Hd.
    pose proof (fexp_below_100 (Z.pos (digits2_pos M)) (- a)
                  ltac:(lia) ltac:(lia)) as Hf.
    unfold n1. cbn [Zdigits2]. lia. }
  set (n := Z.max n1 0) in *.
  assert (Hn0 : 0 ≤ n) by (unfold n; lia).
  assert (Hpn : 0 < 2 ^ n) by (apply Z.pow_pos_nonneg; lia).
  set (k1 := a - n).
  assert (Hpk1 : 0 < 2 ^ k1) by (apply Z.pow_pos_nonneg; unfold k1; lia).
  assert (Hsplit : 2 ^ a = 2 ^ k1 * 2 ^ n).
  { rewrite <- Z.pow_add_r by (unfold k1; lia). f_equal. unfold k1. lia. }
  (* the mantissa after rounding *)
  assert (Hm1' : 0 ≤ shr_m rec1 ≤ 100 * 2 ^ k1).
  { rewrite Hm1. split; [apply Z.div_pos; lia|].
    apply Z.div_le_upper_bound; [lia|]. rewrite Hsplit in HM. lia. }
  assert (Hm2 : 0 ≤ m2 ≤ 100 * 2 ^ k1).
  { split; [lia|].
    destruct (Z.eq_dec (shr_m rec1) (100 * 2 ^ k1)) as [Heq|Hne]; [|lia].
    rewrite Hr2; [lia| |].
    - apply Hz1. rewrite Hm1 in Heq.
      pose proof (Z.mul_div_le (Z.pos M) (2 ^ n) Hpn) as Hle.
      assert (Z.pos M = 100 * 2 ^ k1 * 2 ^ n) as -> by (rewrite Hsplit in HM; lia).
      apply Z.mod_mul. lia.
    - apply Hz1. rewrite Hm1 in Heq.
      pose proof (Z.mul_div_le (Z.pos M) (2 ^ n) Hpn) as Hle.
      assert (Z.pos M = 100 * 2 ^ k1 * 2 ^ n) as -> by (rewrite Hsplit in HM; lia).
      apply Z.mod_mul. lia. }
  (* the second shift *)
  set (n2 := fexp Py.prec Py.emax (Zdigits2 m2 + e1) - e1).
  destruct (shr_spec m2 e1 n2) as [[Hm3 _] He2]; [lia|].
  destruct (shr {| shr_m := m2; shr_r := false; shr_s := false |} e1 n2)
    as [rec2 e2]. cbn [fst snd] in Hm3, He2.
  assert (He1' : e1 = - k1) by (unfold k1; lia).
  assert (Hn2 : Z.max n2 0 ≤ k1 - 46).
  { assert (Hd : Zdigits2 m2 + e1 ≤ 7).
    { destruct m2 as [|p|p] eqn:Hp; cbn [Zdigits2]; [lia| |lia].
      pose proof (digits_below_100 p k1 ltac:(unfold k1; lia) ltac:(lia)). lia. }
    pose proof (fexp_below_100 (Zdigits2 m2) e1 ltac:(unfold k1 in *; lia) Hd).
    unfold n2. unfold k1 in *. lia. }
  set (n' := Z.max n2 0) in *.
  assert (Hn'0 : 0 ≤ n') by (unfold n'; lia).
  assert (Hpn' : 0 < 2 ^ n') by (apply Z.pow_pos_nonneg; lia).
  set (k2 := k1 - n').
  assert (Hk2 : 46 ≤ k2) by (unfold k2; lia).
  assert (Hpk2 : 0 < 2 ^ k2) by (apply Z.pow_pos_nonneg; lia).
  assert (Hsplit2 : 2 ^ k1 = 2 ^ k2 * 2 ^ n').
  { rewrite <- Z.pow_add_r by lia. f_equal. unfold k2. lia. }
  assert (Hm3' : 0 ≤ shr_m rec2 ≤ 100 * 2 ^ k2).
  { rewrite Hm3. split; [apply Z.div_pos; lia|].
    apply Z.div_le_upper_bound; [lia|]. rewrite Hsplit2 in Hm2. lia. }
  assert (He2' : e2 = - k2) by (unfold k2; lia).
  destruct (shr_m rec2) as [|m3|m3] eqn:Hrec2; [| |lia].
  - exists 0. split; [done | lia].
  - rewrite (proj2 (Z.leb_le e2 (Py.emax - Py.prec)))
      by (unfold Py.emax, Py.prec; lia).
    cbn [Py.int_of_float].
    rewrite (proj2 (Z.leb_gt 0 e2)) by lia.
    eexists. split; [done|]. rewrite He2', Z.opp_involutive.
    split; [apply Z.div_pos; lia|].
    apply Z.div_le_upper_bound; lia.
Qed.

Lemma float_100_eq : Py.float_100 = S754_finite false 7036874417766400 (-46).
Proof. vm_compute. reflexivity. Qed.

(** A float between 0 and 1, as IEEE comparison has it: a zero, or a
    positive mantissa [m] with an exponent [e] such that
    [m * 2 ^ e <= 1]. *)
Lemma unit_float_shape (ms : spec_float) :
  valid_binary Py.prec Py.emax ms = true →
  SFleb float_0 ms = true → SFleb ms float_1 = true →
  (∃ s, ms = S754_zero s)
  ∨ (∃ m e, ms = S754_finite false m e ∧ e ≤ 0 ∧ Z.pos m ≤ 2 ^ (- e)).
Proof.
  intros Hvalid H0 H1.
  assert (Hone : float_1 = S754_finite false 4503599627370496 (-52))
    by (vm_compute; reflexivity).
  rewrite Hone in H1. unfold float_0 in H0. clear Hone.
  destruct ms as [s|s| |s m e].
  - left. by exists s.
  - destruct s; [cbv in H0 | cbv in H1]; discriminate.
  - cbv in H0. discriminate.
  - right. destruct s; [cbv in H0; discriminate|]. exists m, e.
    split; [reflexivity|].
    cbn [valid_binary] in Hvalid. unfold bounded, canonical_mantissa in Hvalid.
    apply andb_true_iff in Hvalid as [Hc _]. apply Z.eqb_eq in Hc.
    assert (Hd : Z.pos (digits2_pos m) ≤ 53).
    { unfold fexp, emin, Py.prec, Py.emax in Hc. lia. }
    destruct (digits2_pos_bounds m) as [_ Hhi].
    assert (Hm53 : Z.pos m < 2 ^ 53).
    { eapply Z.lt_le_trans; [exact Hhi|]. apply Z.pow_le_mono_r; lia. }
    unfold SFleb in H1. cbn [SFcompare] in H1.
    destruct (Z.compare_spec e (-52)) as [->|Hlt|Hgt]; [| |discriminate].
    + split; [clear; lia|].
      assert (Hp : 2 ^ (- -52) = 4503599627370496) by (vm_compute; reflexivity).
      rewrite Hp.
      destruct (Pos.compare_cont Eq m 4503599627370496) eqn:Hcmp;
        [| |discriminate].
      * apply Pos.compare_eq in Hcmp. clear - Hcmp. lia.
      * apply Z.lt_le_incl, Pos2Z.pos_lt_pos.
        exact (proj1 (Pos.compare_lt_iff m 4503599627370496) Hcmp).
    + split; [clear - Hlt; lia|].
      apply Z.lt_le_incl. eapply Z.lt_le_trans; [exact Hm53|].
      apply Z.pow_le_mono_r; clear - Hlt; lia.
Qed.

(** [int(x * 100)] for a float [x] between 0 and 1 lies between 0 and
    100. *)
Lemma legacy_score_unit (ms : spec_float) :
  valid_binary Py.prec Py.emax ms = true →
  SFleb float_0 ms = true → SFleb ms float_1 = true →
  ∃ s, EnhancedJobMatcher.legacy_score (NFloat ms) = Py.Ok s ∧ 0 ≤ s ≤ 100.
Proof.
  intros Hvalid H0 H1. cbn [EnhancedJobMatcher.legacy_score].
  rewrite float_100_eq.
  destruct (unit_float_shape ms Hvalid H0 H1) as [[s ->]|(m & e & -> & He & Hm)].
  - exists 0. split; [done | lia].
  - cbn [SFmul xorb]. replace (e + -46) with (- (46 - e)) by lia.
    apply round_to_score; [lia|].
    rewrite Pos2Z.inj_mul.
    replace (46 - e) with (- e + 46) by lia.
    rewrite Z.pow_add_r by lia. change (2 ^ 46) with 70368744177664.
    assert (0 < 2 ^ (- e)) by (apply Z.pow_pos_nonneg; lia). nia.
Qed.

End FloatFacts.

(** ** matcher.py: responses that are no object, scores that are no number *)

Section MoreMatcherClaims.

Context (rt : Py.Runtime).

(** A response that decodes, but not to a JSON object (an array, a
    string, a number, true, false, null), is a parse failure in both
    matchers: the legacy parser returns score 0 with the reasons
    "Failed to parse LLM response" (also for a string or an array that
    holds the words score and reasons), the enhanced parser returns the
    empty report. *)
Theorem non_object_response_is_parse_failure (response : string)
  (v : Json.value) :
  (∀ fields, v ≠ Json.Dict fields) →
  (Py.json_loads rt (Fence.remove_code_block_legacy (Str.strip response))
     = Some v →
   JobMatcher._parse_response rt (Some response)
   = Py.Ok {| JobMatcher.r_score := 0;
              JobMatcher.r_reasons := Json.Str "Failed to parse LLM response" |})
  ∧ (Py.json_loads rt (Fence.remove_code_block (Str.strip response)) = Some v →
     EnhancedJobMatcher._parse_response rt (Some response)
     = Py.Ok EnhancedJobMatcher.empty_result).
Proof.
  intros Hv. split; intros Hl.
  - unfold JobMatcher._parse_response, JobMatcher.parse_try, Py.loads.
    py_run. rewrite Hl. py_run.
    destruct v as [| | | |s|l|fields]; py_run; try done.
    + destruct (Str.contains "score" s); py_run; [|done].
      destruct (Str.contains "reasons" s); py_run; done.
    + destruct (existsb _ l); py_run; [|done].
      destruct (existsb _ l); py_run; done.
    + by destruct (Hv fields).
  - unfold EnhancedJobMatcher._parse_response, EnhancedJobMatcher.parse_try,
      Py.loads.
    py_run. rewrite Hl. py_run.
    destruct v as [| | | |s|l|fields]; py_run; try done.
    by destruct (Hv fields).
Qed.

(** A [match_score] that is no finite number (NaN, Infinity,
    -Infinity: [json.loads] accepts them) cannot be turned into a score:
    [int()] raises, the handler of [match_job] takes over, and the job
    gets score 0, the empty report and the error reasons. *)
Theorem enhanced_non_finite_score_is_error (content : option string)
  (result : EnhancedMatchResult) (ms : spec_float) (job : Job) :
  EnhancedJobMatcher._parse_response rt content = Py.Ok result →
  match_score result = NFloat ms →
  ms = S754_nan ∨ (∃ s, ms = S754_infinity s) →
  EnhancedJobMatcher.match_job rt (Py.Content content) job
  = Py.Ok (EnhancedJobMatcher.fallback job
             match ms with
             | S754_nan => "cannot convert float NaN to integer"
             | _ => "cannot convert float infinity to integer"
             end).
Proof.
  intros Hparse Hms Hnf.
  unfold EnhancedJobMatcher.match_job, EnhancedJobMatcher.match_try.
  py_run. rewrite Hparse. py_run. rewrite Hms.
  cbn [EnhancedJobMatcher.legacy_score]. rewrite float_100_eq.
  by destruct Hnf as [->|[s ->]].
Qed.

(** The score is in range when the model keeps to the range.  When
    the [match_score] of the parsed report lies between 0 and 1 (a
    float of binary64 that IEEE comparison puts between 0.0 and 1.0, or
    the int 0 or 1), [int(match_score * 100)] does not raise and lies
    between 0 and 100, although the product is rounded before it is
    cut; the score [match_job] puts on the job is that number, or 0
    when making the summary raises. *)
Theorem enhanced_score_in_range_on_unit_interval (content : option string)
  (result : EnhancedMatchResult) (job : Job) :
  EnhancedJobMatcher._parse_response rt content = Py.Ok result →
  in_unit_interval (match_score result) →
  ∃ s job',
    EnhancedJobMatcher.legacy_score (match_score result) = Py.Ok s
    ∧ 0 ≤ s ≤ 100
    ∧ EnhancedJobMatcher.match_job rt (Py.Content content) job = Py.Ok job'
    ∧ score job' = Some match EnhancedJobMatcher._generate_summary result with
                        | Py.Ok _ => s
                        | Py.Raise _ => 0
                        end.
Proof.
  intros Hparse Hunit.
  assert (Hs : ∃ s, EnhancedJobMatcher.legacy_score (match_score result)
                    = Py.Ok s ∧ 0 ≤ s ≤ 100).
  { destruct (match_score result) as [z|ms]; cbn [in_unit_interval] in Hunit.
    - exists (z * 100). split; [done | lia].
    - destruct Hunit as (Hvalid & H0 & H1). by apply legacy_score_unit. }
  destruct Hs as (s & Hs & Hrange).
  unfold EnhancedJobMatcher.match_job, EnhancedJobMatcher.match_try.
  py_run. rewrite Hparse. py_run. rewrite Hs. py_run.
  destruct (EnhancedJobMatcher._generate_summary result) as [summary|e];
    py_run; eexists s, _; (split; [done|]); (split; [done|]); by split.
Qed.

End MoreMatcherClaims.

Lemma non_object_response_is_parse_failure_witness :
  JobMatcher._parse_response Fragment.runtime (Some Examples.response_array)
  = Py.Ok {| JobMatcher.r_score := 0;
             JobMatcher.r_reasons := Json.Str "Failed to parse LLM response" |}.
Proof.
  apply (proj1 (non_object_response_is_parse_failure Fragment.runtime
                  Examples.response_array
                  (Json.List [Json.Str "score"; Json.Str "reasons"])
                  ltac:(discriminate))).
  vm_compute. reflexivity.
Defined.

Lemma enhanced_non_finite_score_is_error_witness :
  EnhancedJobMatcher.match_job Fragment.runtime
    (Py.Content (Some Examples.response_score_nan)) Examples.job_dev
  = Py.Ok (EnhancedJobMatcher.fallback Examples.job_dev
             "cannot convert float NaN to integer").
Proof.
  apply (enhanced_non_finite_score_is_error Fragment.runtime
           (Some Examples.response_score_nan)
           {| match_score := NFloat S754_nan;
              strong_matches := Json.List [];
              partial_matches := Json.List [];
              gaps := Json.List [];
              cv_suggestions := Json.List [] |}
           S754_nan Examples.job_dev).
  - vm_compute. reflexivity.
  - reflexivity.
  - left. reflexivity.
Defined.

(** The response [{"match_score": 0.29, "strong_matches": ["x"]}]: 0.29
    lies between 0.0 and 1.0, and the score is 28. *)
Lemma enhanced_score_in_range_on_unit_interval_witness :
  let result := {| match_score := NFloat (Fragment.decimal false 29 (-2));
                   strong_matches := Json.List [Json.Str "x"];
                   partial_matches := Json.List [];
                   gaps := Json.List [];
                   cv_suggestions := Json.List [] |} in
  ∃ s job',
    EnhancedJobMatcher.legacy_score (match_score result) = Py.Ok s
    ∧ 0 ≤ s ≤ 100
    ∧ EnhancedJobMatcher.match_job Fragment.runtime
        (Py.Content (Some Examples.response_score_0_29)) Examples.job_dev
      = Py.Ok job'
    ∧ score job' = Some match EnhancedJobMatcher._generate_summary result with
                        | Py.Ok _ => s
                        | Py.Raise _ => 0
                        end.
Proof.
  intros result.
  apply (enhanced_score_in_range_on_unit_interval Fragment.runtime
           (Some Examples.response_score_0_29) result Examples.job_dev).
  - vm_compute. reflexivity.
  - vm_compute. by repeat split.
Defined.

(** ** filter.py: the threshold *)

Section ThresholdClaims.

Import JobFilter.

(** Raising the threshold never brings a new link in: for two filters
    with the same history, every link returned at the higher threshold
    is also returned at the lower one (possibly on another job with
    that link). *)
Theorem filter_jobs_threshold_monotone (jobs : list Job) (low high : t)
  (d : Disk) (j : Job) :
  threshold low ≤ threshold high → history low = history high →
  j ∈ (filter_jobs jobs high d).1.1 →
  ∃ j', j' ∈ (filter_jobs jobs low d).1.1 ∧ link j' = link j.
Proof.
  intros Hthr Hh Hj.
  assert (Hfst : ∀ self, (filter_jobs jobs self d).1.1
                         = (filter_loop (threshold self) jobs (history self)).1).
  { intros self. unfold filter_jobs.
    destruct (filter_loop (threshold self) jobs (history self)) as [f h].
    by destruct f. }
  rewrite Hfst in *.
  destruct (filter_loop_fresh (threshold high) jobs (history high)) as [Hfresh _].
  pose proof (filter_loop_scores (threshold high) jobs (history high) j Hj) as Hs.
  pose proof (elem_of_sublist _ _ _ Hj
                (filter_loop_sublist (threshold high) jobs (history high))) as Hin.
  pose proof (filter_loop_per_link (threshold low) jobs (history low) (link j))
    as Hper.
  rewrite decide_False in Hper by (rewrite Hh; by apply Hfresh).
  assert (Hj' : j ∈ filter (λ x, link x = link j ∧ threshold low ≤ get_score x)
                      jobs).
  { apply list_elem_of_filter. split; [split; [done | lia] | done]. }
  destruct (filter (λ x, link x = link j ∧ threshold low ≤ get_score x) jobs)
    as [|j' rest] eqn:Hf; [by apply elem_of_nil in Hj'|].
  cbn [take] in Hper. exists j'.
  assert (Hin' : j' ∈ filter (λ x, link x = link j)
                         (filter_loop (threshold low) jobs (history low)).1)
    by (rewrite Hper; by left).
  apply list_elem_of_filter in Hin' as [Hl Hin']. done.
Qed.

Lemma filter_jobs_threshold_monotone_witness :
  ∃ j', j' ∈ (filter_jobs [Examples.job_a; Examples.job_b; Examples.job_c]
                Examples.filter_50 Examples.no_file).1.1
        ∧ link j' = link Examples.job_c.
Proof.
  apply (filter_jobs_threshold_monotone
           [Examples.job_a; Examples.job_b; Examples.job_c]
           Examples.filter_50
           {| threshold := 60; history := ∅ |}
           Examples.no_file Examples.job_c).
  - vm_compute. discriminate.
  - reflexivity.
  - vm_compute. by left.
Defined.

End ThresholdClaims.
